(** * lavfi-preview: the graph lifecycle, the sink pump and the option binding

    A shallow embedding of [src/main.cpp].  The process-wide globals form one
    record, [World]; every function of the source that the properties below
    talk about is a function on that record.  Calls into libavfilter, ImGui
    and ImNodes are the boundary of the model: what they return is an input
    of the embedded function (an [Engine] record of answers for the engine,
    a record of user events for the widgets). *)

From Stdlib Require Import ZArith Lia.
From stdpp Require Import base list strings pretty gmap.

Local Open Scope Z_scope.

(** ** Data model *)

Definition ptr := nat.

(** [int x = (int)v]: the 32-bit two's complement value of a wider integer. *)
Definition wrap32 (v : Z) : Z := (v + 2 ^ 31) mod 2 ^ 32 - 2 ^ 31.

(** [errno.h] as on Linux; [AVERROR(e)] is [-e]. *)
Definition EAGAIN : Z := 11.
Definition ENOMEM : Z := 12.
Definition EINVAL : Z := 22.
Definition ERANGE : Z := 34.
Definition ENOSYS : Z := 38.
Definition AVERROR (e : Z) : Z := - e.
Definition AVERROR_EOF : Z := -541478725.
Definition AVERROR_OPTION_NOT_FOUND : Z := -1414549496.
Definition UINT_MAX : Z := 4294967295.

Inductive AVMediaType :=
| AVMEDIA_TYPE_UNKNOWN
| AVMEDIA_TYPE_VIDEO
| AVMEDIA_TYPE_AUDIO
| AVMEDIA_TYPE_DATA
| AVMEDIA_TYPE_SUBTITLE
| AVMEDIA_TYPE_ATTACHMENT.

#[global] Instance AVMediaType_eq_dec : EqDecision AVMediaType.
Proof. solve_decision. Defined.

Definition AVFILTER_FLAG_SUPPORT_TIMELINE_GENERIC : Z := 65536.
Definition AVFILTER_FLAG_SUPPORT_TIMELINE_INTERNAL : Z := 131072.
Definition AVFILTER_FLAG_SUPPORT_TIMELINE : Z :=
  Z.lor AVFILTER_FLAG_SUPPORT_TIMELINE_GENERIC AVFILTER_FLAG_SUPPORT_TIMELINE_INTERNAL.

(** The fields of libavfilter's [AVFilter] that [main.cpp] reads. *)
Record AVFilter := {
  name : string;
  description : string;
  inputs : list AVMediaType;
  outputs : list AVMediaType;
  flags : Z;
  process_command : bool
}.

(** The fields of [AVFilterContext] that [main.cpp] reads.  [ctx_filter] is
    the [filter] member, a pointer that the source tests against NULL. *)
Record AVFilterContext := {
  ctx_name : string;
  ctx_filter : option AVFilter;
  input_pads : list AVMediaType;
  output_pads : list AVMediaType;
  is_disabled : bool
}.

(** An [AVFilterGraph] owns its contexts; [filters] is the graph's array, in
    its order, each context with the address [AVFilterContext *] values
    point to. *)
Record AVFilterGraph := { filters : list (ptr * AVFilterContext) }.

Fixpoint deref (fs : list (ptr * AVFilterContext)) (p : ptr) : option AVFilterContext :=
  match fs with
  | [] => None
  | (q, c) :: fs' => if decide (q = p) then Some c else deref fs' p
  end.

Record Edge2Pad := { node : nat; is_output : Z; pad_index : nat }.

Record AVRational := { num : Z; den : Z }.

(** [BufferSink], without [speed] and [window_pos] (floating-point display
    data).  Pointers are [option]: [None] is NULL. *)
Record BufferSink := {
  sink_id : nat;
  sink_label : option string;
  sink_ctx : option ptr;
  time_base : AVRational;
  frame_rate : AVRational;
  a_frame : option ptr;
  b_frame : option ptr;
  uploaded_frame : bool;
  fullscreen : bool;
  show_osd : bool;
  have_window_pos : bool;
  texture : nat
}.

(** The [OptStorage] union: the member last written. *)
Inductive OptStorage :=
| U_i32 (v : Z)
| U_i64 (v : Z)
| U_u64 (v : Z)
| U_str (s : option string).

Record FilterNode := {
  node_id : Z;
  node_edge : Z;
  colapsed : bool;
  node_filter : option AVFilter;
  filter_name : option string;
  filter_label : option string;
  ctx_options : option string;
  filter_options : option string;
  probe : option ptr;
  probe_graph : option AVFilterGraph;
  node_ctx : option ptr;
  opt_storage : list OptStorage
}.

(** A [std::thread] object: default-constructed, or started on
    [worker_thread] for the sink of that index.  A started thread stays
    joinable after its function has returned, until it is joined. *)
Inductive Thread :=
| NotAThread
| Started (sink : nat) (returned : bool).

Definition joinable (t : Thread) : bool :=
  match t with NotAThread => false | Started _ _ => true end.

Definition running (t : Thread) : bool :=
  match t with Started _ false => true | _ => false end.

(** The globals of [main.cpp].  [mutexes] is a vector of mutex objects, of
    which only the number matters here; [next_alloc] is the next address the
    allocator hands out. *)
Record World := {
  show_buffersink_window : bool;
  show_dumpgraph_window : bool;
  need_filters_reinit : bool;
  framestep : bool;
  paused : bool;
  filter_graph : option AVFilterGraph;
  graphdump_text : option string;
  buffer_sinks : list BufferSink;
  mutexes : nat;
  video_sink_threads : list Thread;
  filter_nodes : list FilterNode;
  filter_links : list (Z * Z);
  edge2type : list (Z * AVMediaType);
  edge2pad : list Edge2Pad;
  next_alloc : ptr
}.

Definition set_show_windows (w : World) : World :=
  {| show_buffersink_window := true; show_dumpgraph_window := true;
     need_filters_reinit := need_filters_reinit w; framestep := framestep w;
     paused := paused w; filter_graph := filter_graph w;
     graphdump_text := graphdump_text w; buffer_sinks := buffer_sinks w;
     mutexes := mutexes w; video_sink_threads := video_sink_threads w;
     filter_nodes := filter_nodes w; filter_links := filter_links w;
     edge2type := edge2type w; edge2pad := edge2pad w; next_alloc := next_alloc w |}.

Definition set_show_buffersink_window (b : bool) (w : World) : World :=
  {| show_buffersink_window := b;
     show_dumpgraph_window := show_dumpgraph_window w;
     need_filters_reinit := need_filters_reinit w; framestep := framestep w;
     paused := paused w; filter_graph := filter_graph w;
     graphdump_text := graphdump_text w; buffer_sinks := buffer_sinks w;
     mutexes := mutexes w; video_sink_threads := video_sink_threads w;
     filter_nodes := filter_nodes w; filter_links := filter_links w;
     edge2type := edge2type w; edge2pad := edge2pad w; next_alloc := next_alloc w |}.

Definition set_need_filters_reinit (b : bool) (w : World) : World :=
  {| show_buffersink_window := show_buffersink_window w;
     show_dumpgraph_window := show_dumpgraph_window w;
     need_filters_reinit := b; framestep := framestep w;
     paused := paused w; filter_graph := filter_graph w;
     graphdump_text := graphdump_text w; buffer_sinks := buffer_sinks w;
     mutexes := mutexes w; video_sink_threads := video_sink_threads w;
     filter_nodes := filter_nodes w; filter_links := filter_links w;
     edge2type := edge2type w; edge2pad := edge2pad w; next_alloc := next_alloc w |}.

Definition set_filter_graph (g : option AVFilterGraph) (w : World) : World :=
  {| show_buffersink_window := show_buffersink_window w;
     show_dumpgraph_window := show_dumpgraph_window w;
     need_filters_reinit := need_filters_reinit w; framestep := framestep w;
     paused := paused w; filter_graph := g;
     graphdump_text := graphdump_text w; buffer_sinks := buffer_sinks w;
     mutexes := mutexes w; video_sink_threads := video_sink_threads w;
     filter_nodes := filter_nodes w; filter_links := filter_links w;
     edge2type := edge2type w; edge2pad := edge2pad w; next_alloc := next_alloc w |}.

Definition set_graphdump_text (s : option string) (w : World) : World :=
  {| show_buffersink_window := show_buffersink_window w;
     show_dumpgraph_window := show_dumpgraph_window w;
     need_filters_reinit := need_filters_reinit w; framestep := framestep w;
     paused := paused w; filter_graph := filter_graph w;
     graphdump_text := s; buffer_sinks := buffer_sinks w;
     mutexes := mutexes w; video_sink_threads := video_sink_threads w;
     filter_nodes := filter_nodes w; filter_links := filter_links w;
     edge2type := edge2type w; edge2pad := edge2pad w; next_alloc := next_alloc w |}.

Definition set_buffer_sinks (l : list BufferSink) (w : World) : World :=
  {| show_buffersink_window := show_buffersink_window w;
     show_dumpgraph_window := show_dumpgraph_window w;
     need_filters_reinit := need_filters_reinit w; framestep := framestep w;
     paused := paused w; filter_graph := filter_graph w;
     graphdump_text := graphdump_text w; buffer_sinks := l;
     mutexes := mutexes w; video_sink_threads := video_sink_threads w;
     filter_nodes := filter_nodes w; filter_links := filter_links w;
     edge2type := edge2type w; edge2pad := edge2pad w; next_alloc := next_alloc w |}.

Definition set_mutexes (n : nat) (w : World) : World :=
  {| show_buffersink_window := show_buffersink_window w;
     show_dumpgraph_window := show_dumpgraph_window w;
     need_filters_reinit := need_filters_reinit w; framestep := framestep w;
     paused := paused w; filter_graph := filter_graph w;
     graphdump_text := graphdump_text w; buffer_sinks := buffer_sinks w;
     mutexes := n; video_sink_threads := video_sink_threads w;
     filter_nodes := filter_nodes w; filter_links := filter_links w;
     edge2type := edge2type w; edge2pad := edge2pad w; next_alloc := next_alloc w |}.

Definition set_video_sink_threads (l : list Thread) (w : World) : World :=
  {| show_buffersink_window := show_buffersink_window w;
     show_dumpgraph_window := show_dumpgraph_window w;
     need_filters_reinit := need_filters_reinit w; framestep := framestep w;
     paused := paused w; filter_graph := filter_graph w;
     graphdump_text := graphdump_text w; buffer_sinks := buffer_sinks w;
     mutexes := mutexes w; video_sink_threads := l;
     filter_nodes := filter_nodes w; filter_links := filter_links w;
     edge2type := edge2type w; edge2pad := edge2pad w; next_alloc := next_alloc w |}.

Definition set_filter_nodes (l : list FilterNode) (w : World) : World :=
  {| show_buffersink_window := show_buffersink_window w;
     show_dumpgraph_window := show_dumpgraph_window w;
     need_filters_reinit := need_filters_reinit w; framestep := framestep w;
     paused := paused w; filter_graph := filter_graph w;
     graphdump_text := graphdump_text w; buffer_sinks := buffer_sinks w;
     mutexes := mutexes w; video_sink_threads := video_sink_threads w;
     filter_nodes := l; filter_links := filter_links w;
     edge2type := edge2type w; edge2pad := edge2pad w; next_alloc := next_alloc w |}.

Definition set_filter_links (l : list (Z * Z)) (w : World) : World :=
  {| show_buffersink_window := show_buffersink_window w;
     show_dumpgraph_window := show_dumpgraph_window w;
     need_filters_reinit := need_filters_reinit w; framestep := framestep w;
     paused := paused w; filter_graph := filter_graph w;
     graphdump_text := graphdump_text w; buffer_sinks := buffer_sinks w;
     mutexes := mutexes w; video_sink_threads := video_sink_threads w;
     filter_nodes := filter_nodes w; filter_links := l;
     edge2type := edge2type w; edge2pad := edge2pad w; next_alloc := next_alloc w |}.

Definition set_edge_tables (t : list (Z * AVMediaType)) (p : list Edge2Pad)
    (w : World) : World :=
  {| show_buffersink_window := show_buffersink_window w;
     show_dumpgraph_window := show_dumpgraph_window w;
     need_filters_reinit := need_filters_reinit w; framestep := framestep w;
     paused := paused w; filter_graph := filter_graph w;
     graphdump_text := graphdump_text w; buffer_sinks := buffer_sinks w;
     mutexes := mutexes w; video_sink_threads := video_sink_threads w;
     filter_nodes := filter_nodes w; filter_links := filter_links w;
     edge2type := t; edge2pad := p; next_alloc := next_alloc w |}.

Definition set_pause (p f : bool) (w : World) : World :=
  {| show_buffersink_window := show_buffersink_window w;
     show_dumpgraph_window := show_dumpgraph_window w;
     need_filters_reinit := need_filters_reinit w; framestep := f;
     paused := p; filter_graph := filter_graph w;
     graphdump_text := graphdump_text w; buffer_sinks := buffer_sinks w;
     mutexes := mutexes w; video_sink_threads := video_sink_threads w;
     filter_nodes := filter_nodes w; filter_links := filter_links w;
     edge2type := edge2type w; edge2pad := edge2pad w; next_alloc := next_alloc w |}.

Definition set_next_alloc (n : ptr) (w : World) : World :=
  {| show_buffersink_window := show_buffersink_window w;
     show_dumpgraph_window := show_dumpgraph_window w;
     need_filters_reinit := need_filters_reinit w; framestep := framestep w;
     paused := paused w; filter_graph := filter_graph w;
     graphdump_text := graphdump_text w; buffer_sinks := buffer_sinks w;
     mutexes := mutexes w; video_sink_threads := video_sink_threads w;
     filter_nodes := filter_nodes w; filter_links := filter_links w;
     edge2type := edge2type w; edge2pad := edge2pad w; next_alloc := n |}.

(** [v[i]] for an [int] index. *)
Definition at_int {A} (l : list A) (i : Z) : option A :=
  if i <? 0 then None else l !! Z.to_nat i.

(** ** The effects of [filters_setup]

    What the function does to threads, containers and the engine is recorded
    as a trace, in program order. *)

Inductive Event :=
| EvJoin (i : nat)
| EvThreadsClear
| EvSinksClear
| EvMutexesClear
| EvDumpFree
| EvGraphFree
| EvGraphAlloc
| EvFilterAlloc (i : nat)
| EvFilterInit (i : nat)
| EvLink (i : nat)
| EvGraphConfig
| EvLog (msg : string)
| EvSpawn (i : nat).

#[global] Instance Event_eq_dec : EqDecision Event.
Proof. solve_decision. Defined.

(** A statement either falls through with a value, jumps to the [error:]
    label with [ret] set, or indexes a vector out of its range. *)
Inductive Outcome (A : Type) :=
| Normal (a : A)
| GotoError (ret : Z)
| Undefined.
Arguments Normal {A} a.
Arguments GotoError {A} ret.
Arguments Undefined {A}.

Definition M (A : Type) : Type := World → Outcome A * World * list Event.

#[global] Instance M_ret : MRet M := λ A a w, (Normal a, w, []).
#[global] Instance M_bind : MBind M := λ A B k m w,
  match m w with
  | (Normal a, w1, t1) =>
      match k a w1 with (o, w2, t2) => (o, w2, t1 ++ t2) end
  | (GotoError r, w1, t1) => (GotoError r, w1, t1)
  | (Undefined, w1, t1) => (Undefined, w1, t1)
  end.

Definition get : M World := λ w, (Normal w, w, []).
Definition modify (f : World → World) : M unit := λ w, (Normal tt, f w, []).
Definition emit (e : Event) : M unit := λ w, (Normal tt, w, [e]).
Definition goto_error {A} (ret : Z) : M A := λ w, (GotoError ret, w, []).
Definition undefined {A} : M A := λ w, (Undefined, w, []).

Definition alloc : M ptr :=
  λ w, (Normal (next_alloc w), set_next_alloc (S (next_alloc w)) w, []).

(** [if (ret < 0) { av_log(...); goto error; }] *)
Definition check (ret : Z) (msg : string) : M unit :=
  if ret <? 0 then emit (EvLog msg) ;; goto_error ret else mret tt.

(** [for (unsigned i = from; i < from + n; i++) body(i)] *)
Fixpoint for_range (from n : nat) (body : nat → M unit) : M unit :=
  match n with
  | O => mret tt
  | S n' => body from ;; for_range (S from) n' body
  end.

(** What the engine answers to the calls [filters_setup] makes.  Calls made
    once per node or per link are indexed by the loop counter. *)
Record Engine := {
  avfilter_graph_alloc : bool;
  avfilter_graph_alloc_filter : nat → bool;
  av_opt_set_int_list : nat → Z;
  av_opt_serialize_ctx : nat → Z * option string;
  av_opt_serialize_priv : nat → Z * option string;
  av_opt_set_from_string_ctx : nat → Z;
  av_opt_set_from_string_priv : nat → Z;
  avfilter_init_str : nat → Z;
  avfilter_link : nat → Z;
  avfilter_graph_config : Z;
  avfilter_graph_config_inserted : list (ptr * AVFilterContext);
  avfilter_graph_dump : option string;
  av_buffersink_get_time_base : nat → AVRational;
  av_buffersink_get_frame_rate : nat → AVRational
}.

Definition is_buffersink (f : AVFilter) : bool := String.eqb (name f) "buffersink".

Definition set_node_ctx (c : option ptr) (n : FilterNode) : FilterNode :=
  {| node_id := node_id n; node_edge := node_edge n; colapsed := colapsed n;
     node_filter := node_filter n; filter_name := filter_name n;
     filter_label := filter_label n; ctx_options := ctx_options n;
     filter_options := filter_options n; probe := probe n;
     probe_graph := probe_graph n; node_ctx := c; opt_storage := opt_storage n |}.

Definition set_ctx_options (s : option string) (n : FilterNode) : FilterNode :=
  {| node_id := node_id n; node_edge := node_edge n; colapsed := colapsed n;
     node_filter := node_filter n; filter_name := filter_name n;
     filter_label := filter_label n; ctx_options := s;
     filter_options := filter_options n; probe := probe n;
     probe_graph := probe_graph n; node_ctx := node_ctx n; opt_storage := opt_storage n |}.

Definition set_filter_options (s : option string) (n : FilterNode) : FilterNode :=
  {| node_id := node_id n; node_edge := node_edge n; colapsed := colapsed n;
     node_filter := node_filter n; filter_name := filter_name n;
     filter_label := filter_label n; ctx_options := ctx_options n;
     filter_options := s; probe := probe n;
     probe_graph := probe_graph n; node_ctx := node_ctx n; opt_storage := opt_storage n |}.

Definition update_node (i : nat) (f : FilterNode → FilterNode) : M unit :=
  modify (λ w, set_filter_nodes (alter f i (filter_nodes w)) w).

(** The context [avfilter_graph_alloc_filter] creates inside the graph. *)
Definition new_context (f : AVFilter) (label : option string) : AVFilterContext :=
  {| ctx_name := default (name f) label; ctx_filter := Some f;
     input_pads := inputs f; output_pads := outputs f; is_disabled := false |}.

Definition graph_add (p : ptr) (c : AVFilterContext) (w : World) : World :=
  set_filter_graph
    (Some {| filters := from_option filters [] (filter_graph w) ++ [(p, c)] |}) w.

(** The [BufferSink new_sink] of the node loop: five members are assigned,
    the others are left as they are until the sink is started. *)
Definition new_sink (filter_ctx : ptr) : BufferSink :=
  {| sink_id := 0; sink_label := None; sink_ctx := Some filter_ctx;
     time_base := {| num := 0; den := 0 |}; frame_rate := {| num := 0; den := 0 |};
     a_frame := None; b_frame := None; uploaded_frame := false;
     fullscreen := false; show_osd := false; have_window_pos := false;
     texture := 0 |}.

(** The body of the loop over [filter_nodes] (lines 192-262). *)
Definition setup_node (eng : Engine) (i : nat) : M unit :=
  w ← get;
  match filter_nodes w !! i with
  | None => undefined
  | Some nd =>
    match node_filter nd with
    | None =>
        emit (EvLog "Cannot get filter by name") ;; goto_error (AVERROR ENOSYS)
    | Some new_filter =>
        filter_ctx ← (if avfilter_graph_alloc_filter eng i
                      then p ← alloc;
                           modify (graph_add p (new_context new_filter (filter_label nd))) ;;
                           emit (EvFilterAlloc i) ;; mret p
                      else emit (EvLog "Cannot allocate filter context.") ;;
                           goto_error (AVERROR ENOMEM));
        (if is_buffersink new_filter
         then check (av_opt_set_int_list eng i)
                    "Cannot set buffersink output pixel format." ;;
              modify (λ w, set_buffer_sinks (buffer_sinks w ++ [new_sink filter_ctx]) w)
         else mret tt) ;;
        update_node i (set_node_ctx (Some filter_ctx)) ;;
        update_node i (set_ctx_options (av_opt_serialize_ctx eng i).2) ;;
        check (av_opt_serialize_ctx eng i).1 "Cannot serialize filter ctx options." ;;
        update_node i (set_filter_options (av_opt_serialize_priv eng i).2) ;;
        (if (av_opt_serialize_priv eng i).1 <? 0
         then emit (EvLog "Cannot serialize filter private options.")
         else mret tt) ;;
        check (av_opt_set_from_string_ctx eng i) "Error setting filter ctx options." ;;
        check (av_opt_set_from_string_priv eng i) "Error setting filter private options." ;;
        check (avfilter_init_str eng i) "Cannot init str for filter." ;;
        emit (EvFilterInit i)
    end
  end.

(** The body of the loop over [filter_links] (lines 264-286).  Of the branch
    for a node index out of range, which formats [filter_nodes[x]] into its
    log line, the jump to [error:] is what is embedded. *)
Definition setup_link (eng : Engine) (i : nat) : M unit :=
  w ← get;
  match filter_links w !! i with
  | None => undefined
  | Some p =>
    match at_int (edge2pad w) p.1, at_int (edge2pad w) p.2 with
    | Some first, Some second =>
        let x := node first in
        let y := node second in
        if decide (length (filter_nodes w) ≤ x ∨ length (filter_nodes w) ≤ y)%nat
        then emit (EvLog "Cannot link filters: index out of range") ;;
             goto_error (AVERROR EINVAL)
        else check (avfilter_link eng i) "Cannot link filters" ;;
             emit (EvLink i)
    | _, _ => undefined
    end
  end.

(** Lines 179-296: from [buffer_sinks.clear()] to the [error:] label.  The
    value is [ret] as it stands on falling through to the label. *)
Definition build_graph (eng : Engine) : M Z :=
  modify (set_buffer_sinks []) ;; emit EvSinksClear ;;
  modify (set_mutexes 0) ;; emit EvMutexesClear ;;
  modify (set_graphdump_text None) ;; emit EvDumpFree ;;
  modify (set_filter_graph None) ;; emit EvGraphFree ;;
  (if avfilter_graph_alloc eng
   then modify (set_filter_graph (Some {| filters := [] |})) ;; emit EvGraphAlloc
   else emit (EvLog "Cannot allocate graph") ;; goto_error (AVERROR ENOMEM)) ;;
  w ← get;
  for_range 0 (length (filter_nodes w)) (setup_node eng) ;;
  for_range 0 (length (filter_links w)) (setup_link eng) ;;
  check (avfilter_graph_config eng) "Cannot configure graph." ;;
  modify (λ w, set_filter_graph
     (Some {| filters := from_option filters [] (filter_graph w)
                           ++ avfilter_graph_config_inserted eng |}) w) ;;
  emit EvGraphConfig ;;
  modify (set_graphdump_text (avfilter_graph_dump eng)) ;;
  modify set_show_windows ;;
  mret (avfilter_graph_config eng).

Definition start_sink (eng : Engine) (i : nat) (a b tex : ptr) (s : BufferSink) : BufferSink :=
  {| sink_id := i;
     sink_label := Some ("FilterGraph Output " +:+ pretty i);
     sink_ctx := sink_ctx s;
     time_base := av_buffersink_get_time_base eng i;
     frame_rate := av_buffersink_get_frame_rate eng i;
     a_frame := Some a; b_frame := Some b;
     uploaded_frame := uploaded_frame s; fullscreen := fullscreen s;
     show_osd := show_osd s; have_window_pos := have_window_pos s;
     texture := tex |}.

(** The body of the loop over [buffer_sinks] (lines 309-320). *)
Definition spawn_sink (eng : Engine) (i : nat) : M unit :=
  a ← alloc; b ← alloc; tex ← alloc;
  modify (λ w, set_buffer_sinks (alter (start_sink eng i a b tex) i (buffer_sinks w)) w) ;;
  modify (λ w, set_video_sink_threads (<[i := Started i false]> (video_sink_threads w)) w) ;;
  emit (EvSpawn i).

Fixpoint join_from (i : nat) (ts : list Thread) : list Event :=
  match ts with
  | [] => []
  | t :: ts' => (if joinable t then [EvJoin i] else []) ++ join_from (S i) ts'
  end.

(** [if (video_sink_threads[i].joinable()) video_sink_threads[i].join();]
    What the joined thread wrote to its sink before it returned is the
    thread's own doing, see [worker_thread] and [release]. *)
Definition join_thread (i : nat) : M unit :=
  w ← get;
  match video_sink_threads w !! i with
  | Some t => if joinable t
              then emit (EvJoin i) ;;
                   modify (λ w, set_video_sink_threads
                             (<[i := NotAThread]> (video_sink_threads w)) w)
              else mret tt
  | None => undefined
  end.

(** Lines 167-172, also in [main]: join what is joinable, then clear. *)
Definition join_all : M unit :=
  w ← get;
  for_range 0 (length (video_sink_threads w)) join_thread ;;
  modify (set_video_sink_threads []) ;; emit EvThreadsClear.

Inductive Returned :=
| Return (ret : Z)
| Crash.

Definition filters_setup (eng : Engine) (w : World) : Returned * World * list Event :=
  if negb (need_filters_reinit w) then (Return 0, w, [])
  else
    match (join_all ;; modify (set_need_filters_reinit false)) w with
    | (Normal _, w1, t1) =>
      if decide (length (filter_nodes w1) = 0%nat) then (Return 0, w1, t1)
      else
        match build_graph eng w1 with
        | (Undefined, w2, t2) => (Crash, w2, t1 ++ t2)
        | (o, w2, t2) =>
          let ret := match o with Normal r => r | GotoError r => r | Undefined => 0 end in
          if ret <? 0 then (Return ret, w2, t1 ++ t2)
          else
            match (modify (λ w, set_video_sink_threads
                             (replicate (length (buffer_sinks w)) NotAThread)
                             (set_mutexes (length (buffer_sinks w)) w)) ;;
                   w ← get;
                   for_range 0 (length (buffer_sinks w)) (spawn_sink eng)) w2 with
            | (_, w3, t3) => (Return 0, w3, t1 ++ t2 ++ t3)
            end
        end
    | (_, w1, t1) => (Crash, w1, t1)
    end.

(** [main], lines 1582-1595: once the sink window is closed, the threads are
    stopped and joined without a rebuild. *)
Definition drain_on_close : M unit :=
  w ← get;
  if negb (show_buffersink_window w)
     && bool_decide (0 < length (video_sink_threads w))%nat
  then modify (set_need_filters_reinit true) ;;
       join_all ;;
       modify (set_need_filters_reinit false)
  else mret tt.

(** ** The render loop's side of the double buffer ([main], lines 1604-1623) *)

Definition set_uploaded_frame (b : bool) (s : BufferSink) : BufferSink :=
  {| sink_id := sink_id s; sink_label := sink_label s; sink_ctx := sink_ctx s;
     time_base := time_base s; frame_rate := frame_rate s;
     a_frame := a_frame s; b_frame := b_frame s; uploaded_frame := b;
     fullscreen := fullscreen s; show_osd := show_osd s;
     have_window_pos := have_window_pos s; texture := texture s |}.

(** [tmp = b_frame; b_frame = a_frame; a_frame = tmp; uploaded_frame = false] *)
Definition swap_frames (s : BufferSink) : BufferSink :=
  {| sink_id := sink_id s; sink_label := sink_label s; sink_ctx := sink_ctx s;
     time_base := time_base s; frame_rate := frame_rate s;
     a_frame := b_frame s; b_frame := a_frame s; uploaded_frame := false;
     fullscreen := fullscreen s; show_osd := show_osd s;
     have_window_pos := have_window_pos s; texture := texture s |}.

Definition set_sink_ui (fs osd pos : bool) (s : BufferSink) : BufferSink :=
  {| sink_id := sink_id s; sink_label := sink_label s; sink_ctx := sink_ctx s;
     time_base := time_base s; frame_rate := frame_rate s;
     a_frame := a_frame s; b_frame := b_frame s; uploaded_frame := uploaded_frame s;
     fullscreen := fs; show_osd := osd; have_window_pos := pos; texture := texture s |}.

(** [render_frame = sink->uploaded_frame == false ? sink->b_frame : sink->a_frame] *)
Definition render_frame (s : BufferSink) : option ptr :=
  if bool_decide (uploaded_frame s = false) then b_frame s else a_frame s.

(** What ImGui reports inside one call of [draw_frame]. *)
Record FrameUI := {
  ui_begin : bool;
  ui_close : bool;
  ui_focused : bool;
  key_F : bool;
  key_Space : bool;
  key_Period : bool;
  key_shift_Q : bool;
  key_O : bool
}.

(** [draw_frame]: the frame it uploads with [load_frame], if any, the sink
    and the three globals it may write ([show_buffersink_window], which
    [ImGui::Begin] clears when the window's close button is used, [paused]
    and [framestep]). *)
Definition draw_frame (ui : FrameUI) (p_open : bool) (new_frame : option ptr)
    (s : BufferSink) (p f : bool) : option ptr * BufferSink * (bool * bool * bool) :=
  if negb p_open || negb (bool_decide (is_Some new_frame)) then (None, s, (p_open, p, f))
  else
    let pos := if fullscreen s then true else false in
    let s1 := set_sink_ui (fullscreen s) (show_osd s) pos s in
    let p_open := if ui_close ui then false else p_open in
    if negb (ui_begin ui) then (new_frame, s1, (p_open, p, f))
    else if ui_focused ui then
      let fs := if key_F ui then negb (fullscreen s1) else fullscreen s1 in
      let p1 := if key_Space ui then negb p else p in
      let f1 := key_Period ui in
      let p2 := if f1 then true else p1 in
      let open := if key_shift_Q ui then false else p_open in
      let osd := if key_O ui then negb (show_osd s1) else show_osd s1 in
      (new_frame, set_sink_ui fs osd (have_window_pos s1) s1, (open, p2, f1))
    else (new_frame, s1, (p_open, p, f)).

Inductive RenderEvent :=
| RLock (i : nat)
| RUnlock (i : nat)
| RDraw (i : nat) (frame : option ptr)
| RUpload (i : nat) (frame : ptr)
| RSwap (i : nat).

(** One iteration of the loop over [buffer_sinks] for sink [i].  Between the
    two critical sections the producer of that sink may publish a frame,
    which sets [uploaded_frame]; [published] says whether it did. *)
Definition render_sink (ui : FrameUI) (published : bool) (i : nat) (w : World)
    : World * list RenderEvent :=
  match buffer_sinks w !! i with
  | None => (w, [])
  | Some sink =>
      let frame := render_frame sink in
      let '(shown, sink1, (open, p, f)) :=
        draw_frame ui (show_buffersink_window w) frame sink (paused w) (framestep w) in
      let sink2 := if published && negb (uploaded_frame sink1)
                   then set_uploaded_frame true sink1 else sink1 in
      let do_swap := bool_decide (uploaded_frame sink2 = true) && (negb p || f) in
      let sink3 := if do_swap then swap_frames sink2 else sink2 in
      let w1 := set_pause p f (set_show_buffersink_window open
                  (set_buffer_sinks (<[i := sink3]> (buffer_sinks w)) w)) in
      (w1, [RLock i; RUnlock i; RDraw i frame]
             ++ from_option (λ fr, [RUpload i fr]) [] shown
             ++ [RLock i] ++ (if do_swap then [RSwap i] else []) ++ [RUnlock i])
  end.

Fixpoint render_from (uis : nat → FrameUI) (published : nat → bool) (i n : nat)
    (w : World) : World * list RenderEvent :=
  match n with
  | O => (w, [])
  | S n' =>
      let '(w1, t1) := render_sink (uis i) (published i) i w in
      let '(w2, t2) := render_from uis published (S i) n' w1 in
      (w2, t1 ++ t2)
  end.

(** [if (mutexes.size() == buffer_sinks.size()) for (i = 0; i < buffer_sinks.size(); i++) ...] *)
Definition render_sinks (uis : nat → FrameUI) (published : nat → bool) (w : World)
    : World * list RenderEvent :=
  if decide (mutexes w = length (buffer_sinks w))
  then render_from uis published 0 (length (buffer_sinks w)) w
  else (w, []).

(** ** The producer: [worker_thread] (lines 113-157)

    The thread shares [need_filters_reinit], [paused] and its sink with the
    render loop.  [Env] gives what it reads from them: per outer iteration
    the two globals and whether the render loop swapped the buffers since the
    previous iteration, and per call the result of
    [av_buffersink_get_frame_flags]. *)

Record Env := {
  env_reinit : nat → bool;
  env_paused : nat → bool;
  env_swapped : nat → bool;
  env_pull : nat → Z
}.

Inductive WorkerEvent :=
| WLock
| WUnlock
| WUnref
| WPull (ret : Z)
| WPublish
| WSleep
| WFree.

#[global] Instance WorkerEvent_eq_dec : EqDecision WorkerEvent.
Proof. solve_decision. Defined.

Inductive Status := Exited | OutOfFuel.

(** [ret < 0 && ret != AVERROR(EAGAIN)] *)
Definition terminal (ret : Z) : bool :=
  (ret <? 0) && negb (ret =? AVERROR EAGAIN).

(** The inner [while (!sink->uploaded_frame)], entered with the mutex held.
    [np] counts the pulls made so far. *)
Fixpoint pull_loop (fuel : nat) (env : Env) (s : BufferSink) (np : nat)
    : Status * BufferSink * nat * list WorkerEvent :=
  if uploaded_frame s then (Exited, s, np, [])
  else
    match fuel with
    | O => (OutOfFuel, s, np, [])
    | S fuel' =>
        let ret := env_pull env np in
        if terminal ret
        then (Exited, s, S np, [WUnlock; WUnref; WPull ret; WLock])
        else
          let '(st, s', np', t) :=
            pull_loop fuel' env (set_uploaded_frame true s) (S np) in
          (st, s', np', [WUnlock; WUnref; WPull ret; WLock; WPublish] ++ t)
    end.

(** The outer [while (sink->ctx)], at its [k]-th test. *)
Fixpoint worker_loop (fuel : nat) (env : Env) (s : BufferSink) (k np : nat)
    : Status * BufferSink * nat * list WorkerEvent :=
  match fuel with
  | O => (OutOfFuel, s, np, [])
  | S fuel' =>
      let s := if env_swapped env k && uploaded_frame s then swap_frames s else s in
      if negb (bool_decide (is_Some (sink_ctx s))) then (Exited, s, np, [])
      else if env_reinit env k then (Exited, s, np, [])
      else
        match pull_loop (S fuel') env s np with
        | (OutOfFuel, s1, np1, t1) => (OutOfFuel, s1, np1, WLock :: t1)
        | (Exited, s1, np1, t1) =>
            let t2 := WLock :: t1 ++ [WUnlock]
                        ++ (if env_paused env k then [WSleep] else []) in
            let '(st, s2, np2, t3) := worker_loop fuel' env s1 (S k) np1 in
            (st, s2, np2, t2 ++ t3)
        end
  end.

(** Lines 149-156: the buffers, the label and the texture are released. *)
Definition release (s : BufferSink) : BufferSink :=
  {| sink_id := sink_id s; sink_label := None; sink_ctx := sink_ctx s;
     time_base := time_base s; frame_rate := frame_rate s;
     a_frame := None; b_frame := None; uploaded_frame := uploaded_frame s;
     fullscreen := fullscreen s; show_osd := show_osd s;
     have_window_pos := have_window_pos s; texture := texture s |}.

Definition worker_thread (fuel : nat) (env : Env) (s : BufferSink)
    : Status * BufferSink * list WorkerEvent :=
  match worker_loop fuel env s 0 0 with
  | (Exited, s1, _, t) => (Exited, release s1, t ++ [WLock; WFree; WUnlock])
  | (OutOfFuel, s1, _, t) => (OutOfFuel, s1, t)
  end.

(** ** The graph editor: [handle_nodeitem], [draw_node_options],
       [show_filtergraph_editor] *)

Definition set_colapsed (b : bool) (n : FilterNode) : FilterNode :=
  {| node_id := node_id n; node_edge := node_edge n; colapsed := b;
     node_filter := node_filter n; filter_name := filter_name n;
     filter_label := filter_label n; ctx_options := ctx_options n;
     filter_options := filter_options n; probe := probe n;
     probe_graph := probe_graph n; node_ctx := node_ctx n; opt_storage := opt_storage n |}.

Definition set_node_edge (e : Z) (n : FilterNode) : FilterNode :=
  {| node_id := node_id n; node_edge := e; colapsed := colapsed n;
     node_filter := node_filter n; filter_name := filter_name n;
     filter_label := filter_label n; ctx_options := ctx_options n;
     filter_options := filter_options n; probe := probe n;
     probe_graph := probe_graph n; node_ctx := node_ctx n; opt_storage := opt_storage n |}.

Definition set_probe (p : option ptr) (g : option AVFilterGraph) (n : FilterNode) : FilterNode :=
  {| node_id := node_id n; node_edge := node_edge n; colapsed := colapsed n;
     node_filter := node_filter n; filter_name := filter_name n;
     filter_label := filter_label n; ctx_options := ctx_options n;
     filter_options := filter_options n; probe := p;
     probe_graph := g; node_ctx := node_ctx n; opt_storage := opt_storage n |}.

(** The writes of the Remove button before the erase (lines 675-685). *)
Definition released_by_button (n : FilterNode) : FilterNode :=
  {| node_id := node_id n; node_edge := node_edge n; colapsed := false;
     node_filter := node_filter n; filter_name := None;
     filter_label := None; ctx_options := None;
     filter_options := None; probe := None;
     probe_graph := None; node_ctx := None; opt_storage := opt_storage n |}.

(** The writes of delete-selection (lines 1182-1191); [ctx] keeps its value. *)
Definition released_by_selection (n : FilterNode) : FilterNode :=
  {| node_id := node_id n; node_edge := node_edge n; colapsed := colapsed n;
     node_filter := None; filter_name := None;
     filter_label := None; ctx_options := None;
     filter_options := None; probe := None;
     probe_graph := None; node_ctx := node_ctx n; opt_storage := opt_storage n |}.

(** [v.erase(v.begin() + i)] for an [int] index. *)
Definition erase_at {A} (l : list A) (i : Z) : option (list A) :=
  if (0 <=? i) && (i <? Z.of_nat (length l)) then Some (delete (Z.to_nat i) l) else None.

(** [avfilter_free(ctx)]: the engine takes the context out of the graph that
    owns it; NULL is ignored. *)
Definition avfilter_free (c : option ptr) (w : World) : World :=
  match c, filter_graph w with
  | Some p, Some g =>
      set_filter_graph (Some {| filters := filter (λ e, e.1 ≠ p) (filters g) |}) w
  | _, _ => w
  end.

(** [for (i...) if (video_sink_threads[i].joinable()) return;] *)
Definition any_joinable (w : World) : bool :=
  existsb joinable (video_sink_threads w).

(** What the widgets and the two probe allocations of [draw_node_options]
    report for one node. *)
Record NodeUI := {
  probe_graph_alloc : bool;
  probe_alloc : bool;
  btn_options : bool;
  btn_close : bool;
  btn_remove : bool;
  list_box : bool
}.

(** [handle_nodeitem] after [ImGui::MenuItem] reported a click. *)
Definition handle_nodeitem (f : AVFilter) (w : World) : World :=
  let id := Z.of_nat (length (filter_nodes w)) in
  set_filter_nodes
    (filter_nodes w ++
       [{| node_id := id; node_edge := 0; colapsed := false;
           node_filter := Some f; filter_name := Some (name f);
           filter_label := Some (name f +:+ pretty id);
           ctx_options := None; filter_options := None; probe := None;
           probe_graph := None; node_ctx := None; opt_storage := [] |}]) w.

(** [draw_node_options(&filter_nodes[i])] up to [BeginListBox] (lines
    635-692).  The value says whether the option list is drawn; the list
    itself works on [probe_ctx->priv], see [draw_option] below.  A probe
    cannot be allocated for a NULL [filter]: the engine returns NULL. *)
Definition draw_node_options (ui : NodeUI) (i : nat) : M bool :=
  w ← get;
  match filter_nodes w !! i with
  | None => undefined
  | Some nd =>
    let pg := match probe_graph nd with
              | Some g => Some g
              | None => if probe_graph_alloc ui then Some {| filters := [] |} else None
              end in
    update_node i (set_probe (probe nd) pg) ;;
    match pg with
    | None => mret false
    | Some g =>
      pr ← match probe nd, node_filter nd with
           | Some p, _ => mret (Some p)
           | None, None => mret None
           | None, Some f =>
               if probe_alloc ui
               then p ← alloc;
                    update_node i (set_probe (Some p)
                      (Some {| filters := filters g ++ [(p, new_context f (Some "probe"))] |})) ;;
                    mret (Some p)
               else mret None
           end;
      match pr with
      | None => mret false
      | Some _ =>
        if negb (colapsed nd) && negb (btn_options ui) then mret false
        else
          update_node i (set_colapsed true) ;;
          if btn_close ui then update_node i (set_colapsed false) ;; mret false
          else
            w ← get;
            if any_joinable w then mret false
            else if btn_remove ui
            then update_node i released_by_button ;;
                 modify (avfilter_free (node_ctx nd)) ;;
                 w ← get;
                 match erase_at (filter_nodes w) (node_id nd) with
                 | Some l => modify (set_filter_nodes l) ;; mret false
                 | None => undefined
                 end
            else mret (list_box ui)
      end
    end
  end.

Record EditorUI := {
  ed_begin : bool;
  ed_ctrl_enter : bool;
  ed_menu_pick : option AVFilter;
  ed_node : nat → NodeUI;
  ed_link_created : option (Z * Z);
  ed_link_destroyed : option Z;
  ed_key_X : bool;
  ed_selected_links : list Z;
  ed_selected_nodes : list Z
}.

Definition push_edge (e : Z) (t : AVMediaType) (p : Edge2Pad) : M unit :=
  modify (λ w, set_edge_tables (edge2type w ++ [(e, t)]) (edge2pad w ++ [p]) w).

(** The two loops over the pads of a node (lines 1094-1126): one slot per
    pad, numbered from [edge]. *)
Fixpoint push_pads (i : nat) (out : Z) (j : nat) (pads : list AVMediaType) (edge : Z) : M Z :=
  match pads with
  | [] => mret edge
  | t :: pads' =>
      push_edge edge t {| node := i; is_output := out; pad_index := j |} ;;
      push_pads i out (S j) pads' (edge + 1)
  end.

(** The loop over [filter_nodes] (lines 1071-1129).  The bound is read again
    on every iteration, because [draw_node_options] may erase a node; the
    number of iterations is at most the initial size, which is [fuel]. *)
Fixpoint draw_nodes (fuel : nat) (ui : EditorUI) (i : nat) (edge : Z) : M Z :=
  match fuel with
  | O => mret edge
  | S fuel' =>
    w ← get;
    if decide (i < length (filter_nodes w))%nat then
      update_node i (set_node_edge edge) ;;
      push_edge edge AVMEDIA_TYPE_UNKNOWN {| node := i; is_output := 0; pad_index := 0 |} ;;
      draw_node_options (ed_node ui i) i ;;
      w ← get;
      match filter_nodes w !! i with
      | None => undefined
      | Some nd =>
        match probe nd with
        | None => draw_nodes fuel' ui (S i) (edge + 1)
        | Some pr =>
          let filter_ctx :=
            match node_ctx nd with
            | Some c => g ← filter_graph w; deref (filters g) c
            | None => g ← probe_graph nd; deref (filters g) pr
            end in
          match filter_ctx with
          | None => undefined
          | Some c =>
              e1 ← push_pads i 0 0 (input_pads c) (edge + 1);
              e2 ← push_pads i 1 0 (output_pads c) e1;
              draw_nodes fuel' ui (S i) e2
          end
        end
      end
    else mret edge
  end.

(** Lines 1146-1153: a link the editor reports as created. *)
Definition link_created (start_attr end_attr : Z) : M unit :=
  w ← get;
  match at_int (edge2type w) start_attr, at_int (edge2type w) end_attr with
  | Some first, Some second =>
      if decide (first.2 = second.2)
      then modify (set_filter_links (filter_links w ++ [(start_attr, end_attr)]))
      else mret tt
  | _, _ => undefined
  end.

Definition erase_link (i : Z) : M unit :=
  w ← get;
  match erase_at (filter_links w) i with
  | Some l => modify (set_filter_links l)
  | None => undefined
  end.

(** Lines 1166-1170. *)
Fixpoint erase_selected_links (sel : list Z) : M unit :=
  match sel with
  | [] => mret tt
  | edge_id :: sel' =>
      w ← get;
      if decide (length (filter_links w) = 0%nat) then mret tt
      else erase_link edge_id ;; erase_selected_links sel'
  end.

(** Lines 1179-1192. *)
Fixpoint release_selected_nodes (sel : list Z) : M unit :=
  match sel with
  | [] => mret tt
  | node_id :: sel' =>
      w ← get;
      match at_int (edge2pad w) node_id with
      | None => undefined
      | Some e =>
          match filter_nodes w !! node e with
          | None => undefined
          | Some nd =>
              modify (avfilter_free (node_ctx nd)) ;;
              update_node (node e) released_by_selection ;;
              release_selected_nodes sel'
          end
      end
  end.

(** Lines 1195-1201: from the last index down to 0, erase the nodes whose
    [filter] is NULL. *)
Fixpoint erase_released (i : nat) (l : list FilterNode) : list FilterNode :=
  let l' := match l !! i with
            | Some nd => if bool_decide (node_filter nd = None) then delete i l else l
            | None => l
            end in
  match i with
  | O => l'
  | S i' => erase_released i' l'
  end.

(** Lines 1139-1201: what follows [ImNodes::EndNodeEditor]. *)
Definition editor_events (ui : EditorUI) : M unit :=
  w ← get;
  if any_joinable w then mret tt
  else
    from_option (λ p, link_created p.1 p.2) (mret tt) (ed_link_created ui) ;;
    from_option erase_link (mret tt) (ed_link_destroyed ui) ;;
    (if bool_decide (0 < length (ed_selected_links ui))%nat && ed_key_X ui
     then erase_selected_links (ed_selected_links ui) else mret tt) ;;
    (if bool_decide (0 < length (ed_selected_nodes ui))%nat && ed_key_X ui
     then release_selected_nodes (ed_selected_nodes ui) else mret tt) ;;
    modify (λ w, if decide (0 < length (filter_nodes w))%nat
                 then set_filter_nodes
                        (erase_released (length (filter_nodes w) - 1) (filter_nodes w)) w
                 else w).

Definition show_filtergraph_editor (ui : EditorUI) : M unit :=
  if negb (ed_begin ui) then mret tt
  else
    modify (set_edge_tables [] []) ;;
    (if ed_ctrl_enter ui then modify (set_need_filters_reinit true) else mret tt) ;;
    from_option (λ f, modify (handle_nodeitem f)) (mret tt) (ed_menu_pick ui) ;;
    w ← get;
    draw_nodes (length (filter_nodes w)) ui 0 0 ;;
    editor_events ui.

(** ** The command window: [show_commands], selection and timeline toggle

    The statics of the function are a record of their own.  The Commands tree
    (lines 1253-1474) is not embedded: it reads and writes only the
    [opt_storage] of the selected node and sends commands named after the
    node's runtime options. *)

Record CommandsState := {
  selected_filter : Z;
  toggle_filter : Z;
  is_opened : bool
}.

Record CommandsUI := {
  cm_begin : bool;
  cm_list_box : bool;
  cm_pass_filter : string → bool;
  cm_selectable : nat → bool;
  cm_clicked_active : nat → bool;
  cm_tree_timeline : nat → bool;
  cm_button : nat → string → bool
}.

(** [avfilter_graph_send_command(filter_graph, target, cmd, arg, NULL, 0, 0)] *)
Record Command := { target : string; cmd : string; arg : string }.

(** The caption of the timeline button: [ctx->is_disabled ? "Enable" : "Disable"] *)
Definition toggle_caption (ctx : AVFilterContext) : string :=
  if is_disabled ctx then "Enable" else "Disable".

(** The body of the loop over [filter_nodes] (lines 1224-1485) for row [n]. *)
Definition command_row (ui : CommandsUI) (g : AVFilterGraph) (n : nat)
    (nd : FilterNode) (st : CommandsState) : option CommandsState :=
  match node_ctx nd with
  | None => Some st
  | Some p =>
    ctx ← deref (filters g) p;
    match ctx_filter ctx with
    | None => Some st
    | Some f =>
      if negb (cm_pass_filter ui (name f)) then Some st
      else
        let sel1 := if cm_selectable ui n then Z.of_nat n else selected_filter st in
        let sel2 := if cm_clicked_active ui n then Z.of_nat n else sel1 in
        let opened := if cm_clicked_active ui n then true else is_opened st in
        let tog :=
          if opened && (sel2 =? Z.of_nat n)
             && negb (Z.land (flags f) AVFILTER_FLAG_SUPPORT_TIMELINE =? 0)
             && cm_tree_timeline ui n
             && cm_button ui n (toggle_caption ctx)
          then Z.of_nat n else toggle_filter st in
        Some {| selected_filter := sel2; toggle_filter := tog; is_opened := opened |}
    end
  end.

Fixpoint command_rows (ui : CommandsUI) (g : AVFilterGraph) (n : nat)
    (nodes : list FilterNode) (st : CommandsState) : option CommandsState :=
  match nodes with
  | [] => Some st
  | nd :: nodes' => st' ← command_row ui g n nd st; command_rows ui g (S n) nodes' st'
  end.

(** Lines 1491-1497. *)
Definition send_toggle (g : AVFilterGraph) (st : CommandsState)
    : option (CommandsState * list Command) :=
  if toggle_filter st <? UINT_MAX then
    e ← at_int (filters g) (toggle_filter st);
    let filter_ctx := e.2 in
    let flag := negb (is_disabled filter_ctx) in
    Some ({| selected_filter := selected_filter st; toggle_filter := UINT_MAX;
             is_opened := is_opened st |},
          [{| target := ctx_name filter_ctx; cmd := "enable";
              arg := if flag then "0" else "1" |}])
  else Some (st, []).

(** [show_commands]: the statics after the call and the commands its last
    block sent; [None] where a pointer or an index has no target. *)
Definition show_commands (ui : CommandsUI) (w : World) (st : CommandsState)
    : option (CommandsState * list Command) :=
  match filter_graph w with
  | None => Some (st, [])
  | Some g =>
    if negb (bool_decide (length (buffer_sinks w) = mutexes w))
       || bool_decide (length (buffer_sinks w) = 0%nat)
    then Some (st, [])
    else if negb (cm_begin ui) then Some (st, [])
    else
      st1 ← (if cm_list_box ui then command_rows ui g 0 (filter_nodes w) st else Some st);
      send_toggle g st1
  end.

(** ** The option binding: one pass of the switch of [draw_node_options]
       (lines 694-921) over one option

    [float] and [double] are abstract; [f2d] and [d2f] are the conversions the
    assignments [value = fvalue] and [fvalue = value] perform. *)

Class FloatModel := {
  float : Type;
  double : Type;
  f2d : float → double;
  d2f : double → float
}.

Inductive AVOptionType :=
| AV_OPT_TYPE_FLAGS
| AV_OPT_TYPE_INT
| AV_OPT_TYPE_INT64
| AV_OPT_TYPE_DOUBLE
| AV_OPT_TYPE_FLOAT
| AV_OPT_TYPE_STRING
| AV_OPT_TYPE_RATIONAL
| AV_OPT_TYPE_BINARY
| AV_OPT_TYPE_DICT
| AV_OPT_TYPE_UINT64
| AV_OPT_TYPE_CONST
| AV_OPT_TYPE_IMAGE_SIZE
| AV_OPT_TYPE_PIXEL_FMT
| AV_OPT_TYPE_SAMPLE_FMT
| AV_OPT_TYPE_VIDEO_RATE
| AV_OPT_TYPE_DURATION
| AV_OPT_TYPE_COLOR
| AV_OPT_TYPE_BOOL
| AV_OPT_TYPE_CHLAYOUT.

Record AVOption `{FloatModel} := {
  opt_name : string;
  opt_help : string;
  opt_offset : Z;
  opt_type : AVOptionType;
  opt_min : double;
  opt_max : double;
  opt_flags : Z
}.

(** A number as [write_number] of libavutil receives it. *)
Inductive Number `{FloatModel} :=
| N_int (v : Z)
| N_double (d : double)
| N_q (r : AVRational).

(** What an option's storage holds. *)
Inductive Stored `{FloatModel} :=
| S_int (v : Z)
| S_float (v : float)
| S_double (v : double)
| S_string (s : option string)
| S_q (r : AVRational).

(** The range test of [write_number] against [min] and [max], which is
    double arithmetic inside the engine. *)
Class OptEngine `{FloatModel} := {
  write_number_ok : AVOption → Number → bool
}.

(** What a widget holds: the value it shows and, after an edit, the value
    the user entered. *)
Inductive WidgetValue `{FloatModel} :=
| V_int (v : Z)
| V_float (v : float)
| V_double (v : double)
| V_text (s : string)
| V_int2 (a b : Z).

(** A C string ends at its first NUL. *)
Fixpoint cstr (s : string) : string :=
  match s with
  | EmptyString => EmptyString
  | String c s' => if Ascii.eqb c Ascii.zero then EmptyString else String c (cstr s')
  end.

Definition INT_MIN : Z := - 2 ^ 31.
Definition INT_MAX : Z := 2 ^ 31 - 1.

Section OptionBinding.
Context `{FM : FloatModel} `{OE : !OptEngine}.

(** The object [av_class] ([probe_ctx->priv]): the storage of each option,
    by option name. *)
Abbreviation Obj := (gmap string Stored).

(** *** The engine's accessors, on the calls the binding makes

    These follow libavutil's [opt.c]: a setter tests the range with
    [write_number] (not for flags), then stores in the option's own type;
    a getter returns what is stored. *)

Definition av_opt_get_int (obj : Obj) (o : AVOption) : Z * Z :=
  match obj !! opt_name o with
  | Some (S_int v) => (0, v)
  | Some _ => (AVERROR EINVAL, 0)
  | None => (AVERROR_OPTION_NOT_FOUND, 0)
  end.

Definition av_opt_set_int (obj : Obj) (o : AVOption) (val : Z) : Z * Obj :=
  match obj !! opt_name o with
  | None => (AVERROR_OPTION_NOT_FOUND, obj)
  | Some _ =>
      match opt_type o with
      | AV_OPT_TYPE_FLAGS => (0, <[opt_name o := S_int (wrap32 val)]> obj)
      | AV_OPT_TYPE_INT | AV_OPT_TYPE_BOOL =>
          if write_number_ok o (N_int val)
          then (0, <[opt_name o := S_int (wrap32 val)]> obj)
          else (AVERROR ERANGE, obj)
      | AV_OPT_TYPE_INT64 | AV_OPT_TYPE_UINT64 =>
          if write_number_ok o (N_int val)
          then (0, <[opt_name o := S_int val]> obj)
          else (AVERROR ERANGE, obj)
      | _ => (AVERROR EINVAL, obj)
      end
  end.

Definition av_opt_get_double (obj : Obj) (o : AVOption) : Z * option double :=
  match obj !! opt_name o with
  | Some (S_float v) => (0, Some (f2d v))
  | Some (S_double v) => (0, Some v)
  | Some _ => (AVERROR EINVAL, None)
  | None => (AVERROR_OPTION_NOT_FOUND, None)
  end.

Definition av_opt_set_double (obj : Obj) (o : AVOption) (val : double) : Z * Obj :=
  match obj !! opt_name o with
  | None => (AVERROR_OPTION_NOT_FOUND, obj)
  | Some _ =>
      if write_number_ok o (N_double val) then
        match opt_type o with
        | AV_OPT_TYPE_FLOAT => (0, <[opt_name o := S_float (d2f val)]> obj)
        | AV_OPT_TYPE_DOUBLE => (0, <[opt_name o := S_double val]> obj)
        | _ => (AVERROR EINVAL, obj)
        end
      else (AVERROR ERANGE, obj)
  end.

(** [av_opt_get] on a string option: a copy of the string, the empty
    string for NULL. *)
Definition av_opt_get (obj : Obj) (o : AVOption) : Z * option string :=
  match obj !! opt_name o with
  | Some (S_string s) => (0, Some (default "" s))
  | Some _ => (AVERROR EINVAL, None)
  | None => (AVERROR_OPTION_NOT_FOUND, None)
  end.

Definition av_opt_set (obj : Obj) (o : AVOption) (val : string) : Z * Obj :=
  match obj !! opt_name o with
  | None => (AVERROR_OPTION_NOT_FOUND, obj)
  | Some _ =>
      match opt_type o with
      | AV_OPT_TYPE_STRING => (0, <[opt_name o := S_string (Some (cstr val))]> obj)
      | _ => (AVERROR EINVAL, obj)
      end
  end.

Definition av_opt_get_q (obj : Obj) (o : AVOption) : Z * option AVRational :=
  match obj !! opt_name o with
  | Some (S_q r) => (0, Some r)
  | Some _ => (AVERROR EINVAL, None)
  | None => (AVERROR_OPTION_NOT_FOUND, None)
  end.

Definition av_opt_set_q (obj : Obj) (o : AVOption) (val : AVRational) : Z * Obj :=
  match obj !! opt_name o with
  | None => (AVERROR_OPTION_NOT_FOUND, obj)
  | Some _ =>
      match opt_type o with
      | AV_OPT_TYPE_RATIONAL =>
          if write_number_ok o (N_q val)
          then (0, <[opt_name o := S_q val]> obj)
          else (AVERROR ERANGE, obj)
      | _ => (AVERROR EINVAL, obj)
      end
  end.

(** *** The cases of the switch

    [edit] is what the widget of this option reports in this frame: [None]
    when it returns false, [Some v] when it returns true with the value the
    user entered.  The result is the object after the case and the value
    the widget was given to show; it is [None] where the case is not
    embedded (durations, image sizes, video rates and colours) or a buffer
    is overrun. *)

Definition edited_int (edit : option WidgetValue) : option Z :=
  match edit with Some (V_int v) => Some v | _ => None end.

(** [AV_OPT_TYPE_INT], and [AV_OPT_TYPE_FLAGS]/[AV_OPT_TYPE_BOOL] whose
    case has the same statements. *)
Definition case_int (o : AVOption) (edit : option WidgetValue) (obj : Obj)
    : Obj * option WidgetValue :=
  let '(ret, value) := av_opt_get_int obj o in
  if negb (ret =? 0) then (obj, None)
  else
    let ivalue := wrap32 value in
    match edited_int edit with
    | Some v =>
        let ivalue' := wrap32 v in
        let value' := ivalue' in
        ((av_opt_set_int obj o value').2, Some (V_int ivalue))
    | None => (obj, Some (V_int ivalue))
    end.

Definition case_int64 (o : AVOption) (edit : option WidgetValue) (obj : Obj)
    : Obj * option WidgetValue :=
  let '(ret, value) := av_opt_get_int obj o in
  if negb (ret =? 0) then (obj, None)
  else
    match edited_int edit with
    | Some v => ((av_opt_set_int obj o v).2, Some (V_int value))
    | None => (obj, Some (V_int value))
    end.

(** [AV_OPT_TYPE_UINT64]: the widget edits [value], and [value = uvalue]
    then restores what was read. *)
Definition case_uint64 (o : AVOption) (edit : option WidgetValue) (obj : Obj)
    : Obj * option WidgetValue :=
  let '(ret, value) := av_opt_get_int obj o in
  if negb (ret =? 0) then (obj, None)
  else
    let uvalue := value in
    match edited_int edit with
    | Some v => ((av_opt_set_int obj o uvalue).2, Some (V_int value))
    | None => (obj, Some (V_int value))
    end.

Definition case_double (o : AVOption) (edit : option WidgetValue) (obj : Obj)
    : Obj * option WidgetValue :=
  match av_opt_get_double obj o with
  | (0, Some value) =>
      match edit with
      | Some (V_double v) => ((av_opt_set_double obj o v).2, Some (V_double value))
      | _ => (obj, Some (V_double value))
      end
  | _ => (obj, None)
  end.

Definition case_float (o : AVOption) (edit : option WidgetValue) (obj : Obj)
    : Obj * option WidgetValue :=
  match av_opt_get_double obj o with
  | (0, Some value) =>
      let fvalue := d2f value in
      match edit with
      | Some (V_float v) =>
          let value' := f2d v in
          ((av_opt_set_double obj o value').2, Some (V_float fvalue))
      | _ => (obj, Some (V_float fvalue))
      end
  | _ => (obj, None)
  end.

(** [AV_OPT_TYPE_STRING]: [new_str] has 1024 bytes, the string read is
    copied into it without a length test, and [ImGui::InputText] leaves at
    most 1023 characters in it. *)
Definition case_string (o : AVOption) (edit : option WidgetValue) (obj : Obj)
    : option (Obj * option WidgetValue) :=
  match av_opt_get obj o with
  | (0, Some str) =>
      if bool_decide (String.length str < 1024)%nat then
        match edit with
        | Some (V_text t) =>
            let new_str := String.substring 0 1023 t in
            Some ((av_opt_set obj o new_str).2, Some (V_text str))
        | _ => Some (obj, Some (V_text str))
        end
      else None
  | _ => Some (obj, None)
  end.

(** [AV_OPT_TYPE_RATIONAL]: the result of [av_opt_get_q] is not tested,
    [rate] stays 0/0 when it fails. *)
Definition case_rational (o : AVOption) (edit : option WidgetValue) (obj : Obj)
    : Obj * option WidgetValue :=
  let rate := default {| num := 0; den := 0 |} (av_opt_get_q obj o).2 in
  let irate := V_int2 (num rate) (den rate) in
  match edit with
  | Some (V_int2 a b) =>
      let rate' := {| num := wrap32 a; den := wrap32 b |} in
      ((av_opt_set_q obj o rate').2, Some irate)
  | _ => (obj, Some irate)
  end.

Definition draw_option (o : AVOption) (edit : option WidgetValue) (obj : Obj)
    : option (Obj * option WidgetValue) :=
  match opt_type o with
  | AV_OPT_TYPE_INT64 => Some (case_int64 o edit obj)
  | AV_OPT_TYPE_UINT64 => Some (case_uint64 o edit obj)
  | AV_OPT_TYPE_FLAGS | AV_OPT_TYPE_BOOL => Some (case_int o edit obj)
  | AV_OPT_TYPE_INT => Some (case_int o edit obj)
  | AV_OPT_TYPE_DOUBLE => Some (case_double o edit obj)
  | AV_OPT_TYPE_FLOAT => Some (case_float o edit obj)
  | AV_OPT_TYPE_STRING => case_string o edit obj
  | AV_OPT_TYPE_RATIONAL => Some (case_rational o edit obj)
  | AV_OPT_TYPE_BINARY | AV_OPT_TYPE_DICT | AV_OPT_TYPE_PIXEL_FMT
  | AV_OPT_TYPE_SAMPLE_FMT | AV_OPT_TYPE_CHLAYOUT | AV_OPT_TYPE_CONST => Some (obj, None)
  | AV_OPT_TYPE_DURATION | AV_OPT_TYPE_IMAGE_SIZE | AV_OPT_TYPE_VIDEO_RATE
  | AV_OPT_TYPE_COLOR => None
  end.


(** The option is a member of the object, stored in its own type (and a
    string short enough for [new_str]). *)
Definition bound (obj : Obj) (o : AVOption) : Prop :=
  match opt_type o, obj !! opt_name o with
  | (AV_OPT_TYPE_INT | AV_OPT_TYPE_BOOL | AV_OPT_TYPE_FLAGS), Some (S_int _) => True
  | AV_OPT_TYPE_FLOAT, Some (S_float _) => True
  | AV_OPT_TYPE_DOUBLE, Some (S_double _) => True
  | AV_OPT_TYPE_STRING, Some (S_string s) => (String.length (default "" s) < 1024)%nat
  | AV_OPT_TYPE_RATIONAL, Some (S_q _) => True
  | _, _ => False
  end.

(** [v] is a value of the option's kind, within what the widget's variable
    can hold and within the option's range. *)
Definition in_range (o : AVOption) (v : WidgetValue) : Prop :=
  match opt_type o, v with
  | (AV_OPT_TYPE_INT | AV_OPT_TYPE_BOOL), V_int z =>
      INT_MIN ≤ z ≤ INT_MAX ∧ write_number_ok o (N_int z) = true
  | AV_OPT_TYPE_FLAGS, V_int z => INT_MIN ≤ z ≤ INT_MAX
  | AV_OPT_TYPE_FLOAT, V_float f => write_number_ok o (N_double (f2d f)) = true
  | AV_OPT_TYPE_DOUBLE, V_double d => write_number_ok o (N_double d) = true
  | AV_OPT_TYPE_STRING, V_text s => (String.length s < 1024)%nat ∧ cstr s = s
  | AV_OPT_TYPE_RATIONAL, V_int2 a b =>
      INT_MIN ≤ a ≤ INT_MAX ∧ INT_MIN ≤ b ≤ INT_MAX
      ∧ write_number_ok o (N_q {| num := a; den := b |}) = true
  | _, _ => False
  end.
End OptionBinding.

(** ** Sample graphs, used to run the embedded functions *)

Definition buffersink : AVFilter :=
  {| name := "buffersink"; description := "Buffer video frames.";
     inputs := [AVMEDIA_TYPE_VIDEO]; outputs := []; flags := 0;
     process_command := false |}.

Definition testsrc : AVFilter :=
  {| name := "testsrc"; description := "Generate test pattern.";
     inputs := []; outputs := [AVMEDIA_TYPE_VIDEO]; flags := 0;
     process_command := false |}.

Definition hue : AVFilter :=
  {| name := "hue"; description := "Adjust the hue and saturation.";
     inputs := [AVMEDIA_TYPE_VIDEO]; outputs := [AVMEDIA_TYPE_VIDEO];
     flags := AVFILTER_FLAG_SUPPORT_TIMELINE_GENERIC; process_command := true |}.

(** The globals as [main] finds them at start-up. *)
Definition initial_world : World :=
  {| show_buffersink_window := true; show_dumpgraph_window := true;
     need_filters_reinit := true; framestep := false; paused := true;
     filter_graph := None; graphdump_text := None; buffer_sinks := [];
     mutexes := 0%nat; video_sink_threads := []; filter_nodes := [];
     filter_links := []; edge2type := []; edge2pad := []; next_alloc := 0%nat |}.

(** An engine that accepts everything. *)
Definition engine_ok : Engine :=
  {| avfilter_graph_alloc := true;
     avfilter_graph_alloc_filter := λ _, true;
     av_opt_set_int_list := λ _, 0;
     av_opt_serialize_ctx := λ _, (0, Some "");
     av_opt_serialize_priv := λ _, (0, Some "");
     av_opt_set_from_string_ctx := λ _, 0;
     av_opt_set_from_string_priv := λ _, 0;
     avfilter_init_str := λ _, 0;
     avfilter_link := λ _, 0;
     avfilter_graph_config := 0;
     avfilter_graph_config_inserted := [];
     avfilter_graph_dump := Some "testsrc0 -> buffersink1";
     av_buffersink_get_time_base := λ _, {| num := 1; den := 25 |};
     av_buffersink_get_frame_rate := λ _, {| num := 25; den := 1 |} |}.

(** An engine whose [avfilter_graph_config] rejects the graph, as it does
    for a graph with an unconnected pad. *)
Definition engine_config_fails : Engine :=
  {| avfilter_graph_alloc := true;
     avfilter_graph_alloc_filter := λ _, true;
     av_opt_set_int_list := λ _, 0;
     av_opt_serialize_ctx := λ _, (0, Some "");
     av_opt_serialize_priv := λ _, (0, Some "");
     av_opt_set_from_string_ctx := λ _, 0;
     av_opt_set_from_string_priv := λ _, 0;
     avfilter_init_str := λ _, 0;
     avfilter_link := λ _, 0;
     avfilter_graph_config := AVERROR EINVAL;
     avfilter_graph_config_inserted := [];
     avfilter_graph_dump := None;
     av_buffersink_get_time_base := λ _, {| num := 1; den := 25 |};
     av_buffersink_get_frame_rate := λ _, {| num := 25; den := 1 |} |}.

Definition quiet_node_ui : NodeUI :=
  {| probe_graph_alloc := true; probe_alloc := true; btn_options := false;
     btn_close := false; btn_remove := false; list_box := false |}.

(** A frame of the editor in which the user does nothing. *)
Definition quiet_editor_ui : EditorUI :=
  {| ed_begin := true; ed_ctrl_enter := false; ed_menu_pick := None;
     ed_node := λ _, quiet_node_ui; ed_link_created := None;
     ed_link_destroyed := None; ed_key_X := false;
     ed_selected_links := []; ed_selected_nodes := [] |}.

(** The user picks [f] in the Add Filter menu and presses Ctrl+Enter. *)
Definition add_and_commit (f : AVFilter) : EditorUI :=
  {| ed_begin := true; ed_ctrl_enter := true; ed_menu_pick := Some f;
     ed_node := λ _, quiet_node_ui; ed_link_created := None;
     ed_link_destroyed := None; ed_key_X := false;
     ed_selected_links := []; ed_selected_nodes := [] |}.

(** The user presses Ctrl+Enter. *)
Definition commit : EditorUI :=
  {| ed_begin := true; ed_ctrl_enter := true; ed_menu_pick := None;
     ed_node := λ _, quiet_node_ui; ed_link_created := None;
     ed_link_destroyed := None; ed_key_X := false;
     ed_selected_links := []; ed_selected_nodes := [] |}.

(** The user draws a link from slot [s] to slot [e]; nothing else happens in
    the frame. *)
Definition draw_link (s e : Z) : EditorUI :=
  {| ed_begin := true; ed_ctrl_enter := false; ed_menu_pick := None;
     ed_node := λ _, quiet_node_ui; ed_link_created := Some (s, e);
     ed_link_destroyed := None; ed_key_X := false;
     ed_selected_links := []; ed_selected_nodes := [] |}.

(** The user selects the nodes of these slots and releases X. *)
Definition delete_nodes (slots : list Z) : EditorUI :=
  {| ed_begin := true; ed_ctrl_enter := false; ed_menu_pick := None;
     ed_node := λ _, quiet_node_ui; ed_link_created := None;
     ed_link_destroyed := None; ed_key_X := true;
     ed_selected_links := []; ed_selected_nodes := slots |}.

(** The user opens the options of a node and presses Remove. *)
Definition press_remove : NodeUI :=
  {| probe_graph_alloc := true; probe_alloc := true; btn_options := true;
     btn_close := false; btn_remove := true; list_box := true |}.


(** The sink window has the focus and the user presses Shift+Q. *)
Definition press_shift_Q : FrameUI :=
  {| ui_begin := true; ui_close := false; ui_focused := true; key_F := false;
     key_Space := false; key_Period := false; key_shift_Q := true; key_O := false |}.

(** The sink window has the focus and the user releases Space. *)
Definition press_space : FrameUI :=
  {| ui_begin := true; ui_close := false; ui_focused := true; key_F := false;
     key_Space := true; key_Period := false; key_shift_Q := false; key_O := false |}.

Definition commands_start : CommandsState :=
  {| selected_filter := UINT_MAX; toggle_filter := UINT_MAX; is_opened := false |}.

(** The user clicks the row of node [n], opens its Timeline tree and
    presses the button, whatever its caption. *)
Definition click_toggle (n : nat) : CommandsUI :=
  {| cm_begin := true; cm_list_box := true; cm_pass_filter := λ _, true;
     cm_selectable := λ i, bool_decide (i = n);
     cm_clicked_active := λ i, bool_decide (i = n);
     cm_tree_timeline := λ i, bool_decide (i = n);
     cm_button := λ i _, bool_decide (i = n) |}.

Definition world_of (m : M unit) (w : World) : World := (m w).1.2.

(** [testsrc0] and [buffersink1], drawn by the editor: slot 0 is the source,
    slot 1 its output, slot 2 the sink, slot 3 its input. *)
Definition two_nodes : World :=
  Eval vm_compute in
    world_of (show_filtergraph_editor quiet_editor_ui)
      (handle_nodeitem buffersink (handle_nodeitem testsrc initial_world)).

(** [testsrc0 -> buffersink1]. *)
Definition linked_world : World :=
  Eval vm_compute in world_of (editor_events (draw_link 1 3)) two_nodes.

(** The same graph after a successful rebuild: one sink, one thread. *)
Definition running_world : World :=
  Eval vm_compute in (filters_setup engine_ok linked_world).1.2.

(** Ctrl+Enter while that thread runs. *)
Definition rebuild_requested : World :=
  Eval vm_compute in set_need_filters_reinit true running_world.


(** [testsrc0 -> buffersink1] after the sink was deleted, redrawn by the
    editor on the next frame, with Ctrl+Enter. *)
Definition sink_deleted : World :=
  Eval vm_compute in
    world_of (show_filtergraph_editor commit)
      (world_of (editor_events (delete_nodes [2])) linked_world).

(** The first frame of [main]: nothing to build, the flag is cleared. *)
Definition idle_world : World :=
  Eval vm_compute in (filters_setup engine_ok initial_world).1.2.

(** A single [buffersink] node with nothing connected to it, and
    Ctrl+Enter. *)
Definition lone_sink : World :=
  Eval vm_compute in
    world_of (show_filtergraph_editor (add_and_commit buffersink)) idle_world.

(** [testsrc0 -> hue1 -> buffersink2] as the editor holds it before the
    rebuild.  Slots: 0 source, 1 its output, 2 hue, 3 its input, 4 its
    output, 5 sink, 6 its input. *)
Definition hue_edited : World :=
  Eval vm_compute in
    world_of (editor_events (draw_link 4 6))
      (world_of (editor_events (draw_link 1 3))
         (world_of (show_filtergraph_editor quiet_editor_ui)
            (handle_nodeitem buffersink
               (handle_nodeitem hue (handle_nodeitem testsrc initial_world))))).


Definition started_sink : BufferSink :=
  start_sink engine_ok 0%nat 4%nat 5%nat 6%nat (new_sink 3%nat).

(** The stream has ended and nobody asks for a rebuild. *)
Definition env_eof : Env :=
  {| env_reinit := λ _, false; env_paused := λ _, false;
     env_swapped := λ _, false; env_pull := λ _, AVERROR_EOF |}.

(** The stream has ended, and a rebuild is requested during the first
    iteration. *)
Definition env_eof_then_rebuild : Env :=
  {| env_reinit := λ k, bool_decide (k = 1%nat); env_paused := λ _, true;
     env_swapped := λ _, false; env_pull := λ _, AVERROR_EOF |}.

(** A small model of the two floating-point types, for running the option
    binding: a [double] counts halves, a [float] counts units, so that
    widening is exact and narrowing rounds. *)
Definition half_units : FloatModel :=
  {| float := Z; double := Z; f2d := λ x, 2 * x; d2f := λ d, d / 2 |}.

(** An engine that tests numbers against [min] and [max] in that model. *)
Definition half_units_engine : @OptEngine half_units :=
  {| write_number_ok := λ o n,
       let lo : Z := @opt_min half_units o in
       let hi : Z := @opt_max half_units o in
       match n with
       | N_int v => (lo <=? 2 * v) && (2 * v <=? hi)
       | N_double d => (lo <=? d) && (d <=? hi)
       | N_q r => (0 <? den r) && (lo * den r <=? 2 * num r) && (2 * num r <=? hi * den r)
       end |}.

(** The option [h] of the [hue] filter: an angle in degrees. *)
Definition hue_h : @AVOption half_units :=
  @Build_AVOption half_units "h" "set the hue angle degrees" 16 AV_OPT_TYPE_FLOAT
    (-720) 720 0.

(** The private object of a [hue] probe: [h] is 0. *)
Definition hue_priv : gmap string (@Stored half_units) :=
  {[ "h" := @S_float half_units 0 ]}.

(** The user drags [h] to 90 degrees. *)
Definition hue_h_90 : @WidgetValue half_units := @V_float half_units 90.

(** ** Vocabulary of the properties *)

(** The effects that discard the previous engine instance or the previous
    outputs: [buffer_sinks.clear()], [mutexes.clear()],
    [av_freep(&graphdump_text)] and [avfilter_graph_free]. *)
Definition tears_down (e : Event) : bool :=
  match e with
  | EvSinksClear | EvMutexesClear | EvDumpFree | EvGraphFree => true
  | _ => false
  end.




(** The kinds of the nodes, in node order; [filters_setup] never writes
    them. *)
Definition kinds (w : World) : list (option AVFilter) := node_filter <$> filter_nodes w.



(** C3 as the specification words it: in the events of a producer thread,
    no pull follows a pull that failed with an error other than EAGAIN. *)
Definition stops_after_failed_pull (t : list WorkerEvent) : Prop :=
  ∀ pre ret post, t = pre ++ WPull ret :: post → terminal ret = true →
    ∀ ret', WPull ret' ∉ post.

(** C5 as the specification words it: a link the editor reports as created
    between slots [s] and [e] is appended exactly when the two slots have
    the same media kind. *)
Definition link_rule (ui : EditorUI) (w : World) : Prop :=
  ∀ s e t1 t2, ed_link_created ui = Some (s, e) →
    at_int (edge2type w) s = Some t1 → at_int (edge2type w) e = Some t2 →
    (t1.2 = t2.2 ↔
     filter_links (world_of (editor_events ui) w) = filter_links w ++ [(s, e)]).

Definition with_remove (b : bool) (ui : NodeUI) : NodeUI :=
  {| probe_graph_alloc := probe_graph_alloc ui; probe_alloc := probe_alloc ui;
     btn_options := btn_options ui; btn_close := btn_close ui;
     btn_remove := b; list_box := list_box ui |}.

(** A link names a slot that the edge table maps to node [n]. *)
Definition refers_to (tbl : list Edge2Pad) (n : nat) (l : Z * Z) : Prop :=
  (node <$> at_int tbl l.1) = Some n ∨ (node <$> at_int tbl l.2) = Some n.

(** C7 as the specification words it, for the deletion of the nodes of the
    selected slots: afterwards no persisted link refers to a removed node. *)
Definition no_dangling_link (slots : list Z) (w : World) : Prop :=
  ∀ slot n l, slot ∈ slots → (node <$> at_int (edge2pad w) slot) = Some n →
    l ∈ filter_links (world_of (editor_events (delete_nodes slots)) w) →
    ¬ refers_to (edge2pad w) n l.




(** ** Vocabulary of the proofs *)

(** The context of every node sits at the node's index in the graph's
    array, which is where [show_commands] looks it up. *)
Definition aligned (w : World) : Prop :=
  ∃ g, filter_graph w = Some g
    ∧ ∀ n nd, filter_nodes w !! n = Some nd →
        ∃ p c, node_ctx nd = Some p ∧ filters g !! n = Some (p, c).

(** The same for the first [i] nodes, with nothing else in the graph yet. *)
Definition aligned_upto (i : nat) (w : World) : Prop :=
  ∃ g, filter_graph w = Some g ∧ length (filters g) = i
    ∧ ∀ j, (j < i)%nat →
        ∃ p c, filters g !! j = Some (p, c)
          ∧ (node_ctx <$> filter_nodes w) !! j = Some (Some p).

(** A computation whose events all satisfy [P], from any state. *)
Definition emits {A} (P : Event → Prop) (m : M A) : Prop :=
  ∀ w, Forall P (m w).2.

(** An event of the build or of the start of the new threads. *)
Definition after_barrier (e : Event) : Prop :=
  match e with EvJoin _ | EvThreadsClear => False | _ => True end.


(** The node still has a kind: [filter] is not NULL. *)
Definition has_filter (nd : FilterNode) : Prop := node_filter nd ≠ None.

#[local] Instance has_filter_dec (nd : FilterNode) : Decision (has_filter nd).
Proof. unfold has_filter. destruct (node_filter nd); [left|right]; naive_solver. Defined.

(** One step of the erase loop of lines 1195-1201, at index [i]. *)
Definition erase_step (i : nat) (l : list FilterNode) : list FilterNode :=
  match l !! i with
  | Some nd => if bool_decide (node_filter nd = None) then delete i l else l
  | None => l
  end.

(** ** The kinds of filters offered by the Add Filter menu (lines 500-609)

    [avfilter_filter_pad_count(filter, is_output)] is the number of static
    pads; [avfilter_pad_get_type(pads, i)] reads [pads[i].type], which has no
    value when the array has no pad [i]. *)

Definition AVFILTER_FLAG_DYNAMIC_INPUTS : Z := 1.
Definition AVFILTER_FLAG_DYNAMIC_OUTPUTS : Z := 2.

Definition avfilter_filter_pad_count (f : AVFilter) (is_output : bool) : nat :=
  if is_output then length (outputs f) else length (inputs f).

Definition avfilter_pad_get_type (pads : list AVMediaType) (pad_idx : nat)
    : option AVMediaType :=
  pads !! pad_idx.

(** [filter->flags & flag], as a truth value. *)
Definition has_flag (f : AVFilter) (flag : Z) : bool :=
  negb (Z.land (flags f) flag =? 0).

Definition is_simple_filter (f : AVFilter) : bool :=
  bool_decide (avfilter_filter_pad_count f false = 1%nat)
  && bool_decide (avfilter_filter_pad_count f true = 1%nat).

(** The two typed tests of a simple filter (lines 508-526).  Both operands
    of [&&] after the first read [filter->inputs]: pad 0, then pad 1. *)
Definition is_simple_typed (t : AVMediaType) (f : AVFilter) : option bool :=
  if is_simple_filter f then
    t0 ← avfilter_pad_get_type (inputs f) 0;
    if bool_decide (t0 = t) then
      t1 ← avfilter_pad_get_type (inputs f) 1;
      Some (bool_decide (t1 = t))
    else Some false
  else Some false.

Definition is_simple_audio_filter : AVFilter → option bool :=
  is_simple_typed AVMEDIA_TYPE_AUDIO.

Definition is_simple_video_filter : AVFilter → option bool :=
  is_simple_typed AVMEDIA_TYPE_VIDEO.

Definition is_source_filter (f : AVFilter) : bool :=
  if (bool_decide (0 < avfilter_filter_pad_count f false)%nat
      || has_flag f AVFILTER_FLAG_DYNAMIC_INPUTS)
     || (bool_decide (avfilter_filter_pad_count f true = 0%nat)
         && negb (has_flag f AVFILTER_FLAG_DYNAMIC_OUTPUTS))
  then false else true.

Definition is_sink_filter (f : AVFilter) : bool :=
  if (bool_decide (0 < avfilter_filter_pad_count f false)%nat
      || has_flag f AVFILTER_FLAG_DYNAMIC_INPUTS)
     && (bool_decide (avfilter_filter_pad_count f true = 0%nat)
         && negb (has_flag f AVFILTER_FLAG_DYNAMIC_OUTPUTS))
  then true else false.

(** [for (i = 0; i < count; i++) if (type(pads, i) != t) return false;
    return true;] over the [count] pads of the array. *)
Fixpoint every_pad (t : AVMediaType) (pads : list AVMediaType) : bool :=
  match pads with
  | [] => true
  | x :: pads' => if bool_decide (x ≠ t) then false else every_pad t pads'
  end.

Definition is_source_audio_filter (f : AVFilter) : bool :=
  if is_source_filter f then every_pad AVMEDIA_TYPE_AUDIO (outputs f) else false.

Definition is_source_video_filter (f : AVFilter) : bool :=
  if is_source_filter f then every_pad AVMEDIA_TYPE_VIDEO (outputs f) else false.

Definition is_sink_audio_filter (f : AVFilter) : bool :=
  if is_sink_filter f then every_pad AVMEDIA_TYPE_AUDIO (inputs f) else false.

Definition is_sink_video_filter (f : AVFilter) : bool :=
  if is_sink_filter f then every_pad AVMEDIA_TYPE_VIDEO (inputs f) else false.

Definition is_complex_filter (f : AVFilter) : bool :=
  if negb (is_sink_filter f) && negb (is_source_filter f)
     && negb (is_simple_filter f)
  then true else false.

(** The submenus of the Add Filter popup (lines 956-1049), in the order of
    the source, each with the test that admits a filter to it. *)
Inductive Menu :=
| VideoSourceFilters
| AudioSourceFilters
| SimpleVideoFilters
| SimpleAudioFilters
| ComplexFilters
| VideoSinkFilters
| AudioSinkFilters.

Definition menu_test (m : Menu) (f : AVFilter) : option bool :=
  match m with
  | VideoSourceFilters => Some (is_source_video_filter f)
  | AudioSourceFilters => Some (is_source_audio_filter f)
  | SimpleVideoFilters => is_simple_video_filter f
  | SimpleAudioFilters => is_simple_audio_filter f
  | ComplexFilters => Some (is_complex_filter f)
  | VideoSinkFilters => Some (is_sink_video_filter f)
  | AudioSinkFilters => Some (is_sink_audio_filter f)
  end.

(** The loop [while ((filter = av_filter_iterate(&iterator)))] of one
    submenu: the filters of the registry that pass the test, in registry
    order. *)
Fixpoint menu_items (m : Menu) (registry : list AVFilter) : option (list AVFilter) :=
  match registry with
  | [] => Some []
  | f :: registry' =>
      b ← menu_test m f;
      rest ← menu_items m registry';
      Some (if (b : bool) then f :: rest else rest)
  end.
(** ** Vocabulary of the further properties *)

(** A property of the state that a computation does not break, whatever its
    outcome. *)
Definition keeps {A} (I : World → Prop) (m : M A) : Prop :=
  ∀ w, I w → I (m w).1.2.

(** From a state in [P], a computation that falls through does so with a
    value and a state in [Q]. *)
Definition triple {A} (P : World → Prop) (m : M A) (Q : A → World → Prop) : Prop :=
  ∀ w a w' t, P w → m w = (Normal a, w', t) → Q a w'.

(** The slot tables as the editor leaves them: [edge] slots so far, the
    same number in both tables, and the slot of id [k] at index [k]. *)
Definition tables_indexed (edge : Z) (w : World) : Prop :=
  Z.of_nat (length (edge2type w)) = edge
  ∧ length (edge2pad w) = length (edge2type w)
  ∧ ∀ k x, edge2type w !! k = Some x → x.1 = Z.of_nat k.

(** Every node's [id] is its index in [filter_nodes]. *)
Definition ids_are_indices (nodes : list FilterNode) : Prop :=
  ∀ i nd, nodes !! i = Some nd → node_id nd = Z.of_nat i.

(** What the node options and the event handling of the editor leave alone:
    everything but the nodes, the links, the engine instance and the
    allocator. *)
Definition editor_frame (w w' : World) : Prop :=
  edge2type w' = edge2type w ∧ edge2pad w' = edge2pad w
  ∧ video_sink_threads w' = video_sink_threads w
  ∧ buffer_sinks w' = buffer_sinks w ∧ mutexes w' = mutexes w
  ∧ need_filters_reinit w' = need_filters_reinit w
  ∧ show_buffersink_window w' = show_buffersink_window w
  ∧ show_dumpgraph_window w' = show_dumpgraph_window w
  ∧ graphdump_text w' = graphdump_text w
  ∧ paused w' = paused w ∧ framestep w' = framestep w.

(** [testsrc0 -> hue1 -> buffersink2] after the source was deleted and the
    editor drew the next frame: [hue1] is at index 0 and [buffersink2] at
    index 1. *)
Definition source_deleted : World :=
  Eval vm_compute in
    world_of (show_filtergraph_editor quiet_editor_ui)
      (world_of (editor_events (delete_nodes [0])) hue_edited).

(** No node is half deleted: every node has its [filter]. *)
Definition all_have_filter (w : World) : Prop := Forall has_filter (filter_nodes w).

(** What a frame of the editor leaves alone: the threads, the outputs and
    their mutexes, the window flags, the dump and the pause state. *)
Definition outputs_frame (w w' : World) : Prop :=
  video_sink_threads w' = video_sink_threads w
  ∧ buffer_sinks w' = buffer_sinks w ∧ mutexes w' = mutexes w
  ∧ show_buffersink_window w' = show_buffersink_window w
  ∧ show_dumpgraph_window w' = show_dumpgraph_window w
  ∧ graphdump_text w' = graphdump_text w
  ∧ paused w' = paused w ∧ framestep w' = framestep w.

(** [testsrc0 -> buffersink1] in the frame in which the sink is deleted. *)
Definition sink_removed : World :=
  Eval vm_compute in world_of (show_filtergraph_editor (delete_nodes [2])) linked_world.

(** [hue_edited] with a third link, a second one from slot 1 to slot 3. *)
Definition three_links : World :=
  Eval vm_compute in world_of (editor_events (draw_link 1 3)) hue_edited.

(** The discipline of a mutex over the events of a producer thread: locked
    only when free and unlocked only when held; the flag and the buffers are
    written with the mutex held, and the engine is called without it.  The
    value is whether the mutex is held after the events, or [None] where an
    event breaks the discipline. *)
Fixpoint mutex_ok (held : bool) (t : list WorkerEvent) : option bool :=
  match t with
  | [] => Some held
  | e :: t' =>
      match e with
      | WLock => if held then None else mutex_ok true t'
      | WUnlock => if held then mutex_ok false t' else None
      | WPublish | WFree => if held then mutex_ok held t' else None
      | WUnref | WPull _ | WSleep => if held then None else mutex_ok held t'
      end
  end.

Definition is_pull (e : WorkerEvent) : bool :=
  match e with WPull _ => true | _ => false end.

(** The number of calls of [av_buffersink_get_frame_flags] among the
    events. *)
Fixpoint pulls (t : list WorkerEvent) : nat :=
  match t with
  | [] => O
  | e :: t' => ((if is_pull e then 1 else 0) + pulls t')%nat
  end.

(** A request for a rebuild comes while the sink is paused. *)
Definition env_rebuild_at (n : nat) : Env :=
  {| env_reinit := λ k, bool_decide (k = n); env_paused := λ _, true;
     env_swapped := λ _, false; env_pull := λ _, 0 |}.

Definition is_publish (e : WorkerEvent) : bool :=
  match e with WPublish => true | _ => false end.

(** The number of frames published among the events. *)
Fixpoint publishes (t : list WorkerEvent) : nat :=
  match t with
  | [] => O
  | e :: t' => ((if is_publish e then 1 else 0) + publishes t')%nat
  end.

(** The number of tests of the outer loop, out of the [n] from the [k]-th
    on, before which the render loop had swapped the buffers. *)
Fixpoint swaps_seen (env : Env) (k n : nat) : nat :=
  match n with
  | O => O
  | S n' => ((if env_swapped env k then 1 else 0) + swaps_seen env (S k) n')%nat
  end.

(** From a state in [P], a computation that falls through does so in [Qn],
    and one that jumps to [error:] does so in [Qe]. *)
Definition hoare {A} (P : World → Prop) (m : M A)
    (Qn : A → World → Prop) (Qe : Z → World → Prop) : Prop :=
  ∀ w, P w → match m w with
             | (Normal a, w', _) => Qn a w'
             | (GotoError r, w', _) => Qe r w'
             | (Undefined, _, _) => True
             end.

(** What the loops of [filters_setup] over the nodes, the links and the
    outputs leave alone: everything but the outputs, their threads, the
    engine instance, the allocator and the handles and option strings of
    the nodes. *)
Definition loop_frame (w w' : World) : Prop :=
  show_buffersink_window w' = show_buffersink_window w
  ∧ show_dumpgraph_window w' = show_dumpgraph_window w
  ∧ need_filters_reinit w' = need_filters_reinit w
  ∧ framestep w' = framestep w ∧ paused w' = paused w
  ∧ graphdump_text w' = graphdump_text w ∧ mutexes w' = mutexes w
  ∧ filter_links w' = filter_links w
  ∧ edge2type w' = edge2type w ∧ edge2pad w' = edge2pad w
  ∧ kinds w' = kinds w.

(** [show_dumpgraph]: the text the window shows, if it shows any. *)
Definition show_dumpgraph (ui_begin : bool) (w : World) : option string :=
  match graphdump_text w, filter_graph w with
  | Some text, Some _ => if ui_begin then Some text else None
  | _, _ => None
  end.

(** What a rebuild leaves alone on every path: the request flag apart, the
    state of the user interface and the kinds of the nodes. *)
Definition rebuild_frame (w w' : World) : Prop :=
  framestep w' = framestep w ∧ paused w' = paused w
  ∧ filter_links w' = filter_links w
  ∧ edge2type w' = edge2type w ∧ edge2pad w' = edge2pad w
  ∧ kinds w' = kinds w.





(** ** One iteration of the main loop ([main], lines 1574-1642)

    [show_commands_window] and [show_filtergraph_editor_window] start true
    and are written by ImGui alone, through the [p_open] argument of
    [ImGui::Begin]; whether the two windows are shown in a frame is
    therefore an input of the frame, like the widgets' answers.  The same
    close button may clear [show_dumpgraph_window]. *)

Record FrameInput := {
  in_engine : Engine;
  in_sinks : nat → FrameUI;
  in_published : nat → bool;
  in_show_commands : bool;
  in_commands : CommandsUI;
  in_dump_close : bool;
  in_show_editor : bool;
  in_editor : EditorUI
}.

Definition set_show_dumpgraph_window (b : bool) (w : World) : World :=
  {| show_buffersink_window := show_buffersink_window w; show_dumpgraph_window := b;
     need_filters_reinit := need_filters_reinit w; framestep := framestep w;
     paused := paused w; filter_graph := filter_graph w;
     graphdump_text := graphdump_text w; buffer_sinks := buffer_sinks w;
     mutexes := mutexes w; video_sink_threads := video_sink_threads w;
     filter_nodes := filter_nodes w; filter_links := filter_links w;
     edge2type := edge2type w; edge2pad := edge2pad w; next_alloc := next_alloc w |}.

(** [if (show_dumpgraph_window) show_dumpgraph(&show_dumpgraph_window);]
    with what the call does to its [p_open]. *)
Definition dumpgraph_window (close : bool) (w : World) : World :=
  if show_dumpgraph_window w
     && bool_decide (is_Some (graphdump_text w)) && bool_decide (is_Some (filter_graph w))
     && close
  then set_show_dumpgraph_window false w
  else w.

(** The frame from the call of [filters_setup] on (lines 1597-1630). *)
Definition frame_body (inp : FrameInput) (st : CommandsState) (w1 : World)
    : option (World * CommandsState * list Command) :=
  match filters_setup (in_engine inp) w1 with
  | (Return _, w2, _) =>
    let w3 := (render_sinks (in_sinks inp) (in_published inp) w2).1 in
    r ← (if in_show_commands inp then show_commands (in_commands inp) w3 st
         else Some (st, []));
    let w4 := dumpgraph_window (in_dump_close inp) w3 in
    if in_show_editor inp then
      match show_filtergraph_editor (in_editor inp) w4 with
      | (Normal _, w5, _) => Some (w5, r.1, r.2)
      | _ => None
      end
    else Some (w4, r.1, r.2)
  | (Crash, _, _) => None
  end.

(** The frame: the state of the globals and of the statics of
    [show_commands] after it, with the commands sent.  [None] where the
    frame runs into undefined behaviour. *)
Definition main_frame (inp : FrameInput) (st : CommandsState) (w : World)
    : option (World * CommandsState * list Command) :=
  match drain_on_close w with
  | (Normal _, w1, _) => frame_body inp st w1
  | _ => None
  end.

(** Every thread that exists has its output and its mutex: there is no
    thread at all, or one thread per output and one mutex per output, the
    thread of index [j] started on output [j]. *)
Definition outputs_consistent (w : World) : Prop :=
  video_sink_threads w = []
  ∨ (length (video_sink_threads w) = length (buffer_sinks w)
     ∧ mutexes w = length (buffer_sinks w)
     ∧ ∀ j t, video_sink_threads w !! j = Some t → ∃ r, t = Started j r).

(** The main loop over the inputs of successive frames. *)
Fixpoint main_loop (inps : list FrameInput) (st : CommandsState) (w : World)
    : option (World * CommandsState) :=
  match inps with
  | [] => Some (w, st)
  | inp :: inps' => r ← main_frame inp st w; main_loop inps' r.1.2 r.1.1
  end.

(** No toggle is pending in the statics of [show_commands]. *)
Definition no_toggle_pending (st : CommandsState) : Prop := UINT_MAX ≤ toggle_filter st.

(** A frame with all windows shown in which the user does [ed] in the
    editor, releases Space in the sink windows and clicks the timeline
    button of node 1. *)
Definition frame_with (ed : EditorUI) : FrameInput :=
  {| in_engine := engine_ok; in_sinks := λ _, press_space; in_published := λ _, true;
     in_show_commands := true; in_commands := click_toggle 1;
     in_dump_close := false;
     in_show_editor := true; in_editor := ed |}.

(** Three frames: a source is added, a sink is added with Ctrl+Enter, and
    the graph runs. *)
Definition three_frames : list FrameInput :=
  [frame_with (add_and_commit testsrc); frame_with (add_and_commit buffersink);
   frame_with quiet_editor_ui].

(** The number the engine is asked to store for an edit of an option, in
    the cases of the switch that go through [write_number]. *)
Definition edit_number `{FloatModel} (o : AVOption) (v : WidgetValue) : option Number :=
  match opt_type o, v with
  | (AV_OPT_TYPE_INT | AV_OPT_TYPE_BOOL), V_int z => Some (N_int (wrap32 z))
  | AV_OPT_TYPE_INT64, V_int z => Some (N_int z)
  | AV_OPT_TYPE_DOUBLE, V_double d => Some (N_double d)
  | AV_OPT_TYPE_FLOAT, V_float f => Some (N_double (f2d f))
  | AV_OPT_TYPE_RATIONAL, V_int2 a b => Some (N_q {| num := wrap32 a; den := wrap32 b |})
  | _, _ => None
  end.

(** An unsigned 64-bit option of a filter, and an object that holds it. *)
Definition seed_option : @AVOption half_units :=
  @Build_AVOption half_units "seed" "set the seed" 24 AV_OPT_TYPE_UINT64 0 200 0.

Definition seed_priv : gmap string (@Stored half_units) :=
  {[ "seed" := @S_int half_units 7; "h" := @S_float half_units 0 ]}.



Definition is_upload (e : RenderEvent) : bool :=
  match e with RUpload _ _ => true | _ => false end.



(** ** The Commands tree of [show_commands] (lines 1253-1474)

    The tree works on a copy of the selected node's [opt_storage], one
    [OptStorage] for each option it shows, found by the running
    [opt_index].  The union has two floating members, so a slot of the
    vector is modelled over the float model, as [OptSlot]: the member that
    was written last; a read of another member has no value.

    [print_f] is the text ["%f"] gives for a double.  The conversions of
    [min] and [max] to the widgets' types are double arithmetic and are not
    embedded; the widgets' answers are inputs. *)

Definition AV_OPT_FLAG_RUNTIME_PARAM : Z := 32768.

Inductive OptSlot `{FloatModel} :=
| O_i32 (v : Z)
| O_i64 (v : Z)
| O_u64 (v : Z)
| O_dbl (v : double)
| O_flt (v : float)
| O_str (s : option string).

(** What ImGui reports for the widgets of the option pushed with
    [ImGui::PushID(opt_index)]: whether its Send button was pressed, and the
    value entered if its slider, drag or text widget was edited. *)
Record TreeUI `{FloatModel} := {
  tr_send : nat → bool;
  tr_edit : nat → option WidgetValue
}.

Section CommandsTree.
Context `{FM : FloatModel}.
Variable print_f : double → string.

(** The types with a case in the two switches: a Send button and a slot of
    [opt_storage]. *)
Definition has_slot (t : AVOptionType) : bool :=
  match t with
  | AV_OPT_TYPE_FLAGS | AV_OPT_TYPE_BOOL | AV_OPT_TYPE_INT | AV_OPT_TYPE_DOUBLE
  | AV_OPT_TYPE_FLOAT | AV_OPT_TYPE_INT64 | AV_OPT_TYPE_UINT64
  | AV_OPT_TYPE_STRING => true
  | _ => false
  end.

(** The inner switch of the Send button (lines 1291-1314): the text written
    to [char arg[1024]] from the member of the option's type.  The string
    case passes [strlen(str) + 1] as the bound of [snprintf]. *)
Definition send_arg (t : AVOptionType) (e : OptSlot) : option string :=
  match t, e with
  | (AV_OPT_TYPE_FLAGS | AV_OPT_TYPE_BOOL | AV_OPT_TYPE_INT), O_i32 v => Some (pretty v)
  | AV_OPT_TYPE_INT64, O_i64 v => Some (pretty v)
  | AV_OPT_TYPE_UINT64, O_u64 v => Some (pretty v)
  | AV_OPT_TYPE_DOUBLE, O_dbl v => Some (print_f v)
  | AV_OPT_TYPE_FLOAT, O_flt v => Some (print_f (f2d v))
  | AV_OPT_TYPE_STRING, O_str (Some s) =>
      if bool_decide (String.length s < 1024)%nat then Some s else None
  | _, _ => None
  end.

(** The first switch (lines 1279-1321): [opt_storage[opt_index]] is read
    when the button is pressed, before the second switch can push it. *)
Definition tree_send (ui : TreeUI) (ctx : AVFilterContext) (o : AVOption)
    (opt_index : nat) (opt_storage : list OptSlot) : option (list Command) :=
  if has_slot (opt_type o) && tr_send ui opt_index then
    e ← opt_storage !! opt_index;
    a ← send_arg (opt_type o) e;
    Some [{| target := ctx_name ctx; cmd := opt_name o; arg := a |}]
  else Some [].

(** The slot pushed: the value at [ptr], read in the option's type, and
    for a string the result of [av_opt_get], which leaves [str] NULL when
    it fails.  No value where the object holds something else than the
    option's type at [ptr]. *)
Definition new_opt (o : AVOption) (obj : gmap string Stored) (at_ptr : Stored)
    : option OptSlot :=
  match opt_type o, at_ptr with
  | (AV_OPT_TYPE_FLAGS | AV_OPT_TYPE_BOOL | AV_OPT_TYPE_INT), S_int v => Some (O_i32 (wrap32 v))
  | AV_OPT_TYPE_INT64, S_int v => Some (O_i64 v)
  | AV_OPT_TYPE_UINT64, S_int v => Some (O_u64 (v mod 2 ^ 64))
  | AV_OPT_TYPE_DOUBLE, S_double v => Some (O_dbl v)
  | AV_OPT_TYPE_FLOAT, S_float v => Some (O_flt v)
  | AV_OPT_TYPE_STRING, _ => Some (O_str (av_opt_get obj o).2)
  | _, _ => None
  end.

(** [value = opt_storage[opt_index].u.X]: the value the widget is given. *)
Definition slot_value (t : AVOptionType) (e : OptSlot) : option WidgetValue :=
  match t, e with
  | (AV_OPT_TYPE_FLAGS | AV_OPT_TYPE_BOOL | AV_OPT_TYPE_INT), O_i32 v => Some (V_int v)
  | AV_OPT_TYPE_INT64, O_i64 v => Some (V_int v)
  | AV_OPT_TYPE_UINT64, O_u64 v => Some (V_int v)
  | AV_OPT_TYPE_DOUBLE, O_dbl v => Some (V_double v)
  | AV_OPT_TYPE_FLOAT, O_flt v => Some (V_float v)
  | AV_OPT_TYPE_STRING, O_str s => Some (V_text (String.substring 0 1023 (default "" s)))
  | _, _ => None
  end.

(** [opt_storage[opt_index].u.X = value] after an edit; [None] when the
    widget returned false.  [ImGui::InputText] is given [sizeof(string) - 1]
    bytes and [av_strdup] copies up to the first NUL. *)
Definition edited_slot (t : AVOptionType) (edit : option WidgetValue) : option OptSlot :=
  match t, edit with
  | (AV_OPT_TYPE_FLAGS | AV_OPT_TYPE_BOOL | AV_OPT_TYPE_INT), Some (V_int v) =>
      Some (O_i32 (wrap32 v))
  | AV_OPT_TYPE_INT64, Some (V_int v) => Some (O_i64 v)
  | AV_OPT_TYPE_UINT64, Some (V_int v) => Some (O_u64 v)
  | AV_OPT_TYPE_DOUBLE, Some (V_double v) => Some (O_dbl v)
  | AV_OPT_TYPE_FLOAT, Some (V_float v) => Some (O_flt v)
  | AV_OPT_TYPE_STRING, Some (V_text s) => Some (O_str (Some (cstr (String.substring 0 1022 s))))
  | _, _ => None
  end.

(** The second switch (lines 1323-1460): the slot is pushed when
    [opt_storage.size() <= opt_index], then [opt_storage[opt_index]] is read
    and, after an edit, written. *)
Definition tree_widget (ui : TreeUI) (o : AVOption) (obj : gmap string Stored)
    (at_ptr : Stored) (opt_index : nat) (opt_storage : list OptSlot)
    : option (list OptSlot) :=
  if has_slot (opt_type o) then
    st1 ← (if bool_decide (length opt_storage ≤ opt_index)%nat
           then e ← new_opt o obj at_ptr; Some (opt_storage ++ [e])
           else Some opt_storage);
    e ← st1 !! opt_index;
    _ ← slot_value (opt_type o) e;
    Some (from_option (λ e', <[opt_index := e']> st1) st1
            (edited_slot (opt_type o) (tr_edit ui opt_index)))
  else Some opt_storage.

(** The option is shown: it has [AV_OPT_FLAG_RUNTIME_PARAM] and [av_opt_ptr]
    finds it ([query_ranges] returns true for every option). *)
Definition tree_shows (obj : gmap string Stored) (o : AVOption) : bool :=
  negb (Z.land (opt_flags o) AV_OPT_FLAG_RUNTIME_PARAM =? 0)
  && bool_decide (is_Some (obj !! opt_name o)).

(** The loop over [av_opt_next] (lines 1264-1468) from [opt_index]: the
    storage after it and the commands sent.  [None] where [opt_storage] is
    indexed out of its range, a member of the union is read that was not
    written, or [arg] is overrun. *)
Fixpoint tree_options (ui : TreeUI) (ctx : AVFilterContext) (obj : gmap string Stored)
    (opts : list AVOption) (opt_index : nat) (opt_storage : list OptSlot)
    : option (list OptSlot * list Command) :=
  match opts with
  | [] => Some (opt_storage, [])
  | o :: opts' =>
      if Z.land (opt_flags o) AV_OPT_FLAG_RUNTIME_PARAM =? 0
      then tree_options ui ctx obj opts' opt_index opt_storage
      else
        match obj !! opt_name o with
        | None => tree_options ui ctx obj opts' opt_index opt_storage
        | Some at_ptr =>
            cs ← tree_send ui ctx o opt_index opt_storage;
            st1 ← tree_widget ui o obj at_ptr opt_index opt_storage;
            r ← tree_options ui ctx obj opts' (S opt_index) st1;
            Some (r.1, cs ++ r.2)
        end
  end.

(** The body of [if (ImGui::TreeNode("Commands"))] (lines 1255-1470), which
    runs with [is_opened] set: the static [clean_storage] after it, the
    vector assigned to [filter_nodes[n].opt_storage] and the commands. *)
Definition commands_tree (ui : TreeUI) (ctx : AVFilterContext) (obj : gmap string Stored)
    (opts : list AVOption) (clean_storage : bool) (node_storage : list OptSlot)
    : option (bool * list OptSlot * list Command) :=
  let opt_storage := if clean_storage then [] else node_storage in
  r ← tree_options ui ctx obj opts 0 opt_storage;
  Some (false, r.1, r.2).

(** The options the loop shows, in its order. *)
Definition tree_shown (obj : gmap string Stored) (opts : list AVOption) : list AVOption :=
  filter (λ o, tree_shows obj o = true) opts.

(** The object holds a value of the option's own type for every option
    shown that has a slot. *)
Definition tree_typed (obj : gmap string Stored) (opts : list AVOption) : Prop :=
  ∀ o at_ptr, o ∈ tree_shown obj opts → has_slot (opt_type o) = true →
    obj !! opt_name o = Some at_ptr → is_Some (new_opt o obj at_ptr).

(** In a list of options, none without a slot comes before one with a slot. *)
Definition slots_first (l : list AVOption) : Prop :=
  ∀ i j o1 o2, (i < j)%nat → l !! i = Some o1 → l !! j = Some o2 →
    has_slot (opt_type o2) = true → has_slot (opt_type o1) = true.

(** The vector has, at the index of every option of [l] with a slot, an
    entry whose member of that option's type was written and can be sent. *)
Definition slots_ok (l : list AVOption) (opt_storage : list OptSlot) : Prop :=
  ∀ i o, l !! i = Some o → has_slot (opt_type o) = true →
    ∃ e, opt_storage !! i = Some e ∧ is_Some (send_arg (opt_type o) e).

(** What the object holds for every option shown that has a slot can be
    pushed and sent. *)
Definition tree_sendable (obj : gmap string Stored) (opts : list AVOption) : Prop :=
  ∀ o at_ptr, o ∈ tree_shown obj opts → has_slot (opt_type o) = true →
    obj !! opt_name o = Some at_ptr →
    ∃ e, new_opt o obj at_ptr = Some e ∧ is_Some (send_arg (opt_type o) e).

End CommandsTree.

(** Runtime options in the order two filters declare them: a colour key
    with its colour first, and a border filler with its colour last. *)
Definition key_color : @AVOption half_units :=
  @Build_AVOption half_units "color" "set the colorkey key color" 16 AV_OPT_TYPE_COLOR
    0 0 AV_OPT_FLAG_RUNTIME_PARAM.

Definition key_similarity : @AVOption half_units :=
  @Build_AVOption half_units "similarity" "set the colorkey similarity value" 20
    AV_OPT_TYPE_FLOAT 0 2 AV_OPT_FLAG_RUNTIME_PARAM.

Definition key_priv : gmap string (@Stored half_units) :=
  {[ "color" := @S_int half_units 0; "similarity" := @S_float half_units 1 ]}.

Definition border_left : @AVOption half_units :=
  @Build_AVOption half_units "left" "set the left fill border" 16 AV_OPT_TYPE_INT
    0 (2 * INT_MAX) AV_OPT_FLAG_RUNTIME_PARAM.

Definition border_priv : gmap string (@Stored half_units) :=
  {[ "left" := @S_int half_units 4; "color" := @S_int half_units 0 ]}.

Definition border_priv_reset : gmap string (@Stored half_units) :=
  {[ "left" := @S_int half_units 0; "color" := @S_int half_units 0 ]}.

Definition tree_ctx : AVFilterContext :=
  {| ctx_name := "Parsed_filter_1"; ctx_filter := None; input_pads := [];
     output_pads := []; is_disabled := false |}.

(** No button of the tree is pressed and no widget edited. *)
Definition quiet_tree : @TreeUI half_units :=
  @Build_TreeUI half_units (λ _, false) (λ _, None).

(** The Send button of the first option is pressed while its slider is
    dragged to 9. *)
Definition send_first : @TreeUI half_units :=
  @Build_TreeUI half_units (λ k, bool_decide (k = 0%nat))
    (λ k, if bool_decide (k = 0%nat) then Some (@V_int half_units 9) else None).

(** * Properties *)

(** ** Reasoning about [M] *)

Lemma bind_unfold {A B} (m : M A) (k : A → M B) (w : World) :
  (m ≫= k) w =
  match m w with
  | (Normal a, w1, t1) => match k a w1 with (o, w2, t2) => (o, w2, t1 ++ t2) end
  | (GotoError r, w1, t1) => (GotoError r, w1, t1)
  | (Undefined, w1, t1) => (Undefined, w1, t1)
  end.
Proof. reflexivity. Qed.

Lemma for_range_S (from n : nat) (body : nat → M unit) (w : World) :
  for_range from (S n) body w =
  match body from w with
  | (Normal _, w1, t1) =>
      match for_range (S from) n body w1 with (o, w2, t2) => (o, w2, t1 ++ t2) end
  | (GotoError r, w1, t1) => (GotoError r, w1, t1)
  | (Undefined, w1, t1) => (Undefined, w1, t1)
  end.
Proof. reflexivity. Qed.

Lemma set_threads_same (w : World) :
  set_video_sink_threads (video_sink_threads w) w = w.
Proof. by destruct w. Qed.

(** ** [join_all] *)

Lemma join_thread_spec (i : nat) (t : Thread) (w : World) :
  video_sink_threads w !! i = Some t →
  ∃ ts, join_thread i w
        = (Normal tt, set_video_sink_threads ts w, if joinable t then [EvJoin i] else [])
        ∧ length ts = length (video_sink_threads w)
        ∧ drop (S i) ts = drop (S i) (video_sink_threads w).
Proof.
  intros Ht. unfold join_thread. rewrite bind_unfold. cbn. rewrite Ht.
  destruct (joinable t).
  - exists (<[i := NotAThread]> (video_sink_threads w)). split; [done|].
    split; [apply length_insert | apply drop_insert_lt; lia].
  - exists (video_sink_threads w). by rewrite set_threads_same.
Qed.

Lemma join_loop (n : nat) : ∀ (i : nat) (w : World),
  length (video_sink_threads w) = (i + n)%nat →
  ∃ ts, for_range i n join_thread w
        = (Normal tt, set_video_sink_threads ts w,
           join_from i (drop i (video_sink_threads w))).
Proof.
  induction n as [|n IH]; intros i w Hlen.
  - exists (video_sink_threads w). cbn. rewrite set_threads_same.
    rewrite drop_ge by lia. done.
  - destruct (lookup_lt_is_Some_2 (video_sink_threads w) i) as [t Ht]; [lia|].
    destruct (join_thread_spec i t w Ht) as (ts & Hstep & Hl & Hd).
    destruct (IH (S i) (set_video_sink_threads ts w)) as (ts' & Hrest).
    { cbn. lia. }
    exists ts'. rewrite for_range_S, Hstep, Hrest. cbn.
    rewrite Hd, (drop_S _ _ _ Ht). done.
Qed.

Lemma join_all_spec (w : World) :
  join_all w = (Normal tt, set_video_sink_threads [] w,
                join_from 0 (video_sink_threads w) ++ [EvThreadsClear]).
Proof.
  unfold join_all. rewrite bind_unfold. cbn.
  destruct (join_loop (length (video_sink_threads w)) 0 w) as (ts & Hloop); [done|].
  rewrite bind_unfold, Hloop. cbn. rewrite bind_unfold. cbn. done.
Qed.

Lemma join_from_elem (ts : list Thread) : ∀ (i j : nat) (t : Thread),
  ts !! j = Some t → joinable t = true → EvJoin (i + j) ∈ join_from i ts.
Proof.
  induction ts as [|t' ts IH]; intros i j t Hj Ht; [done|].
  destruct j as [|j]; cbn in *.
  - injection Hj as ->. rewrite Ht, Nat.add_0_r. set_solver.
  - apply elem_of_app. right. replace (i + S j)%nat with (S i + j)%nat by lia. eauto.
Qed.

Lemma join_from_only_joins (ts : list Thread) : ∀ (i : nat) (e : Event),
  e ∈ join_from i ts → ∃ j, e = EvJoin j.
Proof.
  induction ts as [|t ts IH]; intros i e He; cbn in He; [set_solver|].
  apply elem_of_app in He as [He|He]; [|eauto].
  destruct (joinable t); [|set_solver].
  apply list_elem_of_singleton in He. eauto.
Qed.

(** ** [filters_setup]: the join barrier *)

Lemma filters_setup_unfold (eng : Engine) (w : World) :
  need_filters_reinit w = true →
  filters_setup eng w =
    let w1 := set_need_filters_reinit false (set_video_sink_threads [] w) in
    let t1 := join_from 0 (video_sink_threads w) ++ [EvThreadsClear] in
    if decide (length (filter_nodes w) = 0%nat) then (Return 0, w1, t1)
    else
      match build_graph eng w1 with
      | (Undefined, w2, t2) => (Crash, w2, t1 ++ t2)
      | (o, w2, t2) =>
        let ret := match o with Normal r => r | GotoError r => r | Undefined => 0 end in
        if ret <? 0 then (Return ret, w2, t1 ++ t2)
        else
          match (modify (λ w, set_video_sink_threads
                           (replicate (length (buffer_sinks w)) NotAThread)
                           (set_mutexes (length (buffer_sinks w)) w)) ;;
                 w ← get;
                 for_range 0 (length (buffer_sinks w)) (spawn_sink eng)) w2 with
          | (_, w3, t3) => (Return 0, w3, t1 ++ t2 ++ t3)
          end
      end.
Proof.
  intros Hflag. unfold filters_setup. rewrite Hflag. cbn [negb].
  rewrite bind_unfold, join_all_spec. cbn. rewrite app_nil_r. done.
Qed.


Lemma emits_ret {A} (P : Event → Prop) (a : A) : emits P (mret a).
Proof. intros w. constructor. Qed.

Lemma emits_bind {A B} (P : Event → Prop) (m : M A) (k : A → M B) :
  emits P m → (∀ a, emits P (k a)) → emits P (m ≫= k).
Proof.
  intros Hm Hk w. rewrite bind_unfold. specialize (Hm w).
  destruct (m w) as [[[a|r|] w1] t1]; cbn in *; try done.
  specialize (Hk a w1). destruct (k a w1) as [[o w2] t2]. cbn in *.
  by apply Forall_app.
Qed.

Lemma emits_emit (P : Event → Prop) (e : Event) : P e → emits P (emit e).
Proof. intros He w. by repeat constructor. Qed.

Lemma emits_silent {A} (P : Event → Prop) (m : M A) :
  (∀ w, (m w).2 = []) → emits P m.
Proof. intros H w. rewrite H. constructor. Qed.

Lemma emits_check (P : Event → Prop) (ret : Z) (msg : string) :
  P (EvLog msg) → emits P (check ret msg).
Proof.
  intros HP. unfold check. destruct (ret <? 0).
  - apply emits_bind; [by apply emits_emit|]. intros _. by apply emits_silent.
  - apply emits_ret.
Qed.

Lemma emits_for_range (P : Event → Prop) (body : nat → M unit) (n : nat) :
  (∀ i, emits P (body i)) → ∀ from, emits P (for_range from n body).
Proof.
  intros Hb. induction n as [|n IH]; intros from; cbn [for_range].
  - apply emits_ret.
  - apply emits_bind; [apply Hb|]. intros _. apply IH.
Qed.

Ltac emits_step :=
  first
    [ apply emits_ret
    | apply emits_check; exact I
    | apply emits_emit; exact I
    | apply emits_silent; reflexivity
    | apply emits_for_range; intros ?
    | apply emits_bind; [|intros ?] ].

Lemma setup_node_emits (eng : Engine) (i : nat) : emits after_barrier (setup_node eng i).
Proof.
  unfold setup_node. apply emits_bind; [by apply emits_silent|]. intros w.
  destruct (filter_nodes w !! i) as [nd|]; [|by apply emits_silent].
  destruct (node_filter nd) as [f|]; [|repeat emits_step].
  apply emits_bind.
  { destruct (avfilter_graph_alloc_filter eng i); repeat emits_step. }
  intros p. apply emits_bind.
  { destruct (is_buffersink f); repeat emits_step. }
  intros _. do 4 (apply emits_bind; [repeat emits_step|intros _]).
  apply emits_bind.
  { destruct (_ <? 0); repeat emits_step. }
  intros _. repeat emits_step.
Qed.

Lemma setup_link_emits (eng : Engine) (i : nat) : emits after_barrier (setup_link eng i).
Proof.
  unfold setup_link. apply emits_bind; [by apply emits_silent|]. intros w.
  destruct (filter_links w !! i) as [p|]; [|by apply emits_silent].
  destruct (at_int _ p.1); [|by apply emits_silent].
  destruct (at_int _ p.2); [|by apply emits_silent].
  case_decide; repeat emits_step.
Qed.

Lemma build_graph_emits (eng : Engine) : emits after_barrier (build_graph eng).
Proof.
  unfold build_graph.
  do 8 (apply emits_bind; [repeat emits_step|intros _]).
  apply emits_bind.
  { destruct (avfilter_graph_alloc eng); repeat emits_step. }
  intros _. apply emits_bind; [by apply emits_silent|]. intros w.
  apply emits_bind; [apply emits_for_range, setup_node_emits|]. intros _.
  apply emits_bind; [apply emits_for_range, setup_link_emits|]. intros _.
  repeat emits_step.
Qed.

Lemma spawn_sink_emits (eng : Engine) (i : nat) : emits after_barrier (spawn_sink eng i).
Proof. unfold spawn_sink. repeat emits_step. Qed.

(** C1.  In every run of [filters_setup] with the rebuild flag set, the
    trace starts with the join of each joinable thread of
    [video_sink_threads], followed by the clearing of the thread list;
    [avfilter_graph_free], [buffer_sinks.clear()] and [mutexes.clear()], if
    they run at all, come after that prefix, and no thread is joined after
    it. *)
Theorem filters_setup_joins_first (eng : Engine) (w : World) :
  need_filters_reinit w = true →
  ∃ joins rest,
    (filters_setup eng w).2 = joins ++ EvThreadsClear :: rest
    ∧ joins = join_from 0 (video_sink_threads w)
    ∧ (∀ i th, video_sink_threads w !! i = Some th → joinable th = true → EvJoin i ∈ joins)
    ∧ (∀ e, e ∈ joins → tears_down e = false)
    ∧ Forall after_barrier rest.
Proof.
  intros Hflag. rewrite filters_setup_unfold by done. cbn zeta.
  assert (Hj : ∀ i th, video_sink_threads w !! i = Some th → joinable th = true →
               EvJoin i ∈ join_from 0 (video_sink_threads w)).
  { intros i th Hi Hth. apply (join_from_elem _ 0 i th Hi Hth). }
  assert (Ht : ∀ e, e ∈ join_from 0 (video_sink_threads w) → tears_down e = false).
  { intros e He. by apply join_from_only_joins in He as [j ->]. }
  set (w1 := set_need_filters_reinit false (set_video_sink_threads [] w)).
  pose proof (build_graph_emits eng w1) as Hb.
  case_decide.
  { eexists _, []. cbn. by repeat split. }
  destruct (build_graph eng w1) as [[o w2] t2]. cbn in Hb.
  set (spawn := (modify _ ≫= _)).
  assert (Hs : Forall after_barrier (spawn w2).2).
  { apply emits_bind; [by apply emits_silent|]. intros _.
    apply emits_bind; [by apply emits_silent|]. intros w'.
    apply emits_for_range. intros i. apply spawn_sink_emits. }
  destruct (spawn w2) as [[o3 w3] t3]. cbn in Hs.
  assert (Hfin : ∀ t, Forall after_barrier t →
            ∃ joins rest,
              (join_from 0 (video_sink_threads w) ++ [EvThreadsClear]) ++ t
                = joins ++ EvThreadsClear :: rest
              ∧ joins = join_from 0 (video_sink_threads w)
              ∧ (∀ i th, video_sink_threads w !! i = Some th →
                   joinable th = true → EvJoin i ∈ joins)
              ∧ (∀ e, e ∈ joins → tears_down e = false)
              ∧ Forall after_barrier rest).
  { intros t Hall. exists (join_from 0 (video_sink_threads w)), t.
    rewrite <- app_assoc. done. }
  destruct o as [r|r|]; cbn; [destruct (r <? 0); cbn .. |];
    apply Hfin; try done; by apply Forall_app.
Qed.

(** ** [filters_setup]: outputs after a rebuild *)

Lemma kinds_alter (f : FilterNode → FilterNode) (i : nat) (l : list FilterNode) :
  (∀ x, node_filter (f x) = node_filter x) →
  node_filter <$> alter f i l = node_filter <$> l.
Proof.
  intros Hf. revert i. induction l as [|x l IH]; intros [|i]; cbn; try done.
  - by rewrite Hf.
  - by rewrite IH.
Qed.



Ltac run_m :=
  unfold check, update_node, mbind, M_bind, mret, M_ret, get, modify, emit,
    goto_error, undefined, alloc; cbn.








Lemma spawn_sink_spec (eng : Engine) (i : nat) (w : World) :
  ∃ w' t, spawn_sink eng i w = (Normal tt, w', t)
    ∧ length (buffer_sinks w') = length (buffer_sinks w)
    ∧ mutexes w' = mutexes w
    ∧ filter_nodes w' = filter_nodes w
    ∧ video_sink_threads w' = <[i := Started i false]> (video_sink_threads w).
Proof.
  unfold spawn_sink. run_m. eexists _, _. split; [reflexivity|]. cbn.
  by rewrite length_alter.
Qed.

Lemma spawn_loop_spec (eng : Engine) (n : nat) : ∀ (i : nat) (w : World),
  length (video_sink_threads w) = (i + n)%nat →
  ∃ w' t, for_range i n (spawn_sink eng) w = (Normal tt, w', t)
    ∧ length (buffer_sinks w') = length (buffer_sinks w)
    ∧ mutexes w' = mutexes w
    ∧ filter_nodes w' = filter_nodes w
    ∧ length (video_sink_threads w') = (i + n)%nat
    ∧ (∀ j, (i ≤ j < i + n)%nat → video_sink_threads w' !! j = Some (Started j false))
    ∧ (∀ j, (j < i)%nat → video_sink_threads w' !! j = video_sink_threads w !! j).
Proof.
  induction n as [|n IH]; intros i w Hlen.
  - exists w, []. repeat split; try done. intros j Hj. lia.
  - destruct (spawn_sink_spec eng i w) as (w1 & t1 & Hstep & Hs & Hm & Hn & Ht).
    destruct (IH (S i) w1) as (w2 & t2 & Hrest & Hs2 & Hm2 & Hn2 & Hl2 & Hnew & Hold).
    { rewrite Ht, length_insert. lia. }
    rewrite for_range_S, Hstep, Hrest. eexists _, _. split; [done|].
    split; [congruence|]. split; [congruence|]. split; [congruence|].
    split; [lia|]. split.
    + intros j Hj. destruct (decide (j = i)) as [->|Hne].
      * rewrite Hold by lia. rewrite Ht. apply list_lookup_insert_eq. lia.
      * apply Hnew. lia.
    + intros j Hj. rewrite Hold by lia. rewrite Ht.
      apply list_lookup_insert_ne. lia.
Qed.




Lemma filters_setup_joins_first_witness :
  ∃ joins rest,
    (filters_setup engine_ok rebuild_requested).2 = joins ++ EvThreadsClear :: rest
    ∧ joins = join_from 0 (video_sink_threads rebuild_requested)
    ∧ (∀ i th, video_sink_threads rebuild_requested !! i = Some th →
         joinable th = true → EvJoin i ∈ joins)
    ∧ (∀ e, e ∈ joins → tears_down e = false)
    ∧ Forall after_barrier rest.
Proof. apply (filters_setup_joins_first engine_ok rebuild_requested). reflexivity. Defined.


(** ** [worker_thread] *)

Lemma pull_loop_failed (fuel : nat) (env : Env) (s : BufferSink) (np : nat) :
  uploaded_frame s = false → terminal (env_pull env np) = true →
  pull_loop (S fuel) env s np
  = (Exited, s, S np, [WUnlock; WUnref; WPull (env_pull env np); WLock]).
Proof. intros Hu Ht. cbn. by rewrite Hu, Ht. Qed.

Lemma pull_loop_first_pull (fuel : nat) (env : Env) (s : BufferSink) (np : nat) :
  uploaded_frame s = false →
  ∃ st s' np' t, pull_loop (S fuel) env s np
                 = (st, s', np', [WUnlock; WUnref; WPull (env_pull env np)] ++ t).
Proof.
  intros Hu. cbn. rewrite Hu. destruct (terminal _); [by eexists _, _, _, _|].
  destruct (pull_loop fuel env _ _) as [[[st s'] np'] t]. by eexists _, _, _, _.
Qed.

Lemma worker_loop_first_pull (fuel : nat) (env : Env) (s : BufferSink) (k np : nat) :
  is_Some (sink_ctx s) → uploaded_frame s = false → env_reinit env k = false →
  ∃ st s' np' t, worker_loop (S fuel) env s k np
                 = (st, s', np', [WLock; WUnlock; WUnref; WPull (env_pull env np)] ++ t).
Proof.
  intros Hc Hu Hr. cbn [worker_loop]. rewrite Hu, andb_false_r, Hr.
  rewrite bool_decide_eq_true_2 by done. cbn [negb].
  destruct (pull_loop_first_pull fuel env s np Hu) as (st & s' & np' & t & ->).
  destruct st; [|by eexists _, _, _, _].
  destruct (worker_loop fuel env s' (S k) np') as [[[st2 s2] np2] t2].
  eexists _, _, _, _. cbn. reflexivity.
Qed.

Lemma worker_loop_failed (fuel : nat) (env : Env) (s : BufferSink) (k np : nat) :
  is_Some (sink_ctx s) → uploaded_frame s = false →
  env_reinit env k = false → terminal (env_pull env np) = true →
  worker_loop (S fuel) env s k np
  = let '(st, s2, np2, t3) := worker_loop fuel env s (S k) (S np) in
    (st, s2, np2,
     ([WLock; WUnlock; WUnref; WPull (env_pull env np); WLock; WUnlock]
        ++ (if env_paused env k then [WSleep] else [])) ++ t3).
Proof.
  intros Hc Hu Hr Ht. cbn [worker_loop]. rewrite Hu, andb_false_r, Hr.
  rewrite bool_decide_eq_true_2 by done. cbn [negb].
  rewrite pull_loop_failed by done. reflexivity.
Qed.

Lemma worker_loop_exit (fuel : nat) (env : Env) (s : BufferSink) (k np : nat) :
  uploaded_frame s = false → env_reinit env k = true →
  worker_loop (S fuel) env s k np = (Exited, s, np, []).
Proof.
  intros Hu Hr. cbn [worker_loop]. rewrite Hu, andb_false_r, Hr.
  by destruct (negb _).
Qed.

(** C3, as amended.  A pull that fails with an error other than EAGAIN ends
    the inner loop only: nothing is published, [uploaded_frame] stays clear
    and the mutex is released.  At the next test of the outer loop the
    thread leaves the producer loop if [need_filters_reinit] is set, and
    otherwise pulls again. *)
Theorem worker_failed_pull (env : Env) (s : BufferSink) (k np fuel : nat) :
  is_Some (sink_ctx s) → uploaded_frame s = false →
  env_reinit env k = false → terminal (env_pull env np) = true →
  let iteration :=
    [WLock; WUnlock; WUnref; WPull (env_pull env np); WLock; WUnlock]
      ++ (if env_paused env k then [WSleep] else []) in
  (env_reinit env (S k) = true →
     worker_loop (S (S fuel)) env s k np = (Exited, s, S np, iteration))
  ∧ (env_reinit env (S k) = false →
     ∃ st s' np' t,
       worker_loop (S (S fuel)) env s k np
       = (st, s', np',
          iteration ++ [WLock; WUnlock; WUnref; WPull (env_pull env (S np))] ++ t)).
Proof.
  intros Hc Hu Hr Ht iteration.
  rewrite (worker_loop_failed (S fuel)) by done. fold iteration.
  split; intros Hnext.
  - rewrite worker_loop_exit by done. by rewrite app_nil_r.
  - destruct (worker_loop_first_pull fuel env s (S k) (S np) Hc Hu Hnext)
      as (st & s' & np' & t & ->).
    by eexists _, _, _, _.
Qed.

Lemma worker_failed_pull_witness :
  worker_loop 2 env_eof_then_rebuild started_sink 0 0
    = (Exited, started_sink, 1%nat,
       [WLock; WUnlock; WUnref; WPull AVERROR_EOF; WLock; WUnlock; WSleep])
  ∧ ∃ st s' np' t,
      worker_loop 2 env_eof started_sink 0 0
      = (st, s', np',
         ([WLock; WUnlock; WUnref; WPull AVERROR_EOF; WLock; WUnlock] ++ [])
           ++ [WLock; WUnlock; WUnref; WPull AVERROR_EOF] ++ t).
Proof.
  split.
  - apply (worker_failed_pull env_eof_then_rebuild started_sink 0 0 0);
      first [reflexivity | by eexists].
  - apply (worker_failed_pull env_eof started_sink 0 0 0);
      first [reflexivity | by eexists].
Defined.

(** With the stream at its end and no rebuild requested, the thread never
    leaves the producer loop and pulls once per iteration. *)
Lemma worker_spins (env : Env) (s : BufferSink) :
  is_Some (sink_ctx s) → uploaded_frame s = false →
  (∀ k, env_reinit env k = false) → (∀ n, terminal (env_pull env n) = true) →
  ∀ fuel k np, ∃ t, worker_loop fuel env s k np = (OutOfFuel, s, (np + fuel)%nat, t).
Proof.
  intros Hc Hu Hr Ht. induction fuel as [|fuel IH]; intros k np.
  - exists []. cbn. by rewrite Nat.add_0_r.
  - rewrite worker_loop_failed by done.
    destruct (IH (S k) (S np)) as [t ->]. eexists.
    by replace (np + S fuel)%nat with (S np + fuel)%nat by lia.
Qed.

(** C3 as worded fails: after the end of the stream the thread pulls again
    on every iteration. *)
Lemma worker_keeps_pulling :
  ¬ stops_after_failed_pull (worker_thread 3 env_eof started_sink).2.
Proof.
  intros H.
  apply (H [WLock; WUnlock; WUnref] AVERROR_EOF
           [WLock; WUnlock; WLock; WUnlock; WUnref; WPull AVERROR_EOF; WLock; WUnlock;
            WLock; WUnlock; WUnref; WPull AVERROR_EOF; WLock; WUnlock]
           eq_refl eq_refl AVERROR_EOF).
  set_solver.
Qed.

Lemma worker_thread_releases (fuel : nat) (env : Env) (s s' : BufferSink)
    (np : nat) (t : list WorkerEvent) :
  worker_loop fuel env s 0 0 = (Exited, s', np, t) →
  worker_thread fuel env s = (Exited, release s', t ++ [WLock; WFree; WUnlock]).
Proof. intros H. unfold worker_thread. by rewrite H. Qed.

(** ** The render loop *)




(** With as many mutexes as sinks, the loop reaches every output, and the
    iterations before it leave an output's buffers as they were. *)
Lemma render_sink_others (ui : FrameUI) (published : bool) (i : nat) (w : World) :
  length (buffer_sinks (render_sink ui published i w).1) = length (buffer_sinks w)
  ∧ ∀ j, j ≠ i →
      buffer_sinks (render_sink ui published i w).1 !! j = buffer_sinks w !! j.
Proof.
  unfold render_sink. destruct (buffer_sinks w !! i) as [s|]; [|done].
  destruct (draw_frame _ _ _ _ _ _) as [[shown s1] [[op p] f]]. cbn.
  split; [apply length_insert|]. intros j Hj. by apply list_lookup_insert_ne.
Qed.

Lemma render_sink_draws (ui : FrameUI) (published : bool) (i : nat) (w : World)
    (s : BufferSink) :
  buffer_sinks w !! i = Some s →
  RDraw i (render_frame s) ∈ (render_sink ui published i w).2.
Proof.
  intros H. unfold render_sink. rewrite H.
  destruct (draw_frame _ _ _ _ _ _) as [[shown s1] [[op p] f]]. cbn. set_solver.
Qed.

Lemma render_from_covers (uis : nat → FrameUI) (published : nat → bool) (n : nat) :
  ∀ (i : nat) (w : World) (j : nat) (s : BufferSink),
  (i ≤ j < i + n)%nat → buffer_sinks w !! j = Some s →
  RDraw j (render_frame s) ∈ (render_from uis published i n w).2.
Proof.
  induction n as [|n IH]; intros i w j s Hj Hs; [lia|]. cbn [render_from].
  pose proof (render_sink_draws (uis i) (published i) i w s) as Hdraw.
  destruct (render_sink_others (uis i) (published i) i w) as [_ Hothers].
  destruct (render_sink (uis i) (published i) i w) as [w1 t1]. cbn in *.
  specialize (IH (S i) w1 j s).
  destruct (render_from uis published (S i) n w1) as [w2 t2]. cbn in *.
  apply elem_of_app. destruct (decide (j = i)) as [->|Hne].
  - left. by apply Hdraw.
  - right. apply IH; [lia|]. by rewrite Hothers.
Qed.

Lemma render_sinks_every_output (uis : nat → FrameUI) (published : nat → bool)
    (w : World) (j : nat) (s : BufferSink) :
  mutexes w = length (buffer_sinks w) → buffer_sinks w !! j = Some s →
  RDraw j (render_frame s) ∈ (render_sinks uis published w).2.
Proof.
  intros Hm Hs. unfold render_sinks. rewrite decide_True by done.
  apply render_from_covers; [|done]. apply lookup_lt_Some in Hs. lia.
Qed.

(** ** The graph editor *)

Lemma any_joinable_running (w : World) (t : Thread) :
  t ∈ video_sink_threads w → running t = true → any_joinable w = true.
Proof.
  intros Hin Hrun. unfold any_joinable. apply existsb_exists. exists t.
  split; [by apply list_elem_of_In|]. by destruct t as [|? []].
Qed.

Lemma editor_events_gate (ui : EditorUI) (w : World) :
  any_joinable w = true → editor_events ui w = (Normal tt, w, []).
Proof. intros H. unfold editor_events. run_m. by rewrite H. Qed.

Lemma link_created_spec (s e : Z) (w : World) (t1 t2 : Z * AVMediaType) :
  at_int (edge2type w) s = Some t1 → at_int (edge2type w) e = Some t2 →
  link_created s e w
  = (Normal tt,
     if decide (t1.2 = t2.2) then set_filter_links (filter_links w ++ [(s, e)]) w else w,
     []).
Proof.
  intros H1 H2. unfold link_created. run_m. rewrite H1, H2. by case_decide.
Qed.

(** C5, as amended.  While a thread of [video_sink_threads] is joinable the
    editor returns before it asks for created links, and the link list is
    unchanged whatever the media kinds.  Otherwise a created link is
    appended if the kinds of its two slots in [edge2type] are equal, and is
    dropped without any error or log if they differ. *)
Theorem link_created_rule (ui : EditorUI) (w : World) (s e : Z)
    (t1 t2 : Z * AVMediaType) :
  ed_link_created ui = Some (s, e) →
  at_int (edge2type w) s = Some t1 → at_int (edge2type w) e = Some t2 →
  (any_joinable w = true → editor_events ui w = (Normal tt, w, []))
  ∧ link_created s e w
    = (Normal tt,
       if decide (t1.2 = t2.2) then set_filter_links (filter_links w ++ [(s, e)]) w else w,
       [])
  ∧ (any_joinable w = false →
     ed_link_destroyed ui = None → ed_key_X ui = false →
     ∃ w', editor_events ui w = (Normal tt, w', [])
       ∧ (t1.2 = t2.2 → filter_links w' = filter_links w ++ [(s, e)])
       ∧ (t1.2 ≠ t2.2 → filter_links w' = filter_links w)).
Proof.
  intros Hui H1 H2. split; [apply editor_events_gate|].
  split; [by apply link_created_spec|].
  intros Hj Hd Hx. unfold editor_events. rewrite bind_unfold. cbn.
  rewrite Hj, Hui, Hd, Hx, !andb_false_r. cbn.
  rewrite bind_unfold, (link_created_spec s e w t1 t2) by done.
  run_m. eexists. split; [reflexivity|].
  case_decide; split; intros ?; try done; by case_decide.
Qed.

Lemma link_created_rule_witness :
  editor_events (draw_link 1 3) running_world = (Normal tt, running_world, [])
  ∧ ∃ w', editor_events (draw_link 1 3) two_nodes = (Normal tt, w', [])
      ∧ filter_links w' = filter_links two_nodes ++ [(1, 3)].
Proof.
  destruct (link_created_rule (draw_link 1 3) running_world 1 3
              (1, AVMEDIA_TYPE_VIDEO) (3, AVMEDIA_TYPE_VIDEO) eq_refl eq_refl eq_refl)
    as (Hgate & _ & _).
  destruct (link_created_rule (draw_link 1 3) two_nodes 1 3
              (1, AVMEDIA_TYPE_VIDEO) (3, AVMEDIA_TYPE_VIDEO) eq_refl eq_refl eq_refl)
    as (_ & _ & Hadd).
  split; [apply Hgate; reflexivity|].
  destruct (Hadd eq_refl eq_refl eq_refl) as (w' & Heq & Hsame & _).
  exists w'. split; [exact Heq|]. apply Hsame. reflexivity.
Defined.

(** C5 as worded fails while the graph runs: the two slots are both video,
    and the link is not appended. *)
Lemma link_rule_fails : ¬ link_rule (draw_link 1 3) running_world.
Proof.
  intros H.
  specialize (H 1 3 (1, AVMEDIA_TYPE_VIDEO) (3, AVMEDIA_TYPE_VIDEO) eq_refl eq_refl eq_refl).
  destruct H as [H _]. specialize (H eq_refl). vm_compute in H. discriminate H.
Qed.

Lemma fmap_alter_same {A B} (g : A → B) (f : A → A) (i : nat) (l : list A) :
  (∀ x, g (f x) = g x) → g <$> alter f i l = g <$> l.
Proof.
  intros Hf. revert i. induction l as [|x l IH]; intros [|i]; cbn; try done.
  - by rewrite Hf.
  - by rewrite IH.
Qed.

Lemma draw_node_options_gate (ui : NodeUI) (i : nat) (w : World) :
  any_joinable w = true →
  draw_node_options (with_remove true ui) i w = draw_node_options (with_remove false ui) i w
  ∧ let w' := (draw_node_options ui i w).1.2 in
    length (filter_nodes w') = length (filter_nodes w)
    ∧ node_filter <$> filter_nodes w' = node_filter <$> filter_nodes w
    ∧ node_ctx <$> filter_nodes w' = node_ctx <$> filter_nodes w
    ∧ filter_label <$> filter_nodes w' = filter_label <$> filter_nodes w
    ∧ filter_links w' = filter_links w
    ∧ filter_graph w' = filter_graph w.
Proof.
  intros Hj. unfold any_joinable in Hj. unfold draw_node_options, any_joinable. run_m.
  destruct (filter_nodes w !! i) as [nd|]; cbn; [|done].
  destruct (probe_graph nd) as [g|]; cbn.
  - destruct (probe nd) as [p|]; cbn.
    + destruct (negb (colapsed nd) && negb (btn_options ui)); cbn;
        [|destruct (btn_close ui); cbn; rewrite ?Hj; cbn];
        rewrite ?length_alter, ?fmap_alter_same by done; done.
    + destruct (node_filter nd) as [f|]; cbn;
        [|rewrite ?length_alter, ?fmap_alter_same by done; done].
      destruct (probe_alloc ui); cbn;
        [|rewrite ?length_alter, ?fmap_alter_same by done; done].
      destruct (negb (colapsed nd) && negb (btn_options ui)); cbn;
        [|destruct (btn_close ui); cbn; rewrite ?Hj; cbn];
        rewrite ?length_alter, ?fmap_alter_same by done; done.
  - destruct (probe_graph_alloc ui); cbn;
      [|rewrite ?length_alter, ?fmap_alter_same by done; done].
    destruct (probe nd) as [p|]; cbn.
    + destruct (negb (colapsed nd) && negb (btn_options ui)); cbn;
        [|destruct (btn_close ui); cbn; rewrite ?Hj; cbn];
        rewrite ?length_alter, ?fmap_alter_same by done; done.
    + destruct (node_filter nd) as [f|]; cbn;
        [|rewrite ?length_alter, ?fmap_alter_same by done; done].
      destruct (probe_alloc ui); cbn;
        [|rewrite ?length_alter, ?fmap_alter_same by done; done].
      destruct (negb (colapsed nd) && negb (btn_options ui)); cbn;
        [|destruct (btn_close ui); cbn; rewrite ?Hj; cbn];
        rewrite ?length_alter, ?fmap_alter_same by done; done.
Qed.

(** C6.  A running thread is joinable, and while a thread of
    [video_sink_threads] is joinable a remove request changes nothing.
    [draw_node_options] returns before it draws the Remove button, so its
    result does not depend on that button, and it leaves the number of
    nodes, their kinds, live handles and labels, the links and the engine
    instance as they were; the editor returns before it looks at the
    selection, so delete-selection leaves the whole state as it was. *)
Theorem removal_rejected_while_running (w : World) (t : Thread) :
  t ∈ video_sink_threads w → joinable t = true →
  (∀ t', running t' = true → joinable t' = true)
  ∧ (∀ ui i,
       draw_node_options (with_remove true ui) i w
         = draw_node_options (with_remove false ui) i w
       ∧ let w' := (draw_node_options ui i w).1.2 in
         length (filter_nodes w') = length (filter_nodes w)
         ∧ node_filter <$> filter_nodes w' = node_filter <$> filter_nodes w
         ∧ node_ctx <$> filter_nodes w' = node_ctx <$> filter_nodes w
         ∧ filter_label <$> filter_nodes w' = filter_label <$> filter_nodes w
         ∧ filter_links w' = filter_links w
         ∧ filter_graph w' = filter_graph w)
  ∧ (∀ ui, editor_events ui w = (Normal tt, w, [])).
Proof.
  intros Hin Hjoin.
  assert (Hj : any_joinable w = true).
  { unfold any_joinable. apply existsb_exists. exists t.
    split; [by apply list_elem_of_In|done]. }
  split; [by intros [|? []]|]. split.
  - intros ui i. by apply draw_node_options_gate.
  - intros ui. by apply editor_events_gate.
Qed.

Lemma removal_rejected_while_running_witness :
  (∀ t', running t' = true → joinable t' = true)
  ∧ (∀ ui i,
       draw_node_options (with_remove true ui) i running_world
         = draw_node_options (with_remove false ui) i running_world
       ∧ let w' := (draw_node_options ui i running_world).1.2 in
         length (filter_nodes w') = length (filter_nodes running_world)
         ∧ node_filter <$> filter_nodes w' = node_filter <$> filter_nodes running_world
         ∧ node_ctx <$> filter_nodes w' = node_ctx <$> filter_nodes running_world
         ∧ filter_label <$> filter_nodes w' = filter_label <$> filter_nodes running_world
         ∧ filter_links w' = filter_links running_world
         ∧ filter_graph w' = filter_graph running_world)
  ∧ (∀ ui, editor_events ui running_world = (Normal tt, running_world, [])).
Proof.
  apply (removal_rejected_while_running running_world (Started 0 false)).
  - vm_compute. left.
  - reflexivity.
Defined.

(** *** Removal of nodes *)

Lemma erase_step_spec (i : nat) (l : list FilterNode) :
  take i (erase_step i l) = take i l
  ∧ filter has_filter (take (S i) l) ++ drop (S i) l
    = filter has_filter (take i l) ++ drop i (erase_step i l).
Proof.
  unfold erase_step. destruct (l !! i) as [nd|] eqn:Hi.
  - assert (Hlen : (i < length l)%nat) by by eapply lookup_lt_Some.
    rewrite (take_S_r _ _ _ Hi), filter_app, <- app_assoc.
    case_bool_decide as Hf.
    + rewrite delete_take_drop. split.
      * apply take_app_length'. rewrite length_take_le; lia.
      * rewrite drop_app_length' by (rewrite length_take_le; lia).
        rewrite filter_cons. case_decide as Hd; [by destruct Hd|done].
    + split; [done|]. rewrite (drop_S _ _ _ Hi), filter_cons.
      case_decide as Hd; [done|by destruct Hd].
  - apply lookup_ge_None in Hi. split; [done|].
    rewrite !take_ge, !drop_ge by lia. done.
Qed.

Lemma erase_released_spec (i : nat) : ∀ l : list FilterNode,
  erase_released i l = filter has_filter (take (S i) l) ++ drop (S i) l.
Proof.
  induction i as [|i IH]; intros l.
  - change (erase_released 0 l) with (erase_step 0 l).
    destruct (erase_step_spec 0 l) as [_ ->]. by rewrite take_0, drop_0.
  - change (erase_released (S i) l) with (erase_released i (erase_step (S i) l)).
    rewrite IH. destruct (erase_step_spec (S i) l) as [Htake ->].
    by rewrite Htake.
Qed.

Lemma erase_released_all (l : list FilterNode) :
  erase_released (length l - 1) l = filter has_filter l.
Proof.
  rewrite erase_released_spec, take_ge, drop_ge by lia. apply app_nil_r.
Qed.

Lemma filter_all {A} (P : A → Prop) `{∀ x, Decision (P x)} (l : list A) :
  Forall P l → filter P l = l.
Proof.
  induction 1 as [|x l Hx _ IH]; [done|].
  rewrite filter_cons. case_decide; [by rewrite IH|done].
Qed.

Lemma filter_alter_released (f : FilterNode → FilterNode) (l : list FilterNode) :
  (∀ x, ¬ has_filter (f x)) → Forall has_filter l →
  ∀ n, filter has_filter (alter f n l) = delete n l.
Proof.
  intros Hf. induction 1 as [|x l Hx Hl IH]; intros [|n]; try done.
  - change (alter f 0%nat (x :: l)) with (f x :: l).
    rewrite filter_cons. case_decide as Hd; [by destruct (Hf x)|].
    by apply filter_all.
  - change (alter f (S n) (x :: l)) with (x :: alter f n l).
    rewrite filter_cons. case_decide; [|done]. cbn. f_equal. apply IH.
Qed.

Lemma delete_alter {A} (f : A → A) (l : list A) :
  ∀ i, delete i (alter f i l) = delete i l.
Proof. induction l as [|x l IH]; intros [|i]; cbn; try done. by rewrite IH. Qed.

(** C7 as worded fails: the sink is deleted, and the link that ends at its
    input is still in the list. *)
Lemma deleted_node_keeps_link : ¬ no_dangling_link [2] linked_world.
Proof.
  intros H. apply (H 2 1%nat (1, 3)).
  - set_solver.
  - reflexivity.
  - vm_compute. left.
  - right. reflexivity.
Qed.

(** On the next frame the edge table has two slots, the link still names
    slot 3, and a rebuild indexes [edge2pad] out of its range. *)
Lemma dangling_link_breaks_rebuild :
  filter_links sink_deleted = [(1, 3)]
  ∧ length (edge2pad sink_deleted) = 2%nat
  ∧ (filters_setup engine_ok sink_deleted).1.1 = Crash.
Proof. by vm_compute. Qed.

Lemma avfilter_free_frame (c : option ptr) (w : World) :
  filter_nodes (avfilter_free c w) = filter_nodes w
  ∧ filter_links (avfilter_free c w) = filter_links w
  ∧ edge2pad (avfilter_free c w) = edge2pad w
  ∧ video_sink_threads (avfilter_free c w) = video_sink_threads w.
Proof. unfold avfilter_free. by destruct c, (filter_graph w). Qed.

Lemma delete_selection_spec (w : World) (slot : Z) (e : Edge2Pad) (nd : FilterNode) :
  any_joinable w = false →
  at_int (edge2pad w) slot = Some e → filter_nodes w !! node e = Some nd →
  Forall has_filter (filter_nodes w) →
  ∃ w', editor_events (delete_nodes [slot]) w = (Normal tt, w', [])
    ∧ filter_nodes w' = delete (node e) (filter_nodes w)
    ∧ filter_links w' = filter_links w.
Proof.
  intros Hj He Hnd Hall. unfold editor_events. rewrite bind_unfold. cbn.
  rewrite Hj. rewrite (bool_decide_eq_false_2 (0 < 0)%nat) by lia.
  rewrite (bool_decide_eq_true_2 (0 < 1)%nat) by lia.
  unfold release_selected_nodes. run_m. rewrite He, Hnd. cbn.
  destruct (avfilter_free_frame (node_ctx nd) w) as (Hn & Hl & _ & _).
  rewrite Hn.
  eexists. split; [reflexivity|]. case_decide as Hlen; cbn.
  - rewrite Hl. split; [|done]. rewrite erase_released_all.
    apply filter_alter_released; [|done]. intros x Hx. by apply Hx.
  - rewrite length_alter in Hlen. apply lookup_lt_Some in Hnd. lia.
Qed.

Lemma remove_button_spec (w : World) (ui : NodeUI) (i : nat) (nd : FilterNode)
    (g : AVFilterGraph) (p : ptr) :
  any_joinable w = false →
  filter_nodes w !! i = Some nd → probe_graph nd = Some g → probe nd = Some p →
  negb (colapsed nd) && negb (btn_options ui) = false →
  btn_close ui = false → btn_remove ui = true → node_id nd = Z.of_nat i →
  ∃ w', draw_node_options ui i w = (Normal false, w', [])
    ∧ filter_nodes w' = delete i (filter_nodes w)
    ∧ filter_links w' = filter_links w.
Proof.
  intros Hj Hnd Hg Hp Hc Hclose Hrm Hid. unfold any_joinable in Hj.
  unfold draw_node_options, any_joinable. run_m.
  rewrite Hnd, Hg. cbn. rewrite Hp. cbn. rewrite Hc, Hclose. cbn.
  rewrite Hj, Hrm. cbn.
  match goal with |- context [avfilter_free ?c ?W] =>
    destruct (avfilter_free_frame c W) as (Hn & Hl & _ & _)
  end.
  rewrite Hn. cbn. unfold erase_at. rewrite Hid, !length_alter.
  apply lookup_lt_Some in Hnd.
  replace ((0 <=? Z.of_nat i) && (Z.of_nat i <? Z.of_nat (length (filter_nodes w))))
    with true by (symmetry; apply andb_true_iff; split; lia).
  cbn. rewrite Nat2Z.id, !delete_alter. eexists. split; [reflexivity|]. cbn.
  split; [done|]. exact Hl.
Qed.

(** C7, as amended.  A removal performed while no thread is joinable erases
    the node and leaves the persisted link list as it was: links that name
    slots of the removed node stay in [filter_links].  This holds for
    delete-selection of a node and for the Remove button of a node whose
    [id] is its index. *)
Theorem node_removal_keeps_links (w : World) :
  any_joinable w = false →
  (∀ slot e nd,
     at_int (edge2pad w) slot = Some e → filter_nodes w !! node e = Some nd →
     Forall has_filter (filter_nodes w) →
     ∃ w', editor_events (delete_nodes [slot]) w = (Normal tt, w', [])
       ∧ filter_nodes w' = delete (node e) (filter_nodes w)
       ∧ filter_links w' = filter_links w)
  ∧ (∀ ui i nd g p,
       filter_nodes w !! i = Some nd → probe_graph nd = Some g → probe nd = Some p →
       negb (colapsed nd) && negb (btn_options ui) = false →
       btn_close ui = false → btn_remove ui = true → node_id nd = Z.of_nat i →
       ∃ w', draw_node_options ui i w = (Normal false, w', [])
         ∧ filter_nodes w' = delete i (filter_nodes w)
         ∧ filter_links w' = filter_links w).
Proof.
  intros Hj. split.
  - intros slot e nd. by apply delete_selection_spec.
  - intros ui i nd g p. by apply remove_button_spec.
Qed.

Lemma node_removal_keeps_links_witness :
  (∃ w', editor_events (delete_nodes [2]) linked_world = (Normal tt, w', [])
     ∧ filter_nodes w' = delete 1%nat (filter_nodes linked_world)
     ∧ filter_links w' = filter_links linked_world)
  ∧ (∃ w', draw_node_options press_remove 1 linked_world = (Normal false, w', [])
       ∧ filter_nodes w' = delete 1%nat (filter_nodes linked_world)
       ∧ filter_links w' = filter_links linked_world).
Proof.
  destruct (node_removal_keeps_links linked_world eq_refl) as [Hsel Hbtn]. split.
  - apply (Hsel 2 _ _ eq_refl eq_refl).
    vm_compute. repeat constructor; discriminate.
  - eapply (Hbtn _ 1%nat); reflexivity.
Defined.

(** ** The command window *)

Lemma at_int_nat {A} (l : list A) (n : nat) : at_int l (Z.of_nat n) = l !! n.
Proof.
  unfold at_int. destruct (Z.of_nat n <? 0) eqn:H; [apply Z.ltb_lt in H; lia|].
  by rewrite Nat2Z.id.
Qed.

(** The button of row [n] sets [toggle_filter] to [n]. *)
Lemma command_row_toggle (ui : CommandsUI) (g : AVFilterGraph) (n : nat)
    (nd : FilterNode) (st : CommandsState) (p : ptr) (c : AVFilterContext) (f : AVFilter) :
  node_ctx nd = Some p → deref (filters g) p = Some c → ctx_filter c = Some f →
  cm_pass_filter ui (name f) = true → cm_clicked_active ui n = true →
  Z.land (flags f) AVFILTER_FLAG_SUPPORT_TIMELINE ≠ 0 →
  cm_tree_timeline ui n = true → cm_button ui n (toggle_caption c) = true →
  ∃ st', command_row ui g n nd st = Some st' ∧ toggle_filter st' = Z.of_nat n.
Proof.
  intros Hp Hc Hf Hpass Hclick Hflag Htree Hbtn. unfold command_row.
  rewrite Hp, Hc. cbn. rewrite Hf, Hpass, Hclick, Htree, Hbtn. cbn.
  rewrite Z.eqb_refl. apply Z.eqb_neq in Hflag. rewrite Hflag. cbn. eauto.
Qed.



(** *** The graph's array after a rebuild *)






Lemma aligned_upto_all (w : World) :
  aligned_upto (length (filter_nodes w)) w → aligned w.
Proof.
  intros (g & Hg & _ & Hal). exists g. split; [done|]. intros n nd Hnd.
  destruct (Hal n) as (p & c & Hf & Hn); [by eapply lookup_lt_Some|].
  rewrite list_lookup_fmap, Hnd in Hn. injection Hn as Hn. eauto.
Qed.





(** ** The option binding *)

Lemma wrap32_id (z : Z) : INT_MIN ≤ z ≤ INT_MAX → wrap32 z = z.
Proof.
  unfold INT_MIN, INT_MAX, wrap32. intros H.
  rewrite Z.mod_small; lia.
Qed.

Lemma substring_all (s : string) : ∀ n, (String.length s ≤ n)%nat → String.substring 0 n s = s.
Proof.
  induction s as [|c s IH]; intros [|n] H; cbn in *; try done; try lia.
  rewrite IH; [done|lia].
Qed.

Section OptionBindingProofs.
Context `{FM : FloatModel} `{OE : !OptEngine}.

Lemma case_int_round_trip (o : AVOption) (z : Z) (obj : gmap string Stored) (z0 : Z) :
  obj !! opt_name o = Some (S_int z0) →
  av_opt_set_int obj o z = (0, <[opt_name o := S_int z]> obj) →
  INT_MIN ≤ z ≤ INT_MAX →
  ∃ obj' shown, case_int o (Some (V_int z)) obj = (obj', shown)
    ∧ case_int o None obj' = (obj', Some (V_int z)).
Proof.
  intros Hobj Hset Hz. unfold case_int, av_opt_get_int. rewrite Hobj. cbn.
  rewrite (wrap32_id z Hz), Hset. cbn. eexists _, _. split; [reflexivity|].
  rewrite lookup_insert_eq. cbn. by rewrite wrap32_id.
Qed.

(** C9.  For an option of kind integer, boolean (or flags), float, double,
    string or rational that is a member of the object, and a value [v] of
    that kind within the option's range: when the widget of the option
    reports the edit [v] in one pass of the binding, the next pass of the
    same binding over the resulting object shows [v].  The conversion from
    [float] to [double] is taken to be exact. *)
Theorem option_round_trip (o : AVOption) (v : WidgetValue) (obj : gmap string Stored) :
  (∀ x : float, d2f (f2d x) = x) →
  bound obj o → in_range o v →
  ∃ obj' shown,
    draw_option o (Some v) obj = Some (obj', shown)
    ∧ draw_option o None obj' = Some (obj', Some v).
Proof.
  intros Hexact Hbound Hrange. unfold bound, in_range, draw_option in *.
  destruct (opt_type o) eqn:Htype; try done;
    destruct (obj !! opt_name o) as [[z0|f0|d0|s0|r0]|] eqn:Hobj; try done;
    destruct v as [z|f|d|s|a b]; try done.
  - (* flags *)
    destruct (case_int_round_trip o z obj z0 Hobj) as (obj' & shown & H1 & H2); [|done|].
    { unfold av_opt_set_int. rewrite Hobj, Htype. by rewrite wrap32_id. }
    exists obj', shown. by rewrite H1, H2.
  - (* int *)
    destruct Hrange as [Hz Hok].
    destruct (case_int_round_trip o z obj z0 Hobj) as (obj' & shown & H1 & H2); [|done|].
    { unfold av_opt_set_int. rewrite Hobj, Htype, Hok. by rewrite wrap32_id. }
    exists obj', shown. by rewrite H1, H2.
  - (* double *)
    unfold case_double, av_opt_get_double, av_opt_set_double.
    rewrite Hobj, Htype, Hrange. cbn. eexists _, _. split; [reflexivity|].
    by rewrite lookup_insert_eq.
  - (* float *)
    unfold case_float, av_opt_get_double, av_opt_set_double.
    rewrite Hobj, Htype, Hrange. cbn. eexists _, _. split; [reflexivity|].
    rewrite lookup_insert_eq. by rewrite !Hexact.
  - (* string *)
    destruct Hrange as [Hlen Hcstr].
    unfold case_string, av_opt_get, av_opt_set. rewrite Hobj, Htype. cbn.
    rewrite bool_decide_eq_true_2 by done.
    rewrite substring_all by lia. rewrite Hcstr.
    eexists _, _. split; [reflexivity|].
    rewrite lookup_insert_eq. cbn. by rewrite bool_decide_eq_true_2.
  - (* rational *)
    destruct Hrange as (Ha & Hb & Hok).
    unfold case_rational, av_opt_get_q, av_opt_set_q. rewrite Hobj, Htype. cbn.
    rewrite !wrap32_id, Hok by done. cbn. eexists _, _. split; [reflexivity|].
    by rewrite lookup_insert_eq.
  - (* bool *)
    destruct Hrange as [Hz Hok].
    destruct (case_int_round_trip o z obj z0 Hobj) as (obj' & shown & H1 & H2); [|done|].
    { unfold av_opt_set_int. rewrite Hobj, Htype, Hok. by rewrite wrap32_id. }
    exists obj', shown. by rewrite H1, H2.
Qed.

End OptionBindingProofs.

Lemma option_round_trip_witness :
  ∃ obj' shown,
    @draw_option half_units half_units_engine hue_h (Some hue_h_90) hue_priv
      = Some (obj', shown)
    ∧ @draw_option half_units half_units_engine hue_h None obj'
      = Some (obj', Some hue_h_90).
Proof.
  apply (@option_round_trip half_units half_units_engine).
  - intros x. cbn. symmetry. apply Z.div_unique_exact; lia.
  - vm_compute. exact I.
  - reflexivity.
Defined.

(** ** The kinds of filters *)

Lemma every_pad_both (pads : list AVMediaType) :
  every_pad AVMEDIA_TYPE_VIDEO pads = true ∧ every_pad AVMEDIA_TYPE_AUDIO pads = true
  ↔ pads = [].
Proof.
  split; [|by intros ->].
  destruct pads as [|x pads]; [done|]. cbn. by destruct x; cbn; intros [??].
Qed.

(** X1.  Source, sink, simple and complex partition the filters: every
    f is of exactly one of the four kinds. *)
Theorem filter_kinds_partition (f : AVFilter) :
  (Nat.b2n (is_source_filter f) + Nat.b2n (is_sink_filter f)
   + Nat.b2n (is_simple_filter f) + Nat.b2n (is_complex_filter f) = 1)%nat.
Proof.
  unfold is_complex_filter, is_source_filter, is_sink_filter, is_simple_filter,
    avfilter_filter_pad_count.
  destruct (has_flag f AVFILTER_FLAG_DYNAMIC_INPUTS),
    (has_flag f AVFILTER_FLAG_DYNAMIC_OUTPUTS),
    (inputs f) as [|? [|? ?]], (outputs f) as [|? [|? ?]]; reflexivity.
Qed.

(** X2.  A source is offered under both Video Source Filters and Audio
    Source Filters exactly when it has no static output pad (its outputs are
    dynamic); a sink is offered under both sink menus exactly when it has no
    static input pad. *)
Theorem typed_menus_overlap (f : AVFilter) :
  (is_source_video_filter f = true ∧ is_source_audio_filter f = true
   ↔ is_source_filter f = true ∧ outputs f = []
     ∧ has_flag f AVFILTER_FLAG_DYNAMIC_OUTPUTS = true)
  ∧ (is_sink_video_filter f = true ∧ is_sink_audio_filter f = true
     ↔ is_sink_filter f = true ∧ inputs f = []
       ∧ has_flag f AVFILTER_FLAG_DYNAMIC_INPUTS = true).
Proof.
  unfold is_source_video_filter, is_source_audio_filter, is_sink_video_filter,
    is_sink_audio_filter.
  split.
  - destruct (is_source_filter f) eqn:Hs; [|by split; intros [? ?]].
    rewrite every_pad_both. split; [|by intros (_ & ? & _)].
    intros Ho. split; [done|]. split; [done|].
    unfold is_source_filter, avfilter_filter_pad_count in Hs. rewrite Ho in Hs.
    destruct (has_flag f AVFILTER_FLAG_DYNAMIC_OUTPUTS); [done|].
    cbn in Hs. by rewrite orb_true_r in Hs.
  - destruct (is_sink_filter f) eqn:Hs; [|by split; intros [? ?]].
    rewrite every_pad_both. split; [|by intros (_ & ? & _)].
    intros Hi. split; [done|]. split; [done|].
    unfold is_sink_filter, avfilter_filter_pad_count in Hs. rewrite Hi in Hs.
    destruct (has_flag f AVFILTER_FLAG_DYNAMIC_INPUTS); [done|].
    cbn in Hs. by rewrite orb_false_r in Hs.
Qed.

(** X3.  The filters that no submenu offers, as far as the tests read the
    pads a filter has: a source whose outputs are neither all video nor all
    audio, a sink whose inputs are neither all video nor all audio, and a
    simple filter whose input is neither video nor audio. *)
Theorem filters_in_no_menu (f : AVFilter) :
  (∀ m, menu_test m f = Some false)
  ↔ (is_source_filter f = true
     ∧ every_pad AVMEDIA_TYPE_VIDEO (outputs f) = false
     ∧ every_pad AVMEDIA_TYPE_AUDIO (outputs f) = false)
    ∨ (is_sink_filter f = true
       ∧ every_pad AVMEDIA_TYPE_VIDEO (inputs f) = false
       ∧ every_pad AVMEDIA_TYPE_AUDIO (inputs f) = false)
    ∨ (is_simple_filter f = true
       ∧ ∃ t, inputs f = [t] ∧ t ≠ AVMEDIA_TYPE_VIDEO ∧ t ≠ AVMEDIA_TYPE_AUDIO).
Proof.
  pose proof (filter_kinds_partition f) as Hpart.
  split.
  - intros H.
    pose proof (H VideoSourceFilters) as H1. pose proof (H AudioSourceFilters) as H2.
    pose proof (H SimpleVideoFilters) as H3. pose proof (H SimpleAudioFilters) as H4.
    pose proof (H ComplexFilters) as H5. pose proof (H VideoSinkFilters) as H6.
    pose proof (H AudioSinkFilters) as H7. clear H. cbn in *.
    unfold is_source_video_filter, is_source_audio_filter, is_sink_video_filter,
      is_sink_audio_filter, is_simple_video_filter, is_simple_audio_filter,
      is_simple_typed, avfilter_pad_get_type in *.
    injection H1 as H1. injection H2 as H2. injection H5 as H5.
    injection H6 as H6. injection H7 as H7. rewrite H5 in Hpart.
    destruct (is_source_filter f); [by left|].
    destruct (is_sink_filter f); [by right; left|].
    destruct (is_simple_filter f) eqn:Hs; [|done].
    right; right. split; [done|].
    unfold is_simple_filter, avfilter_filter_pad_count in Hs.
    destruct (inputs f) as [|t [|? ?]]; try done.
    exists t. split; [done|]. cbn in H3, H4.
    by destruct t.
  - intros [(Hs & Hv & Ha)|[(Hs & Hv & Ha)|(Hs & t & Hi & Hv & Ha)]]; intros m.
    + unfold menu_test, is_source_video_filter, is_source_audio_filter,
        is_sink_video_filter, is_sink_audio_filter, is_simple_video_filter,
        is_simple_audio_filter, is_simple_typed.
      rewrite Hs, Hv, Ha in *. cbn in Hpart.
      destruct (is_sink_filter f), (is_simple_filter f), (is_complex_filter f);
        try done; by destruct m.
    + unfold menu_test, is_source_video_filter, is_source_audio_filter,
        is_sink_video_filter, is_sink_audio_filter, is_simple_video_filter,
        is_simple_audio_filter, is_simple_typed.
      rewrite Hs, Hv, Ha in *. cbn in Hpart.
      destruct (is_source_filter f), (is_simple_filter f), (is_complex_filter f);
        try done; by destruct m.
    + unfold menu_test, is_source_video_filter, is_source_audio_filter,
        is_sink_video_filter, is_sink_audio_filter, is_simple_video_filter,
        is_simple_audio_filter, is_simple_typed, avfilter_pad_get_type.
      rewrite Hs, Hi in *. cbn in Hpart. cbn.
      rewrite !bool_decide_eq_false_2 by done.
      destruct (is_source_filter f), (is_sink_filter f), (is_complex_filter f);
        try done; by destruct m.
Qed.

(** X4.  The typed tests of a simple filter return true only after reading
    [filter->inputs] at pad 1.  A simple filter has one input pad, so the
    tests have a value only where they are false: they read past the array
    exactly for a simple filter whose input has the tested type, and the two
    Simple submenus list no filter otherwise. *)
Theorem simple_typed_tests (f : AVFilter) :
  is_simple_video_filter f ≠ Some true
  ∧ is_simple_audio_filter f ≠ Some true
  ∧ (is_simple_video_filter f = None
     ↔ is_simple_filter f = true ∧ inputs f = [AVMEDIA_TYPE_VIDEO])
  ∧ (is_simple_audio_filter f = None
     ↔ is_simple_filter f = true ∧ inputs f = [AVMEDIA_TYPE_AUDIO])
  ∧ (∀ registry l, menu_items SimpleVideoFilters registry = Some l → l = [])
  ∧ (∀ registry l, menu_items SimpleAudioFilters registry = Some l → l = []).
Proof.
  assert (Hnever : ∀ t g, is_simple_typed t g ≠ Some true).
  { intros t g. unfold is_simple_typed, is_simple_filter, avfilter_filter_pad_count,
      avfilter_pad_get_type.
    destruct (inputs g) as [|t0 [|? ?]]; cbn; repeat case_bool_decide; by cbn. }
  assert (Hnone : ∀ t g, is_simple_typed t g = None
                         ↔ is_simple_filter g = true ∧ inputs g = [t]).
  { intros t g. unfold is_simple_typed, is_simple_filter, avfilter_filter_pad_count,
      avfilter_pad_get_type.
    destruct (inputs g) as [|t0 [|? ?]]; cbn; repeat case_bool_decide; cbn;
      try (split; [done|by intros [? ?]]).
    - subst. by split.
    - split; [done|]. by intros [_ [= ?]]. }
  assert (Hitems : ∀ t registry l,
            (∀ g, menu_test t g = is_simple_typed
                    (match t with SimpleAudioFilters => AVMEDIA_TYPE_AUDIO
                     | _ => AVMEDIA_TYPE_VIDEO end) g) →
            menu_items t registry = Some l → l = []).
  { intros t registry l Ht. revert l.
    induction registry as [|g registry IH]; intros l; cbn; [by intros [= <-]|].
    rewrite Ht.
    destruct (is_simple_typed _ g) as [[]|] eqn:Hg; cbn; [by apply Hnever in Hg| |done].
    destruct (menu_items t registry) as [rest|]; cbn; [|done].
    intros [= <-]. by apply IH. }
  split; [apply Hnever|]. split; [apply Hnever|].
  split; [apply Hnone|]. split; [apply Hnone|].
  split; intros registry l; by apply Hitems.
Qed.
(** * Further properties *)

(** ** Invariants of computations in [M] *)

Lemma keeps_ret {A} (I : World → Prop) (a : A) : keeps I (mret a).
Proof. by intros w. Qed.

Lemma keeps_bind {A B} (I : World → Prop) (m : M A) (k : A → M B) :
  keeps I m → (∀ a, keeps I (k a)) → keeps I (m ≫= k).
Proof.
  intros Hm Hk w Hw. rewrite bind_unfold. specialize (Hm w Hw).
  destruct (m w) as [[[a|r|] w1] t1]; cbn in *; try done.
  specialize (Hk a w1 Hm). by destruct (k a w1) as [[o w2] t2].
Qed.

Lemma keeps_modify (I : World → Prop) (f : World → World) :
  (∀ w, I w → I (f w)) → keeps I (modify f).
Proof. intros Hf w Hw. by apply Hf. Qed.

Lemma keeps_pure {A} (I : World → Prop) (m : M A) :
  (∀ w, (m w).1.2 = w) → keeps I m.
Proof. intros Hm w Hw. by rewrite Hm. Qed.



Lemma triple_ret {A} (P : World → Prop) (a : A) (Q : A → World → Prop) :
  (∀ w, P w → Q a w) → triple P (mret a) Q.
Proof. intros H w a' w' t Hw [= <- <- _]. by apply H. Qed.

Lemma triple_bind {A B} (P : World → Prop) (m : M A) (k : A → M B)
    (Q : A → World → Prop) (R : B → World → Prop) :
  triple P m Q → (∀ a, triple (Q a) (k a) R) → triple P (m ≫= k) R.
Proof.
  intros Hm Hk w b w' t Hw. rewrite bind_unfold.
  destruct (m w) as [[[a|r|] w1] t1] eqn:Hmw; [|done..].
  destruct (k a w1) as [[o w2] t2] eqn:Hkw. intros [= -> -> _].
  eapply Hk; [|exact Hkw]. by eapply Hm.
Qed.

Lemma triple_keeps {A} (I : World → Prop) (m : M A) :
  keeps I m → triple I m (λ _, I).
Proof. intros Hm w a w' t Hw Heq. specialize (Hm w Hw). by rewrite Heq in Hm. Qed.

Lemma triple_weaken {A} (P P' : World → Prop) (m : M A) (Q Q' : A → World → Prop) :
  triple P m Q → (∀ w, P' w → P w) → (∀ a w, Q a w → Q' a w) → triple P' m Q'.
Proof. intros H HP HQ w a w' t Hw Heq. eapply HQ, H; [by apply HP|done]. Qed.

Lemma triple_get (P : World → Prop) : triple P get (λ a w, a = w ∧ P w).
Proof. by intros w a w' t Hw [= <- <- _]. Qed.

(** ** The slot tables of the editor *)

Lemma editor_frame_refl (w : World) : editor_frame w w.
Proof. by repeat split. Qed.

Lemma editor_frame_trans (w1 w2 w3 : World) :
  editor_frame w1 w2 → editor_frame w2 w3 → editor_frame w1 w3.
Proof.
  unfold editor_frame. intros (?&?&?&?&?&?&?&?&?&?&?) (?&?&?&?&?&?&?&?&?&?&?).
  repeat split; congruence.
Qed.

Lemma draw_node_options_frame (ui : NodeUI) (i : nat) (w : World) :
  editor_frame w (draw_node_options ui i w).1.2.
Proof.
  unfold editor_frame, draw_node_options, any_joinable, avfilter_free. run_m.
  destruct (filter_nodes w !! i) as [nd|]; cbn; [|done].
  destruct (probe_graph nd) as [g|]; cbn;
    [|destruct (probe_graph_alloc ui); cbn; [|done]];
  (destruct (probe nd); cbn;
     [|destruct (node_filter nd); cbn; [destruct (probe_alloc ui); cbn; [|done]|done]]);
  (destruct (negb (colapsed nd) && negb (btn_options ui)); cbn; [done|];
   destruct (btn_close ui); cbn; [done|];
   destruct (existsb joinable (video_sink_threads w)); cbn; [done|];
   destruct (btn_remove ui); cbn; [|done];
   destruct (node_ctx nd), (filter_graph w); cbn;
   destruct (erase_at _ _); cbn; done).
Qed.

Lemma push_edge_tables (e : Z) (t : AVMediaType) (p : Edge2Pad) :
  triple (tables_indexed e) (push_edge e t p) (λ _, tables_indexed (e + 1)).
Proof.
  intros w a w' tr (Hlen & Hpad & Hid) [= _ <- _]. unfold tables_indexed. cbn.
  rewrite !length_app. cbn. split; [lia|]. split; [lia|].
  intros k x Hk. apply lookup_app_Some in Hk as [Hk|[Hge Hk]]; [by apply Hid|].
  destruct (k - length (edge2type w))%nat as [|n] eqn:Hn; [|done].
  injection Hk as <-. cbn. lia.
Qed.

Lemma push_pads_tables (i : nat) (out : Z) (pads : list AVMediaType) :
  ∀ (j : nat) (e : Z),
  triple (tables_indexed e) (push_pads i out j pads e) (λ e', tables_indexed e').
Proof.
  induction pads as [|t pads IH]; intros j e; cbn [push_pads].
  - by apply triple_ret.
  - eapply triple_bind; [apply push_edge_tables|]. intros ?. apply IH.
Qed.

Lemma tables_indexed_frame (e : Z) (w w' : World) :
  edge2type w' = edge2type w → edge2pad w' = edge2pad w →
  tables_indexed e w → tables_indexed e w'.
Proof. unfold tables_indexed. by intros -> ->. Qed.

Lemma draw_nodes_tables (ui : EditorUI) (fuel : nat) :
  ∀ (i : nat) (e : Z),
  triple (tables_indexed e) (draw_nodes fuel ui i e) (λ e', tables_indexed e').
Proof.
  induction fuel as [|fuel IH]; intros i e; cbn [draw_nodes].
  - by apply triple_ret.
  - eapply triple_bind; [by apply triple_keeps, keeps_pure|]. intros w0. cbn beta.
    case_decide; [|by apply triple_ret].
    eapply triple_bind.
    { apply triple_keeps, keeps_modify. intros w. by apply tables_indexed_frame. }
    intros ?. eapply triple_bind; [apply push_edge_tables|]. intros ?.
    eapply triple_bind.
    { apply triple_keeps. intros w Hw.
      destruct (draw_node_options_frame (ed_node ui i) i w) as (H1 & H2 & _).
      by eapply tables_indexed_frame. }
    intros ?. eapply triple_bind; [by apply triple_keeps, keeps_pure|].
    intros w1. cbn beta.
    destruct (filter_nodes w1 !! i) as [nd|]; [|by intros ? ? ? ? ? ?].
    destruct (probe nd) as [pr|]; [|apply IH].
    destruct (match node_ctx nd with Some _ => _ | None => _ end) as [c|];
      [|by intros ? ? ? ? ? ?].
    eapply triple_bind; [apply push_pads_tables|].
    intros e1. eapply triple_bind; [apply push_pads_tables|].
    intros e2. apply IH.
Qed.

Lemma keeps_editor_frame_modify (w0 : World) (f : World → World) :
  (∀ w, editor_frame w (f w)) → keeps (editor_frame w0) (modify f).
Proof. intros Hf. apply keeps_modify. intros w Hw. by eapply editor_frame_trans. Qed.

Lemma avfilter_free_editor_frame (c : option ptr) (w : World) :
  editor_frame w (avfilter_free c w).
Proof. unfold avfilter_free. by destruct c, (filter_graph w). Qed.

Lemma editor_events_keeps (w0 : World) (ui : EditorUI) :
  keeps (editor_frame w0) (editor_events ui).
Proof.
  unfold editor_events. apply keeps_bind; [by apply keeps_pure|]. intros w.
  destruct (any_joinable w); [apply keeps_ret|].
  apply keeps_bind.
  { destruct (ed_link_created ui) as [[s e]|]; cbn; [|apply keeps_ret].
    unfold link_created. apply keeps_bind; [by apply keeps_pure|]. intros w1.
    destruct (at_int (edge2type w1) s), (at_int (edge2type w1) e); try by apply keeps_pure.
    case_decide; [|apply keeps_ret]. by apply keeps_editor_frame_modify. }
  intros ?. apply keeps_bind.
  { destruct (ed_link_destroyed ui) as [l|]; cbn; [|apply keeps_ret].
    unfold erase_link. apply keeps_bind; [by apply keeps_pure|]. intros w1.
    destruct (erase_at (filter_links w1) l); [|by apply keeps_pure].
    by apply keeps_editor_frame_modify. }
  intros ?. apply keeps_bind.
  { destruct (_ && _); [|apply keeps_ret].
    induction (ed_selected_links ui) as [|x sel IH]; cbn; [apply keeps_ret|].
    apply keeps_bind; [by apply keeps_pure|]. intros w1.
    case_decide; [apply keeps_ret|].
    apply keeps_bind; [|by intros ?].
    unfold erase_link. apply keeps_bind; [by apply keeps_pure|]. intros w2.
    destruct (erase_at (filter_links w2) x); [|by apply keeps_pure].
    by apply keeps_editor_frame_modify. }
  intros ?. apply keeps_bind.
  { destruct (_ && _); [|apply keeps_ret].
    induction (ed_selected_nodes ui) as [|x sel IH]; cbn; [apply keeps_ret|].
    apply keeps_bind; [by apply keeps_pure|]. intros w1.
    destruct (at_int (edge2pad w1) x) as [e|]; [|by apply keeps_pure].
    destruct (filter_nodes w1 !! node e) as [nd|]; [|by apply keeps_pure].
    apply keeps_bind; [apply keeps_editor_frame_modify, avfilter_free_editor_frame|].
    intros ?. apply keeps_bind; [by apply keeps_editor_frame_modify|]. by intros ?. }
  intros ?. apply keeps_editor_frame_modify. intros w1. by case_decide.
Qed.

Lemma editor_events_tables (ui : EditorUI) (w : World) :
  editor_frame w (editor_events ui w).1.2.
Proof. apply editor_events_keeps, editor_frame_refl. Qed.

(** X5.  After a frame of the editor both slot tables have one entry per
    slot drawn, and the entry of slot id [k] is at index [k]: looking a slot
    up by its id, as the link handling does, finds that slot. *)
Theorem editor_tables_indexed (ui : EditorUI) (w w' : World) (t : list Event) :
  ed_begin ui = true → show_filtergraph_editor ui w = (Normal tt, w', t) →
  length (edge2pad w') = length (edge2type w')
  ∧ (∀ k x, edge2type w' !! k = Some x → x.1 = Z.of_nat k)
  ∧ (∀ x, x ∈ edge2type w' → at_int (edge2type w') x.1 = Some x).
Proof.
  intros Hb Hrun. unfold show_filtergraph_editor in Hrun. rewrite Hb in Hrun.
  cbn [negb] in Hrun.
  assert (H : ∃ e, tables_indexed e w').
  { revert Hrun.
    apply (triple_bind (λ _, True) _ _ (λ _, tables_indexed 0) (λ _ w, ∃ e, tables_indexed e w));
      [by intros ? ? ? ? _ [= _ <- _]| |done].
    intros ?. eapply triple_bind.
    { apply triple_keeps. destruct (ed_ctrl_enter ui); [|apply keeps_ret].
      apply keeps_modify. intros w1. by apply tables_indexed_frame. }
    intros ?. eapply triple_bind.
    { apply triple_keeps. destruct (ed_menu_pick ui); cbn; [|apply keeps_ret].
      apply keeps_modify. intros w1. by apply tables_indexed_frame. }
    intros ?. eapply triple_bind; [by apply triple_keeps, keeps_pure|].
    intros w1. eapply triple_bind; [apply draw_nodes_tables|].
    intros e w2 [] w3 t3 Hw2 Hev. exists e.
    destruct (editor_events_tables ui w2) as (H1 & H2 & _).
    rewrite Hev in H1, H2. by eapply tables_indexed_frame. }
  destruct H as (e & _ & Hlen & Hid). split; [done|]. split; [done|].
  intros x Hx. apply list_elem_of_lookup in Hx as [k Hk].
  rewrite (Hid k x Hk), at_int_nat. done.
Qed.

Lemma editor_tables_indexed_witness :
  length (edge2pad two_nodes) = length (edge2type two_nodes)
  ∧ (∀ k x, edge2type two_nodes !! k = Some x → x.1 = Z.of_nat k)
  ∧ (∀ x, x ∈ edge2type two_nodes → at_int (edge2type two_nodes) x.1 = Some x).
Proof.
  apply (editor_tables_indexed quiet_editor_ui
           (handle_nodeitem buffersink (handle_nodeitem testsrc initial_world))
           two_nodes []); reflexivity.
Defined.

(** ** Node ids and the Remove button *)

Lemma alter_insert_lookup {A} (f : A → A) (l : list A) (i : nat) (x : A) :
  l !! i = Some x → alter f i l = <[i := f x]> l.
Proof.
  revert i. induction l as [|y l IH]; intros [|i] H; try done; cbn in *.
  - by injection H as ->.
  - by rewrite IH.
Qed.

(** X6.  The Remove button erases [filter_nodes[node->id]], whichever node
    it was pressed on.  When the node's [id] is the index [k] of another
    node, that other node is erased and the node itself stays in the list
    with its names and handles released and its [filter] kept; when [k] is
    not an index of the list, the erase is out of range. *)
Theorem remove_button_erases_by_id (w : World) (ui : NodeUI) (i k : nat)
    (nd : FilterNode) (g : AVFilterGraph) (p : ptr) :
  any_joinable w = false →
  filter_nodes w !! i = Some nd → probe_graph nd = Some g → probe nd = Some p →
  negb (colapsed nd) && negb (btn_options ui) = false →
  btn_close ui = false → btn_remove ui = true → node_id nd = Z.of_nat k →
  ((k < length (filter_nodes w))%nat →
     ∃ w', draw_node_options ui i w = (Normal false, w', [])
       ∧ filter_nodes w' = delete k (<[i := released_by_button nd]> (filter_nodes w))
       ∧ (k ≠ i →
          filter_nodes w' !! (if decide (i < k)%nat then i else (i - 1)%nat)
            = Some (released_by_button nd)
          ∧ node_filter (released_by_button nd) = node_filter nd))
  ∧ ((length (filter_nodes w) ≤ k)%nat →
     (draw_node_options ui i w).1.1 = Undefined).
Proof.
  intros Hj Hnd Hg Hp Hc Hclose Hrm Hid. unfold any_joinable in Hj.
  unfold draw_node_options, any_joinable. run_m.
  rewrite Hnd, Hg. cbn. rewrite Hp. cbn. rewrite Hc, Hclose. cbn.
  rewrite Hj, Hrm. cbn.
  match goal with |- context [avfilter_free ?c ?W] =>
    destruct (avfilter_free_frame c W) as (Hn & _)
  end.
  rewrite Hn. cbn. unfold erase_at. rewrite Hid, !length_alter.
  pose proof (lookup_lt_Some _ _ _ Hnd) as Hi.
  split; intros Hk.
  - replace ((0 <=? Z.of_nat k) && (Z.of_nat k <? Z.of_nat (length (filter_nodes w))))
      with true by (symmetry; apply andb_true_iff; split; lia).
    cbn. rewrite Nat2Z.id. eexists. split; [reflexivity|]. cbn.
    rewrite !list_alter_alter_eq, (alter_insert_lookup _ _ _ _ Hnd).
    split; [done|]. intros Hne. split; [|done].
    case_decide.
    + rewrite list_lookup_delete_lt by done. apply list_lookup_insert_eq. lia.
    + rewrite list_lookup_delete_ge by lia.
      replace (S (i - 1)) with i by lia. apply list_lookup_insert_eq. lia.
  - replace ((0 <=? Z.of_nat k) && (Z.of_nat k <? Z.of_nat (length (filter_nodes w))))
      with false by (symmetry; apply andb_false_iff; right; lia).
    done.
Qed.

Lemma remove_button_erases_by_id_witness :
  (∃ w', draw_node_options press_remove 0 source_deleted = (Normal false, w', [])
     ∧ node_filter <$> filter_nodes w' = [Some hue]
     ∧ filter_name <$> filter_nodes w' = [None])
  ∧ (draw_node_options press_remove 1 source_deleted).1.1 = Undefined.
Proof.
  split.
  - edestruct (remove_button_erases_by_id source_deleted press_remove 0 1)
      as [H _]; [reflexivity..|].
    destruct H as (w' & Heq & Hnodes & _); [vm_compute; lia|].
    exists w'. split; [exact Heq|]. rewrite Hnodes. by vm_compute.
  - edestruct (remove_button_erases_by_id source_deleted press_remove 1 2)
      as [_ H]; [reflexivity..|].
    apply H. vm_compute. lia.
Defined.

Lemma handle_nodeitem_ids (f : AVFilter) (w : World) :
  ids_are_indices (filter_nodes w) → ids_are_indices (filter_nodes (handle_nodeitem f w)).
Proof.
  intros Hids i nd. unfold handle_nodeitem. cbn.
  intros [H|[Hge H]]%lookup_app_Some; [by apply Hids|].
  destruct (i - length (filter_nodes w))%nat as [|n] eqn:Hn; [|done].
  injection H as <-. cbn. lia.
Qed.

(** X7.  Ids are handed out as indices and never renumbered.  A node added
    through the menu gets the size of the list as its [id], so that ids are
    indices as long as nodes are only added; after the deletion of the node
    at index [n] every node behind it has moved down by one and kept its
    [id], which is then its index plus one. *)
Theorem node_ids_after_deletion (w : World) (slot : Z) (e : Edge2Pad) (nd : FilterNode) :
  any_joinable w = false →
  at_int (edge2pad w) slot = Some e → filter_nodes w !! node e = Some nd →
  Forall has_filter (filter_nodes w) → ids_are_indices (filter_nodes w) →
  (∀ f, ids_are_indices (filter_nodes (handle_nodeitem f w)))
  ∧ ∃ w', editor_events (delete_nodes [slot]) w = (Normal tt, w', [])
      ∧ length (filter_nodes w') = (length (filter_nodes w) - 1)%nat
      ∧ ∀ j nd', filter_nodes w' !! j = Some nd' →
          node_id nd' = (if decide (j < node e)%nat then Z.of_nat j else Z.of_nat j + 1).
Proof.
  intros Hj He Hnd Hall Hids. split; [intros f; by apply handle_nodeitem_ids|].
  destruct (delete_selection_spec w slot e nd Hj He Hnd Hall) as (w' & Heq & Hnodes & _).
  exists w'. split; [done|]. rewrite Hnodes. split.
  { rewrite length_delete by done. lia. }
  intros j nd'. rewrite list_lookup_delete. case_decide; intros Hl%Hids; lia.
Qed.

Lemma node_ids_after_deletion_witness :
  let e := {| node := 0; is_output := 0; pad_index := 0 |} in
  (∀ f, ids_are_indices (filter_nodes (handle_nodeitem f hue_edited)))
  ∧ ∃ w', editor_events (delete_nodes [0]) hue_edited = (Normal tt, w', [])
      ∧ length (filter_nodes w') = (length (filter_nodes hue_edited) - 1)%nat
      ∧ ∀ j nd', filter_nodes w' !! j = Some nd' →
          node_id nd' = (if decide (j < node e)%nat then Z.of_nat j else Z.of_nat j + 1).
Proof.
  intros e. eapply (node_ids_after_deletion hue_edited 0 e); try reflexivity.
  - vm_compute. repeat constructor; discriminate.
  - intros [|[|[|i]]] nd H; vm_compute in H; try discriminate H;
      by injection H as <-.
Defined.

(** ** Nodes without a filter do not outlive the frame *)

Lemma keeps_get_bind {B} (I : World → Prop) (k : World → M B) :
  (∀ w, I w → I (k w w).1.2) → keeps I (get ≫= k).
Proof.
  intros H w Hw. rewrite bind_unfold. cbn. specialize (H w Hw).
  by destruct (k w w) as [[o w2] t2].
Qed.

Lemma keeps_alloc (I : World → Prop) :
  (∀ w n, I w → I (set_next_alloc n w)) → keeps I alloc.
Proof. intros H w Hw. by apply H. Qed.

Lemma triple_get_bind {B} (P : World → Prop) (k : World → M B) (Q : B → World → Prop) :
  (∀ w0, P w0 → triple (λ w, w = w0) (k w0) Q) → triple P (get ≫= k) Q.
Proof.
  intros H w b w' t Hw. rewrite bind_unfold. cbn.
  destruct (k w w) as [[o w2] t2] eqn:Hk. intros [= -> -> _].
  by eapply (H w Hw w).
Qed.

Lemma triple_any {A} (P : World → Prop) (m : M A) : triple P m (λ _ _, True).
Proof. by intros ? ? ? ? ? ?. Qed.

Lemma all_have_filter_alter (f : FilterNode → FilterNode) (i : nat) (w : World) :
  (∀ x, node_filter (f x) = node_filter x) →
  all_have_filter w → all_have_filter (set_filter_nodes (alter f i (filter_nodes w)) w).
Proof.
  intros Hf Hw. unfold all_have_filter. cbn. apply Forall_alter; [done|].
  intros x _. unfold has_filter. by rewrite Hf.
Qed.

Lemma draw_node_options_keeps_filters (ui : NodeUI) (i : nat) :
  keeps all_have_filter (draw_node_options ui i).
Proof.
  unfold draw_node_options. apply keeps_get_bind. intros w Hw.
  destruct (filter_nodes w !! i) as [nd|]; [|done].
  revert w Hw. apply keeps_bind.
  { apply keeps_modify. intros w. by apply all_have_filter_alter. }
  intros ?. destruct (match probe_graph nd with Some _ => _ | None => _ end) as [g|];
    [|apply keeps_ret].
  apply keeps_bind.
  { destruct (probe nd), (node_filter nd); try apply keeps_ret.
    destruct (probe_alloc ui); [|apply keeps_ret].
    apply keeps_bind; [by apply keeps_alloc|]. intros p.
    apply keeps_bind; [|intros ?; apply keeps_ret].
    apply keeps_modify. intros w. by apply all_have_filter_alter. }
  intros [pr|]; [|apply keeps_ret].
  destruct (negb (colapsed nd) && negb (btn_options ui)); [apply keeps_ret|].
  apply keeps_bind.
  { apply keeps_modify. intros w. by apply all_have_filter_alter. }
  intros ?. destruct (btn_close ui).
  { apply keeps_bind; [|intros ?; apply keeps_ret].
    apply keeps_modify. intros w. by apply all_have_filter_alter. }
  apply keeps_get_bind. intros w Hw.
  destruct (any_joinable w); [done|]. destruct (btn_remove ui); [|done].
  revert w Hw. apply keeps_bind.
  { apply keeps_modify. intros w. by apply all_have_filter_alter. }
  intros ?. apply keeps_bind.
  { apply keeps_modify. intros w Hw. unfold all_have_filter.
    by destruct (avfilter_free_frame (node_ctx nd) w) as [-> _]. }
  intros ?. apply keeps_get_bind. intros w Hw. unfold erase_at.
  destruct (_ && _); [|done]. cbn. by apply Forall_delete.
Qed.

Lemma push_pads_keeps_filters (i : nat) (out : Z) (pads : list AVMediaType) :
  ∀ (j : nat) (e : Z), keeps all_have_filter (push_pads i out j pads e).
Proof.
  induction pads as [|t pads IH]; intros j e; cbn [push_pads]; [apply keeps_ret|].
  apply keeps_bind; [by apply keeps_modify|]. intros ?. apply IH.
Qed.

Lemma draw_nodes_keeps_filters (ui : EditorUI) (fuel : nat) :
  ∀ (i : nat) (e : Z), keeps all_have_filter (draw_nodes fuel ui i e).
Proof.
  induction fuel as [|fuel IH]; intros i e; cbn [draw_nodes]; [apply keeps_ret|].
  apply keeps_bind; [by apply keeps_pure|]. intros w0.
  case_decide; [|apply keeps_ret].
  apply keeps_bind.
  { apply keeps_modify. intros w. by apply all_have_filter_alter. }
  intros ?. apply keeps_bind; [by apply keeps_modify|].
  intros ?. apply keeps_bind; [apply draw_node_options_keeps_filters|].
  intros ?. apply keeps_bind; [by apply keeps_pure|]. intros w1.
  destruct (filter_nodes w1 !! i) as [nd|]; [|by apply keeps_pure].
  destruct (probe nd) as [pr|]; [|apply IH].
  destruct (match node_ctx nd with Some _ => _ | None => _ end) as [c|];
    [|by apply keeps_pure].
  apply keeps_bind; [apply push_pads_keeps_filters|].
  intros e1. apply keeps_bind; [apply push_pads_keeps_filters|].
  intros e2. apply IH.
Qed.

Lemma editor_events_filters (ui : EditorUI) :
  triple (λ w, any_joinable w = false ∨ all_have_filter w) (editor_events ui)
         (λ _, all_have_filter).
Proof.
  unfold editor_events. apply triple_get_bind. intros w0 Hw0.
  destruct (any_joinable w0); [apply triple_ret; intros ? ->; by destruct Hw0|].
  eapply triple_bind; [apply triple_any|]. intros ?.
  eapply triple_bind; [apply triple_any|]. intros ?.
  eapply triple_bind; [apply triple_any|]. intros ?.
  eapply triple_bind; [apply triple_any|]. intros ?.
  intros w1 x w1' t1 _ [= _ <- _]. unfold all_have_filter.
  case_decide; cbn.
  - rewrite erase_released_all. apply Forall_forall.
    by intros y [? _]%list_elem_of_filter.
  - destruct (filter_nodes w1); [done|cbn in *; lia].
Qed.

Lemma outputs_frame_refl (w : World) : outputs_frame w w.
Proof. by repeat split. Qed.

Lemma outputs_frame_trans (w1 w2 w3 : World) :
  outputs_frame w1 w2 → outputs_frame w2 w3 → outputs_frame w1 w3.
Proof.
  unfold outputs_frame. intros (?&?&?&?&?&?&?&?) (?&?&?&?&?&?&?&?).
  repeat split; congruence.
Qed.

Lemma editor_frame_outputs (w w' : World) : editor_frame w w' → outputs_frame w w'.
Proof. unfold editor_frame, outputs_frame. tauto. Qed.

Lemma keeps_outputs_frame (w0 : World) {A} (m : M A) :
  (∀ w, outputs_frame w (m w).1.2) → keeps (outputs_frame w0) m.
Proof. intros Hm w Hw. by eapply outputs_frame_trans. Qed.

Lemma keeps_outputs_frame_modify (w0 : World) (f : World → World) :
  (∀ w, outputs_frame w (f w)) → keeps (outputs_frame w0) (modify f).
Proof. intros Hf. by apply keeps_outputs_frame. Qed.

Lemma push_pads_outputs (w0 : World) (i : nat) (out : Z) (pads : list AVMediaType) :
  ∀ (j : nat) (e : Z), keeps (outputs_frame w0) (push_pads i out j pads e).
Proof.
  induction pads as [|t pads IH]; intros j e; cbn [push_pads]; [apply keeps_ret|].
  apply keeps_bind; [by apply keeps_outputs_frame_modify|]. intros ?. apply IH.
Qed.

Lemma draw_nodes_outputs (w0 : World) (ui : EditorUI) (fuel : nat) :
  ∀ (i : nat) (e : Z), keeps (outputs_frame w0) (draw_nodes fuel ui i e).
Proof.
  induction fuel as [|fuel IH]; intros i e; cbn [draw_nodes]; [apply keeps_ret|].
  apply keeps_bind; [by apply keeps_pure|]. intros w1.
  case_decide; [|apply keeps_ret].
  apply keeps_bind; [by apply keeps_outputs_frame_modify|].
  intros ?. apply keeps_bind; [by apply keeps_outputs_frame_modify|].
  intros ?. apply keeps_bind.
  { apply keeps_outputs_frame. intros w.
    apply editor_frame_outputs, draw_node_options_frame. }
  intros ?. apply keeps_bind; [by apply keeps_pure|]. intros w2.
  destruct (filter_nodes w2 !! i) as [nd|]; [|by apply keeps_pure].
  destruct (probe nd) as [pr|]; [|apply IH].
  destruct (match node_ctx nd with Some _ => _ | None => _ end) as [c|];
    [|by apply keeps_pure].
  apply keeps_bind; [apply push_pads_outputs|].
  intros e1. apply keeps_bind; [apply push_pads_outputs|].
  intros e2. apply IH.
Qed.

Lemma show_filtergraph_editor_keeps (w0 : World) (ui : EditorUI) :
  keeps (outputs_frame w0) (show_filtergraph_editor ui).
Proof.
  unfold show_filtergraph_editor. destruct (ed_begin ui); cbn [negb]; [|apply keeps_ret].
  apply keeps_bind; [by apply keeps_outputs_frame_modify|]. intros ?.
  apply keeps_bind.
  { destruct (ed_ctrl_enter ui); [|apply keeps_ret]. by apply keeps_outputs_frame_modify. }
  intros ?. apply keeps_bind.
  { destruct (ed_menu_pick ui); cbn; [|apply keeps_ret]. by apply keeps_outputs_frame_modify. }
  intros ?. apply keeps_bind; [by apply keeps_pure|]. intros w1.
  apply keeps_bind; [apply draw_nodes_outputs|]. intros ?.
  apply keeps_outputs_frame. intros w. apply editor_frame_outputs, editor_events_tables.
Qed.

Lemma show_filtergraph_editor_outputs (ui : EditorUI) (w : World) :
  outputs_frame w (show_filtergraph_editor ui w).1.2.
Proof. apply show_filtergraph_editor_keeps, outputs_frame_refl. Qed.

Lemma show_filtergraph_editor_filters (ui : EditorUI) (w w' : World) (t : list Event) :
  show_filtergraph_editor ui w = (Normal tt, w', t) →
  (all_have_filter w → all_have_filter w')
  ∧ (ed_begin ui = true → any_joinable w = false → all_have_filter w').
Proof.
  intros Hrun. split.
  - intros Hw. revert Hrun. unfold show_filtergraph_editor.
    destruct (ed_begin ui); cbn [negb]; [|by intros [= <- _]].
    intros Hrun.
    eapply (triple_bind all_have_filter _ _ (λ _, all_have_filter) (λ _, all_have_filter));
      [| |exact Hw|exact Hrun].
    { by apply triple_keeps, keeps_modify. }
    intros ?. eapply triple_bind.
    { apply triple_keeps. destruct (ed_ctrl_enter ui); [|apply keeps_ret].
      by apply keeps_modify. }
    intros ?. eapply triple_bind.
    { apply triple_keeps. destruct (ed_menu_pick ui) as [f|]; cbn; [|apply keeps_ret].
      apply keeps_modify. intros w1 Hw1. unfold all_have_filter, handle_nodeitem. cbn.
      apply Forall_app. split; [done|]. by repeat constructor. }
    intros ?. eapply triple_bind; [by apply triple_keeps, keeps_pure|].
    intros w1. eapply triple_bind; [apply triple_keeps, draw_nodes_keeps_filters|].
    intros ?. eapply triple_weaken; [apply editor_events_filters| |done].
    intros w2 Hw2. by right.
  - intros Hb Hj. revert Hrun. unfold show_filtergraph_editor. rewrite Hb. cbn [negb].
    set (J := λ w1 : World, any_joinable w1 = false).
    assert (HJ : ∀ w1 w2, outputs_frame w1 w2 → J w1 → J w2).
    { unfold J, any_joinable. by intros w1 w2 (-> & _). }
    intros Hrun.
    eapply (triple_bind J _ _ (λ _, J) (λ _, all_have_filter)); [| |exact Hj|exact Hrun].
    { apply triple_keeps, keeps_modify. intros w1. by apply HJ. }
    intros ?. eapply triple_bind.
    { apply triple_keeps. destruct (ed_ctrl_enter ui); [|apply keeps_ret].
      apply keeps_modify. intros w1. by apply HJ. }
    intros ?. eapply triple_bind.
    { apply triple_keeps. destruct (ed_menu_pick ui) as [f|]; cbn; [|apply keeps_ret].
      apply keeps_modify. intros w1. by apply HJ. }
    intros ?. eapply triple_bind; [by apply triple_keeps, keeps_pure|].
    intros w1. eapply triple_bind.
    { apply triple_keeps. intros w2 Hw2. eapply HJ; [|exact Hw2].
      apply draw_nodes_outputs, outputs_frame_refl. }
    intros ?. eapply triple_weaken; [apply editor_events_filters| |done].
    intros w2 Hw2. by left.
Qed.

(** X8.  Delete-selection marks a node by clearing its [filter] and the
    erase loop of the same frame removes every node so marked; nothing else
    clears a [filter].  So if every node has its filter before a frame of
    the editor, every node has it after the frame, whatever the user did;
    and when no thread is joinable this holds after the frame even without
    the assumption. *)
Theorem editor_keeps_filters (ui : EditorUI) (w w' : World) (t : list Event) :
  show_filtergraph_editor ui w = (Normal tt, w', t) →
  (all_have_filter w → all_have_filter w')
  ∧ (ed_begin ui = true → any_joinable w = false → all_have_filter w').
Proof. apply show_filtergraph_editor_filters. Qed.

Lemma editor_keeps_filters_witness :
  (all_have_filter linked_world → all_have_filter sink_removed)
  ∧ (ed_begin (delete_nodes [2]) = true → any_joinable linked_world = false →
     all_have_filter sink_removed).
Proof. apply (editor_keeps_filters (delete_nodes [2]) linked_world sink_removed []). reflexivity. Defined.

(** ** Deleting selected links *)

Lemma erase_link_spec (k : nat) (w : World) :
  erase_link (Z.of_nat k) w
  = if decide (k < length (filter_links w))%nat
    then (Normal tt, set_filter_links (delete k (filter_links w)) w, [])
    else (Undefined, w, []).
Proof.
  unfold erase_link, erase_at. run_m.
  case_decide.
  - replace ((0 <=? Z.of_nat k) && (Z.of_nat k <? Z.of_nat (length (filter_links w))))
      with true by (symmetry; apply andb_true_iff; split; lia).
    cbn. by rewrite Nat2Z.id.
  - replace ((0 <=? Z.of_nat k) && (Z.of_nat k <? Z.of_nat (length (filter_links w))))
      with false by (symmetry; apply andb_false_iff; right; lia).
    done.
Qed.

Lemma erase_selected_links_two (a b : nat) (w : World) :
  erase_selected_links [Z.of_nat a; Z.of_nat b] w
  = if decide (length (filter_links w) = 0%nat) then (Normal tt, w, [])
    else if decide (a < length (filter_links w))%nat then
      let l1 := delete a (filter_links w) in
      if decide (length l1 = 0%nat) then (Normal tt, set_filter_links l1 w, [])
      else if decide (b < length l1)%nat
           then (Normal tt, set_filter_links (delete b l1) w, [])
           else (Undefined, set_filter_links l1 w, [])
    else (Undefined, w, []).
Proof.
  cbn [erase_selected_links]. rewrite bind_unfold. cbn.
  case_decide; [done|]. rewrite bind_unfold, erase_link_spec.
  case_decide; [|done]. rewrite bind_unfold. cbn.
  case_decide; [done|]. rewrite bind_unfold, erase_link_spec. cbn.
  by case_decide.
Qed.

(** X9.  The ids of the selected links are applied one after the other to
    the list as it shrinks.  Given in descending order, two ids remove the
    two links they name.  Given in ascending order [i < j], the second erase
    hits what was link [j + 1]: link [j] stays in the list and link [j + 1]
    is removed instead, and when [j] names the last link the erase is out of
    range. *)
Theorem erase_selected_links_in_order (w : World) (i j : nat) :
  (i < j)%nat → (j < length (filter_links w))%nat →
  (∃ w', erase_selected_links [Z.of_nat j; Z.of_nat i] w = (Normal tt, w', [])
     ∧ filter_links w' = delete i (delete j (filter_links w))
     ∧ ∀ k, filter_links w' !! k
            = filter_links w !! (if decide (k < i)%nat then k
                                 else if decide (S k < j)%nat then S k else S (S k)))
  ∧ ((S j < length (filter_links w))%nat →
     ∃ w', erase_selected_links [Z.of_nat i; Z.of_nat j] w = (Normal tt, w', [])
       ∧ filter_links w' = delete j (delete i (filter_links w))
       ∧ filter_links w' !! (j - 1)%nat = filter_links w !! j
       ∧ ∀ k, (j ≤ k)%nat → filter_links w' !! k = filter_links w !! S (S k))
  ∧ (S j = length (filter_links w) →
     (erase_selected_links [Z.of_nat i; Z.of_nat j] w).1.1 = Undefined).
Proof.
  intros Hij Hj.
  assert (Hlen : ∀ n, (n < length (filter_links w))%nat →
            length (delete n (filter_links w)) = (length (filter_links w) - 1)%nat).
  { intros n Hn. rewrite length_delete by (apply lookup_lt_is_Some; lia). lia. }
  split; [|split].
  - rewrite erase_selected_links_two. cbn zeta. rewrite Hlen by done.
    rewrite decide_False, decide_True, decide_False, decide_True by lia.
    eexists. split; [reflexivity|]. cbn. split; [done|].
    intros k. rewrite !list_lookup_delete. repeat case_decide; try lia; done.
  - intros Hlast. rewrite erase_selected_links_two. cbn zeta. rewrite Hlen by lia.
    rewrite decide_False, decide_True, decide_False, decide_True by lia.
    eexists. split; [reflexivity|]. cbn. split; [done|]. split.
    + rewrite !list_lookup_delete. repeat case_decide; try lia. f_equal. lia.
    + intros k Hk. rewrite !list_lookup_delete. repeat case_decide; try lia; done.
  - intros Hlast. rewrite erase_selected_links_two. cbn zeta. rewrite Hlen by lia.
    by rewrite decide_False, decide_True, decide_False, decide_False by lia.
Qed.

Lemma erase_selected_links_in_order_witness :
  (∃ w', erase_selected_links [1; 0] three_links = (Normal tt, w', [])
     ∧ filter_links w' = [(1, 3)])
  ∧ (∃ w', erase_selected_links [0; 1] three_links = (Normal tt, w', [])
       ∧ filter_links w' = [(4, 6)])
  ∧ (erase_selected_links [0; 1] hue_edited).1.1 = Undefined.
Proof.
  destruct (erase_selected_links_in_order three_links 0 1) as (Hd & Ha & _);
    [lia|vm_compute; lia|].
  destruct (erase_selected_links_in_order hue_edited 0 1) as (_ & _ & Hu);
    [lia|vm_compute; lia|].
  split; [|split].
  - destruct Hd as (w' & Heq & Hl & _). exists w'. split; [exact Heq|]. by rewrite Hl.
  - destruct Ha as (w' & Heq & Hl & _); [vm_compute; lia|].
    exists w'. split; [exact Heq|]. by rewrite Hl.
  - by apply Hu.
Defined.

(** ** The producer thread: locking, termination, back pressure *)

Lemma mutex_ok_app (t1 t2 : list WorkerEvent) : ∀ held,
  mutex_ok held (t1 ++ t2) = mutex_ok held t1 ≫= λ h, mutex_ok h t2.
Proof.
  induction t1 as [|e t1 IH]; intros held; [done|].
  cbn. destruct e, held; cbn; try done; apply IH.
Qed.

(** The inner loop in closed form: it makes no pull when a frame is
    waiting, and one pull otherwise. *)
Lemma pull_loop_closed (fuel : nat) (env : Env) (s : BufferSink) (np : nat) :
  pull_loop (S fuel) env s np
  = if uploaded_frame s then (Exited, s, np, [])
    else if terminal (env_pull env np)
         then (Exited, s, S np, [WUnlock; WUnref; WPull (env_pull env np); WLock])
         else (Exited, set_uploaded_frame true s, S np,
               [WUnlock; WUnref; WPull (env_pull env np); WLock; WPublish]).
Proof.
  cbn [pull_loop]. destruct (uploaded_frame s); [done|].
  destruct (terminal _); [done|]. by destruct fuel.
Qed.

Lemma worker_loop_step (fuel : nat) (env : Env) (s : BufferSink) (k np : nat) :
  worker_loop (S fuel) env s k np
  = let s0 := if env_swapped env k && uploaded_frame s then swap_frames s else s in
    if negb (bool_decide (is_Some (sink_ctx s0))) then (Exited, s0, np, [])
    else if env_reinit env k then (Exited, s0, np, [])
    else
      let '(_, s1, np1, t1) := pull_loop (S fuel) env s0 np in
      let '(st, s2, np2, t3) := worker_loop fuel env s1 (S k) np1 in
      (st, s2, np2,
       (WLock :: t1 ++ [WUnlock] ++ (if env_paused env k then [WSleep] else [])) ++ t3).
Proof.
  cbn [worker_loop]. cbn zeta.
  destruct (negb _); [done|]. destruct (env_reinit env k); [done|].
  rewrite pull_loop_closed.
  destruct (uploaded_frame _); [done|]. by destruct (terminal _).
Qed.

Lemma worker_loop_mutex (env : Env) (fuel : nat) : ∀ (s : BufferSink) (k np : nat),
  mutex_ok false (worker_loop fuel env s k np).2 = Some false.
Proof.
  induction fuel as [|fuel IH]; intros s k np; [done|].
  rewrite worker_loop_step. cbn zeta.
  destruct (negb _); [done|]. destruct (env_reinit env k); [done|].
  rewrite pull_loop_closed.
  set (s0 := if _ && _ then _ else _).
  destruct (uploaded_frame s0); [|destruct (terminal _)];
    (match goal with |- context [worker_loop fuel env ?S ?K ?N] =>
       specialize (IH S K N); destruct (worker_loop fuel env S K N) as [[[st s2] np2] t3]
     end; cbn in *; by destruct (env_paused env k)).
Qed.

(** X10.  The producer thread keeps the discipline of its mutex on every
    path, the failed pull included: it locks only a free mutex and unlocks
    only a held one, it sets [uploaded_frame] and frees the buffers with the
    mutex held, it unreferences the frame, calls the engine and sleeps
    without it, and it holds nothing when it has returned or between two
    iterations. *)
Theorem worker_thread_mutex (fuel : nat) (env : Env) (s : BufferSink) :
  mutex_ok false (worker_thread fuel env s).2 = Some false.
Proof.
  unfold worker_thread. pose proof (worker_loop_mutex env fuel s 0 0) as H.
  destruct (worker_loop fuel env s 0 0) as [[[[] s1] np1] t]; cbn in *; [|done].
  by rewrite mutex_ok_app, H.
Qed.

Lemma pulls_app (t1 t2 : list WorkerEvent) : pulls (t1 ++ t2) = (pulls t1 + pulls t2)%nat.
Proof. induction t1 as [|e t1 IH]; cbn; [done|]. rewrite IH. lia. Qed.

Lemma publishes_app (t1 t2 : list WorkerEvent) :
  publishes (t1 ++ t2) = (publishes t1 + publishes t2)%nat.
Proof. induction t1 as [|e t1 IH]; cbn; [done|]. rewrite IH. lia. Qed.

Lemma worker_loop_exits (env : Env) (n : nat) : ∀ (fuel : nat) (s : BufferSink) (k np : nat),
  env_reinit env (k + n) = true → (n < fuel)%nat →
  ∃ s' np' t, worker_loop fuel env s k np = (Exited, s', np', t)
    ∧ (pulls t ≤ n)%nat ∧ np' = (np + pulls t)%nat.
Proof.
  induction n as [|n IH]; intros [|fuel] s k np Hre Hfuel; try lia.
  - rewrite Nat.add_0_r in Hre. rewrite worker_loop_step. cbn zeta. rewrite Hre.
    destruct (negb _); eexists _, _, _; (split; [reflexivity|]); cbn; lia.
  - rewrite worker_loop_step. cbn zeta.
    destruct (negb _); [eexists _, _, _; (split; [reflexivity|]); cbn; lia|].
    destruct (env_reinit env k); [eexists _, _, _; (split; [reflexivity|]); cbn; lia|].
    rewrite pull_loop_closed.
    set (s0 := if _ && _ then _ else _).
    destruct (uploaded_frame s0); [|destruct (terminal _)];
      (match goal with |- context [worker_loop fuel env ?s1 ?k1 ?n1] =>
         destruct (IH fuel s1 k1 n1) as (s' & np' & t & -> & Hp & ->);
           [by replace (S k + n)%nat with (k + S n)%nat by lia|lia|]
       end;
       eexists _, _, _; (split; [reflexivity|]);
       rewrite !pulls_app; destruct (env_paused env k); cbn; lia).
Qed.

(** X11.  The thread returns once it sees [need_filters_reinit] at a test
    of its outer loop, whatever the engine answers in between: with the flag
    set at the [n]-th test it has made at most [n] pulls, it has released
    the label and both frames under the mutex, and a join on it does not
    wait for more than that. *)
Theorem worker_thread_exits (env : Env) (s : BufferSink) (n fuel : nat) :
  env_reinit env n = true → (n < fuel)%nat →
  ∃ s' t0, worker_thread fuel env s = (Exited, s', t0 ++ [WLock; WFree; WUnlock])
    ∧ (pulls t0 ≤ n)%nat
    ∧ sink_label s' = None ∧ a_frame s' = None ∧ b_frame s' = None.
Proof.
  intros Hre Hfuel.
  destruct (worker_loop_exits env n fuel s 0 0) as (s1 & np1 & t & Heq & Hp & _);
    [done..|].
  unfold worker_thread. rewrite Heq. by eexists _, _.
Qed.

Lemma worker_thread_exits_witness :
  ∃ s' t0, worker_thread 3 (env_rebuild_at 2) started_sink
           = (Exited, s', t0 ++ [WLock; WFree; WUnlock])
    ∧ (pulls t0 ≤ 2)%nat
    ∧ sink_label s' = None ∧ a_frame s' = None ∧ b_frame s' = None.
Proof. apply (worker_thread_exits (env_rebuild_at 2) started_sink 2 3); [reflexivity|lia]. Defined.

(** X12.  One pass of the inner loop makes no pull when a frame is waiting
    and exactly one pull otherwise.  The frame is published unless that pull
    failed with an error other than EAGAIN: a pull that returns EAGAIN is
    treated like one that returned a frame, and sets [uploaded_frame]. *)
Theorem pull_loop_pulls_once (fuel : nat) (env : Env) (s : BufferSink) (np : nat) :
  (∃ s' np' t, pull_loop (S fuel) env s np = (Exited, s', np', t)
     ∧ np' = (np + pulls t)%nat
     ∧ (if uploaded_frame s then t = [] ∧ s' = s
        else pulls t = 1%nat
             ∧ uploaded_frame s' = negb (terminal (env_pull env np))
             ∧ publishes t = (if terminal (env_pull env np) then 0 else 1)%nat))
  ∧ terminal (AVERROR EAGAIN) = false
  ∧ (∀ r, 0 ≤ r → terminal r = false).
Proof.
  split; [|split; [done|]].
  - rewrite pull_loop_closed. destruct (uploaded_frame s) eqn:Hu.
    + eexists _, _, _. split; [reflexivity|]. cbn. split; [lia|done].
    + destruct (terminal _); eexists _, _, _; (split; [reflexivity|]); cbn;
        (split; [lia|done]).
  - intros r Hr. unfold terminal. destruct (r <? 0) eqn:H; [|done].
    apply Z.ltb_lt in H. lia.
Qed.

Lemma worker_loop_publishes (env : Env) (fuel : nat) : ∀ (s : BufferSink) (k np : nat),
  (publishes (worker_loop fuel env s k np).2
   ≤ swaps_seen env k fuel + if uploaded_frame s then 0 else 1)%nat.
Proof.
  induction fuel as [|fuel IH]; intros s k np; [cbn; lia|].
  rewrite worker_loop_step. cbn zeta. cbn [swaps_seen].
  destruct (negb _); [cbn; lia|]. destruct (env_reinit env k); [cbn; lia|].
  rewrite pull_loop_closed.
  destruct (env_swapped env k), (uploaded_frame s) eqn:Hu; cbn [andb]; rewrite ?Hu;
    cbn [swap_frames uploaded_frame];
    try destruct (terminal _);
    (match goal with |- context [worker_loop fuel env ?s1 ?k1 ?n1] =>
       specialize (IH s1 k1 n1);
       destruct (worker_loop fuel env s1 k1 n1) as [[[st s2] np2] t3]
     end; cbn in IH |- *; rewrite ?Hu in IH;
     rewrite !publishes_app; destruct (env_paused env k); cbn; lia).
Qed.

Lemma worker_loop_idle (env : Env) (fuel : nat) : ∀ (s : BufferSink) (k np : nat),
  (∀ j, env_swapped env j = false) → uploaded_frame s = true →
  pulls (worker_loop fuel env s k np).2 = 0%nat.
Proof.
  induction fuel as [|fuel IH]; intros s k np Hsw Hu; [done|].
  rewrite worker_loop_step. cbn zeta. rewrite Hsw. cbn [andb].
  destruct (negb _); [done|]. destruct (env_reinit env k); [done|].
  rewrite pull_loop_closed, Hu.
  specialize (IH s (S k) np Hsw Hu).
  destruct (worker_loop fuel env s (S k) np) as [[[st s2] np2] t3].
  cbn in *. rewrite !pulls_app. destruct (env_paused env k); cbn; lia.
Qed.

(** X13.  The producer stays at most one frame ahead of the render loop:
    the number of frames it publishes is at most the number of swaps it has
    seen, plus one if no frame was waiting when it started.  While a
    published frame waits and the render loop does not swap, the thread
    makes no pull at all. *)
Theorem producer_one_frame_ahead (env : Env) (fuel : nat) (s : BufferSink) :
  (publishes (worker_thread fuel env s).2
   ≤ swaps_seen env 0 fuel + if uploaded_frame s then 0 else 1)%nat
  ∧ ((∀ j, env_swapped env j = false) → uploaded_frame s = true →
     pulls (worker_thread fuel env s).2 = 0%nat).
Proof.
  unfold worker_thread.
  pose proof (worker_loop_publishes env fuel s 0 0) as Hp.
  pose proof (worker_loop_idle env fuel s 0 0) as Hi.
  destruct (worker_loop fuel env s 0 0) as [[[[] s1] np1] t]; cbn in *.
  - rewrite publishes_app, pulls_app. cbn. split; [lia|].
    intros Hsw Hu. rewrite Hi by done. done.
  - done.
Qed.

(** ** [filters_setup] on every path *)

Lemma hoare_ret {A} (P : World → Prop) (a : A) (Qe : Z → World → Prop) :
  hoare P (mret a) (λ a' w, a' = a ∧ P w) Qe.
Proof. by intros w Hw. Qed.

Lemma hoare_bind {A B} (P : World → Prop) (m : M A) (k : A → M B)
    (Q : A → World → Prop) (Rn : B → World → Prop) (Qe : Z → World → Prop) :
  hoare P m Q Qe → (∀ a, hoare (Q a) (k a) Rn Qe) → hoare P (m ≫= k) Rn Qe.
Proof.
  intros Hm Hk w Hw. rewrite bind_unfold. specialize (Hm w Hw).
  destruct (m w) as [[[a|r|] w1] t1]; [|done..].
  specialize (Hk a w1 Hm). by destruct (k a w1) as [[[b|r|] w2] t2].
Qed.

Lemma hoare_weaken {A} (P P' : World → Prop) (m : M A)
    (Qn Qn' : A → World → Prop) (Qe Qe' : Z → World → Prop) :
  hoare P m Qn Qe → (∀ w, P' w → P w) → (∀ a w, Qn a w → Qn' a w) →
  (∀ r w, Qe r w → Qe' r w) → hoare P' m Qn' Qe'.
Proof.
  intros H HP Hn He w Hw. specialize (H w (HP w Hw)).
  destruct (m w) as [[[a|r|] w1] t1]; auto.
Qed.

Lemma hoare_for_range (I : World → Prop) (Qe : Z → World → Prop)
    (body : nat → M unit) (n : nat) :
  (∀ i, hoare I (body i) (λ _, I) Qe) →
  ∀ from, hoare I (for_range from n body) (λ _, I) Qe.
Proof.
  intros Hb. induction n as [|n IH]; intros from; cbn [for_range].
  - by intros w Hw.
  - eapply hoare_bind; [apply Hb|]. intros ?. apply IH.
Qed.

Lemma loop_frame_refl (w : World) : loop_frame w w.
Proof. by repeat split. Qed.

Lemma loop_frame_trans (w1 w2 w3 : World) :
  loop_frame w1 w2 → loop_frame w2 w3 → loop_frame w1 w3.
Proof.
  unfold loop_frame. intros (?&?&?&?&?&?&?&?&?&?&?) (?&?&?&?&?&?&?&?&?&?&?).
  repeat split; congruence.
Qed.

(** A step of the node loop changes nothing outside its frame, keeps the
    threads, and jumps to [error:] only with a negative [ret]. *)
Lemma setup_node_hoare (eng : Engine) (i : nat) (w0 : World) (ts : list Thread) :
  hoare (λ w, loop_frame w0 w ∧ video_sink_threads w = ts) (setup_node eng i)
        (λ _ w, loop_frame w0 w ∧ video_sink_threads w = ts)
        (λ r w, r < 0 ∧ loop_frame w0 w ∧ video_sink_threads w = ts).
Proof.
  intros w [Hw Hts].
  assert (Hstep : match setup_node eng i w with
                  | (Normal _, w', _) => loop_frame w w' ∧ video_sink_threads w' = ts
                  | (GotoError r, w', _) =>
                      r < 0 ∧ loop_frame w w' ∧ video_sink_threads w' = ts
                  | (Undefined, _, _) => True
                  end).
  { unfold setup_node, loop_frame, kinds. run_m.
    destruct (filter_nodes w !! i) as [nd|]; [|done].
    destruct (node_filter nd) as [f|] eqn:Hf; cbn; [|done].
    destruct (avfilter_graph_alloc_filter eng i); cbn; [|done].
    destruct (is_buffersink f); cbn;
    destruct (av_opt_set_int_list eng i <? 0) eqn:H1; cbn;
    destruct ((av_opt_serialize_ctx eng i).1 <? 0) eqn:H2; cbn;
    destruct ((av_opt_serialize_priv eng i).1 <? 0) eqn:H3; cbn;
    destruct (av_opt_set_from_string_ctx eng i <? 0) eqn:H4; cbn;
    destruct (av_opt_set_from_string_priv eng i <? 0) eqn:H5; cbn;
    destruct (avfilter_init_str eng i <? 0) eqn:H6; cbn;
    rewrite ?kinds_alter by done; repeat split; try done; lia. }
  destruct (setup_node eng i w) as [[[a|r|] w1] t1]; [| |done].
  - destruct Hstep. split; [by eapply loop_frame_trans|done].
  - destruct Hstep as (? & ? & ?). split; [done|]. split; [by eapply loop_frame_trans|done].
Qed.

Lemma setup_link_hoare (eng : Engine) (i : nat) (I : World → Prop) :
  hoare I (setup_link eng i) (λ _, I) (λ r w, r < 0 ∧ I w).
Proof.
  intros w Hw. unfold setup_link. run_m.
  destruct (filter_links w !! i) as [p|]; [|done].
  destruct (at_int (edge2pad w) p.1), (at_int (edge2pad w) p.2); try done.
  case_decide; cbn; [done|].
  destruct (avfilter_link eng i <? 0) eqn:Hl; cbn; [|done].
  split; [lia|done].
Qed.

Lemma build_graph_cases (eng : Engine) (w : World) :
  match build_graph eng w with
  | (Normal r, w', _) =>
      0 ≤ r ∧ graphdump_text w' = avfilter_graph_dump eng
      ∧ show_buffersink_window w' = true ∧ show_dumpgraph_window w' = true
      ∧ is_Some (filter_graph w')
      ∧ mutexes w' = 0%nat ∧ video_sink_threads w' = video_sink_threads w
      ∧ need_filters_reinit w' = need_filters_reinit w ∧ rebuild_frame w w'
  | (GotoError r, w', _) =>
      r < 0 ∧ graphdump_text w' = None
      ∧ show_buffersink_window w' = show_buffersink_window w
      ∧ show_dumpgraph_window w' = show_dumpgraph_window w
      ∧ mutexes w' = 0%nat ∧ video_sink_threads w' = video_sink_threads w
      ∧ need_filters_reinit w' = need_filters_reinit w ∧ rebuild_frame w w'
  | (Undefined, _, _) => True
  end.
Proof.
  unfold build_graph, rebuild_frame. run_m.
  destruct (avfilter_graph_alloc eng); cbn; [|by repeat split].
  match goal with |- context [for_range 0 ?n (setup_node eng) ?W] =>
    set (W0 := W);
    pose proof (hoare_for_range _ _ (setup_node eng) n
                  (λ i, setup_node_hoare eng i W0 (video_sink_threads w)) 0 W0
                  (conj (loop_frame_refl W0) eq_refl)) as Hnodes
  end.
  destruct (for_range 0 _ (setup_node eng) W0) as [[[[]|r|] w1] t1]; [| |done].
  2:{ destruct Hnodes as (Hr & (?&?&?&?&?&?&?&?&?&?&?) & ?). by repeat split. }
  destruct Hnodes as [Hfr Hts].
  match goal with |- context [for_range 0 ?n (setup_link eng) ?W] =>
    pose proof (hoare_for_range _ _ (setup_link eng) n
                  (λ i, setup_link_hoare eng i (λ w', w' = w1)) 0 W eq_refl) as Hlinks
  end.
  destruct (for_range 0 _ (setup_link eng) w1) as [[[[]|r|] w2] t2]; [| |done].
  2:{ destruct Hlinks as [Hr ->]. destruct Hfr as (?&?&?&?&?&?&?&?&?&?&?).
      by repeat split. }
  subst w2. destruct Hfr as (?&?&?&?&?&?&?&?&?&?&?).
  destruct (avfilter_graph_config eng <? 0) eqn:Hc; cbn.
  - apply Z.ltb_lt in Hc. by repeat split.
  - apply Z.ltb_ge in Hc. by repeat split.
Qed.

Lemma spawn_loop_frame (eng : Engine) (n : nat) : ∀ (i : nat) (w : World),
  let w' := (for_range i n (spawn_sink eng) w).1.2 in
  loop_frame w w' ∧ filter_graph w' = filter_graph w.
Proof.
  induction n as [|n IH]; intros i w; [by split; [apply loop_frame_refl|]|].
  cbn zeta. rewrite for_range_S.
  assert (Hstep : ∃ w1 t1, spawn_sink eng i w = (Normal tt, w1, t1)
                    ∧ loop_frame w w1 ∧ filter_graph w1 = filter_graph w).
  { unfold spawn_sink. run_m. eexists _, _. split; [reflexivity|]. by repeat split. }
  destruct Hstep as (w1 & t1 & -> & Hfr & Hg).
  destruct (IH (S i) w1) as [Hfr2 Hg2].
  destruct (for_range (S i) n (spawn_sink eng) w1) as [[o w2] t2]. cbn in *.
  split; [by eapply loop_frame_trans|congruence].
Qed.

(** The two ways [filters_setup] returns from a rebuild of a non-empty node
    set. *)
Lemma filters_setup_cases (eng : Engine) (w : World) :
  need_filters_reinit w = true → filter_nodes w ≠ [] →
  match filters_setup eng w with
  | (Return ret, w', _) =>
      need_filters_reinit w' = false ∧ rebuild_frame w w'
      ∧ ((ret = 0
          ∧ graphdump_text w' = avfilter_graph_dump eng
          ∧ show_buffersink_window w' = true ∧ show_dumpgraph_window w' = true
          ∧ is_Some (filter_graph w')
          ∧ mutexes w' = length (buffer_sinks w')
          ∧ length (video_sink_threads w') = length (buffer_sinks w')
          ∧ (∀ j, (j < length (buffer_sinks w'))%nat →
               video_sink_threads w' !! j = Some (Started j false)))
         ∨ (ret < 0
            ∧ graphdump_text w' = None
            ∧ show_buffersink_window w' = show_buffersink_window w
            ∧ show_dumpgraph_window w' = show_dumpgraph_window w
            ∧ mutexes w' = 0%nat ∧ video_sink_threads w' = []))
  | (Crash, _, _) => True
  end.
Proof.
  intros Hflag Hnodes. rewrite filters_setup_unfold by done. cbn zeta.
  case_decide as Hlen; [by destruct (filter_nodes w)|].
  set (w1 := set_need_filters_reinit false (set_video_sink_threads [] w)).
  pose proof (build_graph_cases eng w1) as Hb. unfold rebuild_frame in Hb.
  change (framestep w1) with (framestep w) in Hb.
  change (paused w1) with (paused w) in Hb.
  change (filter_links w1) with (filter_links w) in Hb.
  change (edge2type w1) with (edge2type w) in Hb.
  change (edge2pad w1) with (edge2pad w) in Hb.
  change (kinds w1) with (kinds w) in Hb.
  change (need_filters_reinit w1) with false in Hb.
  change (video_sink_threads w1) with (@nil Thread) in Hb.
  change (show_buffersink_window w1) with (show_buffersink_window w) in Hb.
  change (show_dumpgraph_window w1) with (show_dumpgraph_window w) in Hb.
  destruct (build_graph eng w1) as [[[r|r|] w2] t2]; [| |done].
  - destruct Hb as (Hr & Htext & Hs1 & Hs2 & Hg & Hm & Ht & Hf & Hfr).
    destruct (r <? 0) eqn:Hneg; [apply Z.ltb_lt in Hneg; lia|].
    run_m.
    match goal with |- context [for_range 0 ?n (spawn_sink eng) ?W] =>
      destruct (spawn_loop_spec eng n 0 W)
        as (w3 & t3 & Hsp & Hs3 & Hm3 & Hn3 & Hl3 & Hnew & _);
        [by cbn; rewrite length_replicate|];
      destruct (spawn_loop_frame eng n 0 W) as [Hfr3 Hg3]
    end.
    rewrite Hsp in *. cbn in Hs3, Hm3, Hn3, Hl3, Hfr3, Hg3.
    destruct Hfr3 as (H1&H2&H3&H4&H5&H6&H7&H8&H9&H10&H11).
    cbn in H1, H2, H3, H4, H5, H6, H7, H8, H9, H10, H11. fold (kinds w2) in H11.
    destruct Hfr as (?&?&?&?&?&?). unfold rebuild_frame.
    split; [congruence|]. split; [repeat split; congruence|]. left.
    split; [done|]. split; [congruence|]. split; [congruence|]. split; [congruence|].
    split; [congruence|]. split; [congruence|]. split; [congruence|].
    intros j Hj. apply Hnew. lia.
  - destruct Hb as (Hr & Htext & Hs1 & Hs2 & Hm & Ht & Hf & Hfr).
    destruct (r <? 0) eqn:Hneg; [|apply Z.ltb_ge in Hneg; lia].
    split; [done|]. split; [done|]. right. by repeat split.
Qed.

(** X14.  A rebuild is attempted once per request.  Whenever
    [filters_setup] returns, on success and on every error path,
    [need_filters_reinit] is clear, so that the call of the next frame
    returns 0 without any effect: a failed rebuild is not tried again until
    the flag is set anew.  The pause state, the links, the slot tables and
    the kinds of the nodes are as they were. *)
Theorem filters_setup_once (eng : Engine) (w w' : World) (ret : Z) (t : list Event) :
  filters_setup eng w = (Return ret, w', t) →
  need_filters_reinit w' = false
  ∧ (∀ eng', filters_setup eng' w' = (Return 0, w', []))
  ∧ rebuild_frame w w'.
Proof.
  intros Hrun.
  assert (H : need_filters_reinit w' = false ∧ rebuild_frame w w').
  { destruct (need_filters_reinit w) eqn:Hflag.
    - destruct (filter_nodes w) as [|nd nodes] eqn:Hnodes.
      + rewrite filters_setup_unfold in Hrun by done. cbn zeta in Hrun.
        rewrite Hnodes in Hrun. cbn in Hrun. injection Hrun as _ <- _.
        by repeat split.
      + pose proof (filters_setup_cases eng w Hflag) as Hc. rewrite Hrun in Hc.
        destruct Hc as (? & ? & _); [by rewrite Hnodes|done].
    - unfold filters_setup in Hrun. rewrite Hflag in Hrun. injection Hrun as _ <- _.
      by repeat split. }
  destruct H as [Hf Hfr]. split; [done|]. split; [|done].
  intros eng'. unfold filters_setup. by rewrite Hf.
Qed.

Lemma filters_setup_once_witness :
  need_filters_reinit (filters_setup engine_config_fails lone_sink).1.2 = false
  ∧ (∀ eng', filters_setup eng' (filters_setup engine_config_fails lone_sink).1.2
             = (Return 0, (filters_setup engine_config_fails lone_sink).1.2, []))
  ∧ rebuild_frame lone_sink (filters_setup engine_config_fails lone_sink).1.2.
Proof.
  apply (filters_setup_once engine_config_fails lone_sink _ (AVERROR EINVAL)
           (filters_setup engine_config_fails lone_sink).2).
  by vm_compute.
Defined.

(** X15.  The graph dump follows the last rebuild of a non-empty node set.
    After a successful one [graphdump_text] is the engine's dump of the new
    graph and both the sink windows and the dump window are flagged open;
    after a failed one the text is gone, the dump window shows nothing
    whether or not it is open, and the two window flags are as they
    were. *)
Theorem filters_setup_dump (eng : Engine) (w w' : World) (ret : Z) (t : list Event) :
  need_filters_reinit w = true → filter_nodes w ≠ [] →
  filters_setup eng w = (Return ret, w', t) →
  (ret = 0
   ∧ graphdump_text w' = avfilter_graph_dump eng
   ∧ (∀ b, show_dumpgraph b w' = if b then avfilter_graph_dump eng else None)
   ∧ show_buffersink_window w' = true ∧ show_dumpgraph_window w' = true)
  ∨ (ret < 0
     ∧ graphdump_text w' = None
     ∧ (∀ b, show_dumpgraph b w' = None)
     ∧ show_buffersink_window w' = show_buffersink_window w
     ∧ show_dumpgraph_window w' = show_dumpgraph_window w).
Proof.
  intros Hflag Hnodes Hrun.
  pose proof (filters_setup_cases eng w Hflag Hnodes) as Hc. rewrite Hrun in Hc.
  destruct Hc as (_ & _ & [(-> & Htext & Hs1 & Hs2 & [g Hg] & _)|(Hr & Htext & Hs1 & Hs2 & _)]).
  - left. split; [done|]. split; [done|]. split; [|done].
    intros b. unfold show_dumpgraph. rewrite Htext, Hg.
    by destruct (avfilter_graph_dump eng), b.
  - right. split; [done|]. split; [done|]. split; [|done].
    intros b. unfold show_dumpgraph. by rewrite Htext.
Qed.

Lemma filters_setup_dump_witness :
  graphdump_text running_world = Some "testsrc0 -> buffersink1"
  ∧ show_dumpgraph true running_world = Some "testsrc0 -> buffersink1"
  ∧ show_dumpgraph true (filters_setup engine_config_fails lone_sink).1.2 = None.
Proof.
  destruct (filters_setup_dump engine_ok linked_world running_world 0
              (filters_setup engine_ok linked_world).2 eq_refl)
    as [(_ & H1 & H2 & _)|(H & _)]; [discriminate|by vm_compute| |lia].
  destruct (filters_setup_dump engine_config_fails lone_sink
              (filters_setup engine_config_fails lone_sink).1.2 (AVERROR EINVAL)
              (filters_setup engine_config_fails lone_sink).2 eq_refl)
    as [(H & _)|(_ & _ & H3 & _)]; [discriminate|by vm_compute|discriminate H|].
  split; [exact H1|]. split; [exact (H2 true)|exact (H3 true)].
Defined.

(** X16.  A failed rebuild leaves the program idle but usable: there is no
    thread, so the editor accepts removals and links again; the command
    window returns before it draws anything and sends no command, whatever
    is clicked; and the render loop draws no output. *)
Theorem failed_rebuild_is_inert (eng : Engine) (w w' : World) (ret : Z) (t : list Event) :
  need_filters_reinit w = true → filter_nodes w ≠ [] →
  filters_setup eng w = (Return ret, w', t) → ret < 0 →
  any_joinable w' = false
  ∧ (∀ ui st, show_commands ui w' st = Some (st, []))
  ∧ (∀ uis published, render_sinks uis published w' = (w', [])).
Proof.
  intros Hflag Hnodes Hrun Hret.
  pose proof (filters_setup_cases eng w Hflag Hnodes) as Hc. rewrite Hrun in Hc.
  destruct Hc as (_ & _ & [(-> & _)|(_ & _ & _ & _ & Hm & Ht)]); [lia|].
  split; [unfold any_joinable; by rewrite Ht|]. split.
  - intros ui st. unfold show_commands. destruct (filter_graph w'); [|done].
    rewrite Hm. destruct (buffer_sinks w'); by cbn.
  - intros uis published. unfold render_sinks. rewrite Hm.
    case_decide as Hz; [|done]. by rewrite <- Hz.
Qed.

Lemma failed_rebuild_is_inert_witness :
  let w' := (filters_setup engine_config_fails lone_sink).1.2 in
  any_joinable w' = false
  ∧ (∀ ui st, show_commands ui w' st = Some (st, []))
  ∧ (∀ uis published, render_sinks uis published w' = (w', [])).
Proof.
  apply (failed_rebuild_is_inert engine_config_fails lone_sink _ (AVERROR EINVAL)
           (filters_setup engine_config_fails lone_sink).2); by vm_compute.
Defined.

(** ** The outputs follow the node order *)












(** ** The main loop *)

Lemma drain_on_close_spec (w : World) :
  drain_on_close w
  = if negb (show_buffersink_window w) && bool_decide (0 < length (video_sink_threads w))%nat
    then (Normal tt, set_need_filters_reinit false (set_video_sink_threads [] w),
          join_from 0 (video_sink_threads w) ++ [EvThreadsClear])
    else (Normal tt, w, []).
Proof.
  unfold drain_on_close. rewrite bind_unfold. cbn.
  destruct (negb _ && _); [|done].
  rewrite bind_unfold. cbn. rewrite bind_unfold, join_all_spec. cbn.
  by rewrite app_nil_r.
Qed.



Lemma render_sink_frame (ui : FrameUI) (published : bool) (i : nat) (w : World) :
  let w' := (render_sink ui published i w).1 in
  video_sink_threads w' = video_sink_threads w ∧ mutexes w' = mutexes w
  ∧ filter_nodes w' = filter_nodes w
  ∧ length (buffer_sinks w') = length (buffer_sinks w).
Proof.
  unfold render_sink. destruct (buffer_sinks w !! i) as [s|]; [|done].
  destruct (draw_frame _ _ _ _ _ _) as [[shown s1] [[op p] f]]. cbn.
  by rewrite length_insert.
Qed.

Lemma render_from_frame (uis : nat → FrameUI) (published : nat → bool) (n : nat) :
  ∀ (i : nat) (w : World),
  let w' := (render_from uis published i n w).1 in
  video_sink_threads w' = video_sink_threads w ∧ mutexes w' = mutexes w
  ∧ filter_nodes w' = filter_nodes w
  ∧ length (buffer_sinks w') = length (buffer_sinks w).
Proof.
  induction n as [|n IH]; intros i w; [done|]. cbn [render_from].
  destruct (render_sink_frame (uis i) (published i) i w) as (H1 & H2 & H3 & H4).
  destruct (render_sink (uis i) (published i) i w) as [w1 t1]. cbn in *.
  destruct (IH (S i) w1) as (H5 & H6 & H7 & H8).
  destruct (render_from uis published (S i) n w1) as [w2 t2]. cbn in *.
  repeat split; congruence.
Qed.

Lemma render_sinks_frame (uis : nat → FrameUI) (published : nat → bool) (w : World) :
  let w' := (render_sinks uis published w).1 in
  video_sink_threads w' = video_sink_threads w ∧ mutexes w' = mutexes w
  ∧ filter_nodes w' = filter_nodes w
  ∧ length (buffer_sinks w') = length (buffer_sinks w).
Proof. unfold render_sinks. case_decide; [apply render_from_frame|done]. Qed.

Lemma all_have_filter_kinds (w w' : World) :
  kinds w' = kinds w → all_have_filter w → all_have_filter w'.
Proof.
  unfold all_have_filter, kinds, has_filter. intros Hk Hw.
  apply (proj1 (Forall_fmap node_filter (λ k, k ≠ None) _)). rewrite Hk.
  by apply Forall_fmap.
Qed.

Lemma filters_setup_consistent (eng : Engine) (w w' : World) (ret : Z) (t : list Event) :
  filters_setup eng w = (Return ret, w', t) →
  (outputs_consistent w → outputs_consistent w')
  ∧ (all_have_filter w → all_have_filter w').
Proof.
  intros Hrun. destruct (need_filters_reinit w) eqn:Hflag.
  - destruct (filter_nodes w) as [|nd nodes] eqn:Hnodes.
    + rewrite filters_setup_unfold in Hrun by done. cbn zeta in Hrun.
      rewrite Hnodes in Hrun. cbn in Hrun. injection Hrun as _ <- _.
      split; [by left|]. unfold all_have_filter. cbn. by rewrite Hnodes.
    + pose proof (filters_setup_cases eng w Hflag) as Hc. rewrite Hrun in Hc.
      destruct Hc as (_ & Hfr & Hc); [by rewrite Hnodes|]. split.
      * intros _. destruct Hc as [(_&_&_&_&_&Hm&Hl&Hth)|(_&_&_&_&_&Ht)]; [right|by left].
        split; [done|]. split; [done|]. intros j th Hj.
        pose proof (lookup_lt_Some _ _ _ Hj) as Hlt. rewrite Hth in Hj by lia.
        injection Hj as <-. by eexists.
      * destruct Hfr as (_&_&_&_&_&Hk). by apply all_have_filter_kinds.
  - unfold filters_setup in Hrun. rewrite Hflag in Hrun. by injection Hrun as _ <- _.
Qed.

Lemma show_commands_latch (ui : CommandsUI) (w : World) (st st' : CommandsState)
    (cmds : list Command) :
  show_commands ui w st = Some (st', cmds) → no_toggle_pending st →
  no_toggle_pending st' ∧ (length cmds ≤ 1)%nat.
Proof.
  unfold show_commands, no_toggle_pending. intros Hrun Hst.
  destruct (filter_graph w) as [g|]; [|injection Hrun as <- <-; cbn; lia].
  destruct (_ || _); [injection Hrun as <- <-; cbn; lia|].
  destruct (negb (cm_begin ui)); [injection Hrun as <- <-; cbn; lia|].
  destruct (if cm_list_box ui then _ else _) as [st1|]; [|done]. cbn in Hrun.
  unfold send_toggle in Hrun. destruct (toggle_filter st1 <? UINT_MAX) eqn:Hlt.
  - destruct (at_int (filters g) (toggle_filter st1)); [|done].
    injection Hrun as <- <-. cbn. split; [reflexivity|lia].
  - injection Hrun as <- <-. apply Z.ltb_ge in Hlt. cbn. lia.
Qed.

Lemma frame_body_invariants (inp : FrameInput) (st st' : CommandsState) (w1 w' : World)
    (cmds : list Command) :
  frame_body inp st w1 = Some (w', st', cmds) →
  outputs_consistent w1 → all_have_filter w1 → no_toggle_pending st →
  outputs_consistent w' ∧ all_have_filter w' ∧ no_toggle_pending st'
  ∧ (length cmds ≤ 1)%nat.
Proof.
  unfold frame_body. intros Hrun1 Hout1 Hall1 Hst.
  destruct (filters_setup (in_engine inp) w1) as [[[ret|] w2] t2] eqn:Hfs; [|done].
  destruct (filters_setup_consistent _ _ _ _ _ Hfs) as [Hout2 Hall2].
  specialize (Hout2 Hout1). specialize (Hall2 Hall1). cbn zeta in Hrun1.
  destruct (render_sinks_frame (in_sinks inp) (in_published inp) w2) as (Ht3 & Hm3 & Hn3 & Hl3).
  set (w3 := (render_sinks (in_sinks inp) (in_published inp) w2).1) in *.
  assert (Hout3 : outputs_consistent w3).
  { unfold outputs_consistent. rewrite Ht3, Hm3, Hl3. exact Hout2. }
  assert (Hall3 : all_have_filter w3) by (unfold all_have_filter; by rewrite Hn3).
  destruct (if in_show_commands inp then _ else _) as [[st1 cmds1]|] eqn:Hcm; [|done].
  cbn in Hrun1.
  assert (Hst1 : no_toggle_pending st1 ∧ (length cmds1 ≤ 1)%nat).
  { destruct (in_show_commands inp).
    - by eapply show_commands_latch.
    - injection Hcm as <- <-. cbn. split; [done|lia]. }
  set (w4 := dumpgraph_window (in_dump_close inp) w3) in *.
  assert (H4 : outputs_consistent w4 ∧ all_have_filter w4).
  { unfold w4, dumpgraph_window. by destruct (_ && _). }
  destruct H4 as [Hout4 Hall4].
  destruct (in_show_editor inp).
  - destruct (show_filtergraph_editor (in_editor inp) w4) as [[[[]|r|] w5] t5] eqn:Hed;
      [|done..].
    injection Hrun1 as <- <- <-.
    destruct (show_filtergraph_editor_filters _ _ _ _ Hed) as [Hall5 _].
    pose proof (show_filtergraph_editor_outputs (in_editor inp) w4) as (Ht5 & Hs5 & Hm5 & _).
    rewrite Hed in Ht5, Hs5, Hm5. cbn in Ht5, Hs5, Hm5.
    split; [|by split; [apply Hall5|]].
    unfold outputs_consistent. by rewrite Ht5, Hs5, Hm5.
  - injection Hrun1 as <- <- <-. done.
Qed.

Lemma main_frame_invariants (inp : FrameInput) (st st' : CommandsState) (w w' : World)
    (cmds : list Command) :
  main_frame inp st w = Some (w', st', cmds) →
  outputs_consistent w → all_have_filter w → no_toggle_pending st →
  outputs_consistent w' ∧ all_have_filter w' ∧ no_toggle_pending st'
  ∧ (length cmds ≤ 1)%nat.
Proof.
  unfold main_frame. rewrite drain_on_close_spec. intros Hrun Hout Hall Hst.
  destruct (_ && _); [|by eapply frame_body_invariants].
  eapply frame_body_invariants; [exact Hrun| |done..]. by left.
Qed.

(** X19.  Two invariants of the main loop, in every state reached from the
    start of [main] over any sequence of frames, whatever the user and the
    engine do: every thread that exists has its output and its mutex (there
    is no thread at all, or exactly one thread and one mutex per output,
    thread [j] on output [j]), and every node has its [filter].  Between two
    frames no timeline toggle is pending. *)
Theorem main_loop_invariants (inps : list FrameInput) (w : World) (st : CommandsState) :
  main_loop inps commands_start initial_world = Some (w, st) →
  outputs_consistent w ∧ all_have_filter w ∧ no_toggle_pending st.
Proof.
  assert (Hgen : ∀ w0 st0, outputs_consistent w0 → all_have_filter w0 →
            no_toggle_pending st0 → main_loop inps st0 w0 = Some (w, st) →
            outputs_consistent w ∧ all_have_filter w ∧ no_toggle_pending st).
  { induction inps as [|inp inps IH]; intros w0 st0 Hout Hall Hst; cbn.
    - by intros [= <- <-].
    - destruct (main_frame inp st0 w0) as [[[w1 st1] cmds]|] eqn:Hf; [|done]. cbn.
      destruct (main_frame_invariants _ _ _ _ _ _ Hf Hout Hall Hst) as (?&?&?&_).
      by apply IH. }
  apply Hgen; [by left|by constructor|done].
Qed.

Lemma main_loop_invariants_witness :
  ∃ w st, main_loop three_frames commands_start initial_world = Some (w, st)
          ∧ outputs_consistent w ∧ all_have_filter w ∧ no_toggle_pending st.
Proof.
  destruct (main_loop three_frames commands_start initial_world) as [[w st]|] eqn:H.
  - exists w, st. split; [done|]. by apply (main_loop_invariants three_frames).
  - by vm_compute in H.
Defined.

(** ** The option list: what an edit can change *)

Section OptionListProofs.
Context `{FM : FloatModel} `{OE : !OptEngine}.



(** X21.  An edit of an unsigned 64-bit option is dropped.  The widget
    edits [value], the case then restores it from [uvalue], the copy taken
    before the edit, and stores that: whatever the user enters, the object
    is unchanged. *)
Theorem uint64_edit_is_dropped (o : AVOption) (edit : option WidgetValue)
    (obj : gmap string Stored) :
  opt_type o = AV_OPT_TYPE_UINT64 →
  ∃ shown, draw_option o edit obj = Some (obj, shown).
Proof.
  intros Ht. unfold draw_option, case_uint64, av_opt_get_int, av_opt_set_int, edited_int.
  rewrite Ht. destruct (obj !! opt_name o) as [[]|] eqn:Hobj, edit as [[]|]; cbn;
    try by eexists.
  all: rewrite ?Ht; destruct (write_number_ok _ _); cbn; [|by eexists].
  all: rewrite insert_id by done; by eexists.
Qed.

(** X22.  An edit the engine rejects is dropped without a trace: the
    result of the setter is not looked at, so when [write_number] refuses
    the number for being out of the option's range the object is as it was,
    and the next frame shows the old value again. *)
Theorem rejected_edit_is_dropped (o : AVOption) (v : WidgetValue) (n : Number)
    (obj obj' : gmap string Stored) (shown : option WidgetValue) :
  edit_number o v = Some n → write_number_ok o n = false →
  draw_option o (Some v) obj = Some (obj', shown) →
  obj' = obj ∧ draw_option o None obj' = Some (obj', shown).
Proof.
  unfold edit_number, draw_option, case_int, case_int64, case_double, case_float,
    case_rational, av_opt_get_int, av_opt_set_int, av_opt_get_double,
    av_opt_set_double, av_opt_get_q, av_opt_set_q, edited_int.
  destruct (opt_type o) eqn:Ht, v; try discriminate; intros [= <-] Hno;
    destruct (obj !! opt_name o) as [[]|] eqn:Hobj; cbn; rewrite ?Ht, ?Hno; cbn;
    intros [= <- <-]; by rewrite ?Hobj.
Qed.
End OptionListProofs.

Lemma uint64_edit_is_dropped_witness :
  ∃ shown,
    @draw_option half_units half_units_engine seed_option
      (Some (@V_int half_units 9)) seed_priv = Some (seed_priv, shown).
Proof. apply (@uint64_edit_is_dropped half_units half_units_engine). reflexivity. Defined.


Lemma rejected_edit_is_dropped_witness :
  let too_far := @V_float half_units 400 in
  ∃ shown, @draw_option half_units half_units_engine hue_h (Some too_far) hue_priv
           = Some (hue_priv, shown)
    ∧ @draw_option half_units half_units_engine hue_h None hue_priv
      = Some (hue_priv, shown).
Proof.
  intros too_far.
  destruct (@draw_option half_units half_units_engine hue_h (Some too_far) hue_priv)
    as [[obj' shown]|] eqn:Heq; [|by vm_compute in Heq].
  destruct (@rejected_edit_is_dropped half_units half_units_engine hue_h too_far
              (@N_double half_units 800) hue_priv obj' shown eq_refl eq_refl Heq)
    as [-> H].
  by exists shown.
Defined.

(** ** The sink windows: closing and single steps *)

Lemma render_sink_closed (ui : FrameUI) (published : bool) (i : nat) (w : World) :
  show_buffersink_window w = false →
  show_buffersink_window (render_sink ui published i w).1 = false
  ∧ Forall (λ e, is_upload e = false) (render_sink ui published i w).2.
Proof.
  intros Hc. unfold render_sink. destruct (buffer_sinks w !! i) as [s|]; [|done].
  unfold draw_frame. rewrite Hc. cbn.
  split; [done|]. destruct (_ && _); by repeat constructor.
Qed.

Lemma render_from_closed (uis : nat → FrameUI) (published : nat → bool) (n : nat) :
  ∀ (i : nat) (w : World),
  show_buffersink_window w = false →
  show_buffersink_window (render_from uis published i n w).1 = false
  ∧ Forall (λ e, is_upload e = false) (render_from uis published i n w).2.
Proof.
  induction n as [|n IH]; intros i w Hc; [done|]. cbn [render_from].
  destruct (render_sink_closed (uis i) (published i) i w Hc) as [H1 H2].
  destruct (render_sink (uis i) (published i) i w) as [w1 t1]. cbn in *.
  destruct (IH (S i) w1 H1) as [H3 H4].
  destruct (render_from uis published (S i) n w1) as [w2 t2]. cbn in *.
  split; [done|]. by apply Forall_app.
Qed.

Lemma render_sink_upload_index (ui : FrameUI) (published : bool) (i : nat) (w : World)
    (j : nat) (fr : ptr) :
  RUpload j fr ∈ (render_sink ui published i w).2 → j = i.
Proof.
  unfold render_sink. destruct (buffer_sinks w !! i) as [s|]; [|by intros ?%elem_of_nil].
  destruct (draw_frame _ _ _ _ _ _) as [[shown s1] [[op p] f]]. cbn.
  destruct shown; cbn; destruct (_ && _); cbn;
    rewrite ?elem_of_cons, ?elem_of_nil; intros H;
    repeat (destruct H as [H|H]; try discriminate H); try done; by injection H.
Qed.

(** The iteration for a sink whose window is closed by its close button
    or by Shift+Q. *)
Lemma render_sink_closes (ui : FrameUI) (published : bool) (i : nat) (w : World)
    (s : BufferSink) :
  buffer_sinks w !! i = Some s → is_Some (render_frame s) →
  ui_close ui = true ∨ (ui_begin ui = true ∧ ui_focused ui = true ∧ key_shift_Q ui = true) →
  show_buffersink_window (render_sink ui published i w).1 = false.
Proof.
  intros Hs Hf Hui. unfold render_sink. rewrite Hs. unfold draw_frame.
  destruct (show_buffersink_window w); cbn; [|done].
  rewrite bool_decide_eq_true_2 by done. cbn.
  destruct Hui as [->|(-> & -> & ->)]; cbn.
  - by destruct (ui_begin ui), (ui_focused ui), (key_shift_Q ui).
  - by destruct (ui_close ui).
Qed.

Lemma render_from_closes (uis : nat → FrameUI) (published : nat → bool) (n : nat) :
  ∀ (i0 : nat) (w : World) (i : nat) (s : BufferSink),
  (i0 ≤ i < i0 + n)%nat →
  buffer_sinks w !! i = Some s → is_Some (render_frame s) →
  ui_close (uis i) = true
  ∨ (ui_begin (uis i) = true ∧ ui_focused (uis i) = true ∧ key_shift_Q (uis i) = true) →
  show_buffersink_window (render_from uis published i0 n w).1 = false
  ∧ ∀ j fr, (i < j)%nat → RUpload j fr ∉ (render_from uis published i0 n w).2.
Proof.
  induction n as [|n IH]; intros i0 w i s Hi Hs Hf Hui; [lia|]. cbn [render_from].
  destruct (decide (i = i0)) as [->|Hne].
  - pose proof (render_sink_closes (uis i0) (published i0) i0 w s Hs Hf Hui) as Hc.
    assert (Ht : ∀ j fr, (i0 < j)%nat →
                 RUpload j fr ∉ (render_sink (uis i0) (published i0) i0 w).2).
    { intros j fr Hj Hin%render_sink_upload_index. lia. }
    destruct (render_sink (uis i0) (published i0) i0 w) as [w1 t1]. cbn in *.
    destruct (render_from_closed uis published n (S i0) w1 Hc) as [H3 H4].
    destruct (render_from uis published (S i0) n w1) as [w2 t2]. cbn in *.
    split; [done|]. intros j fr Hj [Hin|Hin]%elem_of_app; [by eapply Ht|].
    by apply (Forall_forall _ _) with (x := RUpload j fr) in H4.
  - destruct (render_sink_others (uis i0) (published i0) i0 w) as [_ Hothers].
    assert (Ht : ∀ j fr, (i < j)%nat →
                 RUpload j fr ∉ (render_sink (uis i0) (published i0) i0 w).2).
    { intros j fr Hj Hin%render_sink_upload_index. lia. }
    destruct (render_sink (uis i0) (published i0) i0 w) as [w1 t1]. cbn in *.
    destruct (IH (S i0) w1 i s) as [H3 H4]; [lia|by rewrite Hothers|done..|].
    destruct (render_from uis published (S i0) n w1) as [w2 t2]. cbn in *.
    split; [done|]. intros j fr Hj [Hin|Hin]%elem_of_app; [by eapply Ht|by eapply H4].
Qed.

(** X23.  The sink windows share one flag, so they close together.  When
    the window of one output is closed, by its close button or by Shift+Q
    with the focus on it, [show_buffersink_window] is clear at the end of
    the render loop and no output after that one is drawn in the same
    frame; and while the flag is clear the render loop uploads no frame at
    all. *)
Theorem sink_windows_close_together (uis : nat → FrameUI) (published : nat → bool)
    (w : World) :
  mutexes w = length (buffer_sinks w) →
  (∀ i s, buffer_sinks w !! i = Some s → is_Some (render_frame s) →
     ui_close (uis i) = true
     ∨ (ui_begin (uis i) = true ∧ ui_focused (uis i) = true ∧ key_shift_Q (uis i) = true) →
     show_buffersink_window (render_sinks uis published w).1 = false
     ∧ ∀ j fr, (i < j)%nat → RUpload j fr ∉ (render_sinks uis published w).2)
  ∧ (show_buffersink_window w = false →
     show_buffersink_window (render_sinks uis published w).1 = false
     ∧ ∀ j fr, RUpload j fr ∉ (render_sinks uis published w).2).
Proof.
  intros Hm. unfold render_sinks. rewrite decide_True by done. split.
  - intros i s Hs Hf Hui. eapply render_from_closes; [|done..].
    apply lookup_lt_Some in Hs. lia.
  - intros Hc. destruct (render_from_closed uis published (length (buffer_sinks w)) 0 w Hc)
      as [H1 H2].
    split; [done|]. intros j fr Hin.
    by apply (Forall_forall _ _) with (x := RUpload j fr) in H2.
Qed.

Lemma sink_windows_close_together_witness :
  show_buffersink_window (render_sinks (λ _, press_shift_Q) (λ _, false) running_world).1
    = false
  ∧ ∀ j fr, (0 < j)%nat →
      RUpload j fr ∉ (render_sinks (λ _, press_shift_Q) (λ _, false) running_world).2.
Proof.
  destruct (sink_windows_close_together (λ _, press_shift_Q) (λ _, false) running_world
              eq_refl) as [H _].
  apply (H 0%nat started_sink); [reflexivity|by eexists|].
  right. by repeat split.
Defined.



(** ** The Commands tree *)

Section CommandsTreeFacts.
Context `{FM : FloatModel}.
Variable print_f : double → string.

Lemma tree_shown_cons (obj : gmap string Stored) (o : AVOption) (opts : list AVOption) :
  tree_shown obj (o :: opts)
  = if tree_shows obj o then o :: tree_shown obj opts else tree_shown obj opts.
Proof.
  unfold tree_shown. rewrite filter_cons. by destruct (tree_shows obj o); case_decide.
Qed.

(** The loop skips an option that is not shown. *)
Lemma tree_options_skip (ui : TreeUI) (ctx : AVFilterContext) (obj : gmap string Stored)
    (o : AVOption) (opts : list AVOption) (k : nat) (st : list OptSlot) :
  tree_shows obj o = false →
  tree_options print_f ui ctx obj (o :: opts) k st = tree_options print_f ui ctx obj opts k st.
Proof.
  unfold tree_shows. cbn [tree_options]. destruct (Z.land _ _ =? 0); [done|]. cbn.
  case_bool_decide as Hp; [done|]. intros _.
  destruct (obj !! opt_name o); [|done]. by destruct Hp.
Qed.

Lemma tree_options_shown (ui : TreeUI) (ctx : AVFilterContext) (obj : gmap string Stored)
    (o : AVOption) (opts : list AVOption) (k : nat) (st : list OptSlot) :
  tree_shows obj o = true →
  ∃ at_ptr, obj !! opt_name o = Some at_ptr
    ∧ tree_options print_f ui ctx obj (o :: opts) k st
      = (cs ← tree_send print_f ui ctx o k st;
         st1 ← tree_widget ui o obj at_ptr k st;
         r ← tree_options print_f ui ctx obj opts (S k) st1;
         Some (r.1, cs ++ r.2)).
Proof.
  unfold tree_shows. cbn [tree_options]. destruct (Z.land _ _ =? 0); [done|]. cbn.
  case_bool_decide as Hp; [|done]. intros _. destruct Hp as [p Hp]. exists p.
  by rewrite Hp.
Qed.

Lemma new_opt_value (o : AVOption) (obj : gmap string Stored) (p : Stored) (e : OptSlot) :
  new_opt o obj p = Some e → is_Some (slot_value (opt_type o) e).
Proof.
  unfold new_opt, slot_value.
  destruct (opt_type o), p; intros [= <-]; by eexists.
Qed.

Lemma edited_slot_value (t : AVOptionType) (edit : option WidgetValue) (e : OptSlot) :
  edited_slot t edit = Some e → is_Some (slot_value t e).
Proof.
  unfold edited_slot, slot_value.
  destruct t, edit as [[]|]; intros [= <-]; by eexists.
Qed.

(** The second switch leaves the vector as long as it was, or pushes one
    slot when there is none at [opt_index]. *)
Lemma tree_widget_length (ui : TreeUI) (o : AVOption) (obj : gmap string Stored)
    (p : Stored) (k : nat) (st st1 : list OptSlot) :
  tree_widget ui o obj p k st = Some st1 →
  length st1 = length st ∨ ((length st ≤ k)%nat ∧ length st1 = S (length st)).
Proof.
  unfold tree_widget. destruct (has_slot _); [|intros [= <-]; by left].
  case_bool_decide as Hk; cbn.
  - destruct (new_opt o obj p) as [e|]; [|done]. cbn.
    destruct ((st ++ [e]) !! k) as [e1|]; [|done]. cbn.
    destruct (slot_value _ e1); [|done]. cbn. intros [= <-]. right. split; [done|].
    destruct (edited_slot _ _); cbn; rewrite ?length_insert, length_app; cbn; lia.
  - destruct (st !! k) as [e1|]; [|done]. cbn.
    destruct (slot_value _ e1); [|done]. cbn. intros [= <-]. left.
    destruct (edited_slot _ _); cbn; by rewrite ?length_insert.
Qed.

(** Once [opt_index] is past the end of the vector by more than one, only
    options without a slot can follow. *)
Lemma tree_options_gap (ui : TreeUI) (ctx : AVFilterContext) (obj : gmap string Stored)
    (opts : list AVOption) :
  ∀ (k : nat) (st : list OptSlot), (length st < k)%nat →
  is_Some (tree_options print_f ui ctx obj opts k st)
  ↔ Forall (λ o, has_slot (opt_type o) = false) (tree_shown obj opts).
Proof.
  induction opts as [|o opts IH]; intros k st Hk.
  - cbn. split; [by constructor|by eexists].
  - rewrite tree_shown_cons. destruct (tree_shows obj o) eqn:Hs.
    + destruct (tree_options_shown ui ctx obj o opts k st Hs) as (p & _ & ->).
      unfold tree_send, tree_widget. destruct (has_slot (opt_type o)) eqn:Hslot.
      * split; [|intros [H _]%Forall_cons; congruence]. intros [r Hr]. exfalso. revert Hr.
        destruct (tr_send ui k); cbn.
        { rewrite lookup_ge_None_2 by lia. done. }
        rewrite bool_decide_eq_true_2 by lia.
        destruct (new_opt o obj p) as [e|]; [|done]. cbn.
        rewrite lookup_ge_None_2; [done|]. rewrite length_app. cbn. lia.
      * cbn. rewrite Forall_cons. rewrite <- (IH (S k) st) by lia.
        destruct (tree_options print_f ui ctx obj opts (S k) st); cbn.
        -- split; [by split; [|eexists]|by eexists].
        -- split; [by intros [? [=]]|by intros [_ [? [=]]]].
    + rewrite (tree_options_skip _ _ _ _ _ _ _ Hs). by apply IH.
Qed.

Lemma slots_first_cons_slot (o : AVOption) (l : list AVOption) :
  has_slot (opt_type o) = true → slots_first (o :: l) ↔ slots_first l.
Proof.
  intros Ho. split; intros H i j o1 o2 Hij H1 H2 Hs.
  - by apply (H (S i) (S j) o1 o2); [lia|..].
  - destruct i as [|i]; [by injection H1 as <-|].
    destruct j as [|j]; [lia|]. apply (H i j o1 o2); [lia|done..].
Qed.

Lemma slots_first_cons_none (o : AVOption) (l : list AVOption) :
  has_slot (opt_type o) = false →
  slots_first (o :: l) ↔ Forall (λ o, has_slot (opt_type o) = false) l.
Proof.
  intros Ho. split.
  - intros H. apply Forall_lookup. intros j o2 H2.
    destruct (has_slot (opt_type o2)) eqn:Hs; [|done].
    specialize (H 0%nat (S j) o o2). cbn in H. rewrite H in Ho; [done|lia|done..].
  - intros H i j o1 o2 Hij H1 H2 Hs. destruct j as [|j]; [lia|]. cbn in H2.
    rewrite Forall_lookup in H. by rewrite (H j o2 H2) in Hs.
Qed.

Lemma tree_options_fresh (ui : TreeUI) (ctx : AVFilterContext) (obj : gmap string Stored)
    (opts : list AVOption) :
  (∀ k, tr_send ui k = false) → tree_typed obj opts →
  ∀ (k : nat) (st : list OptSlot), length st = k →
  is_Some (tree_options print_f ui ctx obj opts k st) ↔ slots_first (tree_shown obj opts).
Proof.
  intros Hsend. induction opts as [|o opts IH]; intros Hty k st Hk.
  - cbn. split; [|by eexists]. intros _ i j o1 o2 _ H1. by rewrite lookup_nil in H1.
  - assert (Hty' : tree_typed obj opts).
    { intros o' p Ho'. apply Hty. rewrite tree_shown_cons.
      destruct (tree_shows obj o); [by right|done]. }
    specialize (Hty o). rewrite tree_shown_cons in Hty |- *.
    destruct (tree_shows obj o) eqn:Hs.
    + destruct (tree_options_shown ui ctx obj o opts k st Hs) as (p & Hp & ->).
      unfold tree_send, tree_widget. rewrite Hsend, andb_false_r. cbn.
      destruct (has_slot (opt_type o)) eqn:Hslot.
      * rewrite slots_first_cons_slot by done.
        rewrite bool_decide_eq_true_2 by lia.
        destruct (Hty p (list_elem_of_here _ _) eq_refl Hp) as [e He]. rewrite He. cbn.
        rewrite lookup_app_r, Hk, Nat.sub_diag by lia. cbn.
        destruct (new_opt_value _ _ _ _ He) as [v ->]. cbn.
        set (st1 := from_option _ _ _).
        assert (Hlen : length st1 = S k).
        { unfold st1. destruct (edited_slot _ _); cbn;
            rewrite ?length_insert, length_app; cbn; lia. }
        rewrite <- (IH Hty' (S k) st1 Hlen).
        destruct (tree_options print_f ui ctx obj opts (S k) st1); cbn.
        -- split; by eexists.
        -- split; by intros [? [=]].
      * cbn. rewrite slots_first_cons_none by done.
        rewrite <- (tree_options_gap ui ctx obj opts (S k) st) by lia.
        destruct (tree_options print_f ui ctx obj opts (S k) st); cbn.
        -- split; by eexists.
        -- split; by intros [? [=]].
    + rewrite (tree_options_skip _ _ _ _ _ _ _ Hs). by apply IH.
Qed.

(** Once the vector has a slot for every option shown that needs one, the
    loop does not read the object. *)
Lemma tree_options_stale (ui : TreeUI) (ctx : AVFilterContext)
    (obj1 obj2 : gmap string Stored) (opts : list AVOption) :
  (∀ o, o ∈ opts → is_Some (obj1 !! opt_name o) ↔ is_Some (obj2 !! opt_name o)) →
  ∀ (k : nat) (st : list OptSlot),
  (∀ i o, tree_shown obj1 opts !! i = Some o → has_slot (opt_type o) = true →
     (k + i < length st)%nat) →
  tree_options print_f ui ctx obj1 opts k st = tree_options print_f ui ctx obj2 opts k st.
Proof.
  induction opts as [|o opts IH]; intros Hdom k st Hlen; [done|].
  assert (Hs : tree_shows obj2 o = tree_shows obj1 o).
  { unfold tree_shows. f_equal. apply bool_decide_ext. symmetry. apply Hdom. by left. }
  specialize (IH (λ o' Ho', Hdom o' (list_elem_of_further _ _ _ Ho'))).
  rewrite tree_shown_cons in Hlen. destruct (tree_shows obj1 o) eqn:Hs1.
  - destruct (tree_options_shown ui ctx obj1 o opts k st Hs1) as (p1 & _ & ->).
    destruct (tree_options_shown ui ctx obj2 o opts k st Hs) as (p2 & _ & ->).
    assert (Hw : tree_widget ui o obj1 p1 k st = tree_widget ui o obj2 p2 k st).
    { unfold tree_widget. destruct (has_slot (opt_type o)) eqn:Hslot; [|done].
      specialize (Hlen 0%nat o eq_refl Hslot).
      by rewrite bool_decide_eq_false_2 by lia. }
    rewrite <- Hw. destruct (tree_send print_f ui ctx o k st) as [cs|]; [|done]. cbn.
    destruct (tree_widget ui o obj1 p1 k st) as [st1|] eqn:Hst1; [|done]. cbn.
    rewrite (IH (S k) st1); [done|]. intros i o' Hi Hslot.
    specialize (Hlen (S i) o' Hi Hslot).
    destruct (tree_widget_length _ _ _ _ _ _ _ Hst1) as [->|[? ->]]; lia.
  - rewrite !tree_options_skip by done. by apply IH.
Qed.

(** The Send button of an option whose slot does not exist yet. *)
Lemma tree_options_send_fresh (ui : TreeUI) (ctx : AVFilterContext)
    (obj : gmap string Stored) (opts : list AVOption) :
  ∀ (i k : nat) (st : list OptSlot) (o : AVOption),
  tree_shown obj opts !! i = Some o → has_slot (opt_type o) = true →
  tr_send ui (k + i) = true → (length st ≤ k + i)%nat →
  tree_options print_f ui ctx obj opts k st = None.
Proof.
  induction opts as [|o' opts IH]; intros i k st o Hi Hslot Hsend Hlen; [done|].
  rewrite tree_shown_cons in Hi. destruct (tree_shows obj o') eqn:Hs.
  - destruct (tree_options_shown ui ctx obj o' opts k st Hs) as (p & _ & ->).
    destruct i as [|i].
    + injection Hi as ->. rewrite Nat.add_0_r in Hsend, Hlen.
      unfold tree_send. rewrite Hslot, Hsend. cbn.
      by rewrite lookup_ge_None_2 by lia.
    + cbn in Hi. destruct (tree_send print_f ui ctx o' k st) as [cs|]; [|done]. cbn.
      destruct (tree_widget ui o' obj p k st) as [st1|] eqn:Hst1; [|done]. cbn.
      rewrite (IH i (S k) st1 o Hi Hslot); [done| |].
      * by replace (S k + i)%nat with (k + S i)%nat by lia.
      * destruct (tree_widget_length _ _ _ _ _ _ _ Hst1) as [->|[? ->]]; lia.
  - rewrite tree_options_skip by done. by eapply IH.
Qed.

Lemma length_substring_0 (n : nat) :
  ∀ s : string, (String.length (String.substring 0 n s) ≤ n)%nat.
Proof.
  induction n as [|n IH]; intros [|c s]; cbn; try lia. specialize (IH s). lia.
Qed.

Lemma length_cstr (s : string) : (String.length (cstr s) ≤ String.length s)%nat.
Proof.
  induction s as [|c s IH]; cbn; [lia|]. destruct (Ascii.eqb c Ascii.zero); cbn; lia.
Qed.

Lemma send_arg_value (t : AVOptionType) (e : OptSlot) :
  is_Some (send_arg print_f t e) → is_Some (slot_value t e).
Proof.
  unfold send_arg, slot_value. destruct t, e; intros [a Ha]; try done; by eexists.
Qed.

(** What an edit writes to a slot can be sent. *)
Lemma edited_slot_send (t : AVOptionType) (edit : option WidgetValue) (e : OptSlot) :
  edited_slot t edit = Some e → is_Some (send_arg print_f t e).
Proof.
  unfold edited_slot, send_arg.
  destruct t, edit as [[]|]; intros [= <-]; try by eexists.
  rewrite bool_decide_eq_true_2; [by eexists|].
  pose proof (length_cstr (String.substring 0 1022 s)).
  pose proof (length_substring_0 1022 s). lia.
Qed.

(** An iteration on a vector that has the slots of all options shown. *)
Lemma tree_options_steady (ui : TreeUI) (ctx : AVFilterContext) (obj : gmap string Stored)
    (opts : list AVOption) :
  ∀ (pre : list AVOption) (st : list OptSlot),
  slots_ok print_f (pre ++ tree_shown obj opts) st →
  ∃ st' cs, tree_options print_f ui ctx obj opts (length pre) st = Some (st', cs)
    ∧ slots_ok print_f (pre ++ tree_shown obj opts) st'
    ∧ length st' = length st.
Proof.
  induction opts as [|o opts IH]; intros pre st Hok.
  - by exists st, [].
  - rewrite tree_shown_cons in Hok |- *. destruct (tree_shows obj o) eqn:Hs.
    + destruct (tree_options_shown ui ctx obj o opts (length pre) st Hs) as (p & _ & ->).
      rewrite cons_middle, app_assoc in Hok |- *.
      assert (Hslot : has_slot (opt_type o) = true →
                ∃ e, st !! length pre = Some e ∧ is_Some (send_arg print_f (opt_type o) e)).
      { intros Hslot. apply Hok; [|done].
        rewrite lookup_app_l by (rewrite length_app; cbn; lia).
        by rewrite lookup_app_r, Nat.sub_diag by lia. }
      assert (Hcs : ∃ cs, tree_send print_f ui ctx o (length pre) st = Some cs).
      { unfold tree_send. destruct (has_slot (opt_type o)); [|by eexists].
        destruct (Hslot eq_refl) as (e & He & [a Ha]). rewrite He. cbn. rewrite Ha.
        destruct (tr_send ui (length pre)); by eexists. }
      assert (Hst1 : ∃ st1, tree_widget ui o obj p (length pre) st = Some st1
                ∧ slots_ok print_f ((pre ++ [o]) ++ tree_shown obj opts) st1
                ∧ length st1 = length st).
      { unfold tree_widget. destruct (has_slot (opt_type o)); [|by exists st].
        destruct (Hslot eq_refl) as (e & He & Hsnd).
        rewrite bool_decide_eq_false_2 by (apply lookup_lt_Some in He; lia). cbn.
        rewrite He. cbn. destruct (send_arg_value _ e Hsnd) as [v ->]. cbn.
        eexists. split; [done|].
        destruct (edited_slot _ _) as [e'|] eqn:Hed; cbn; [|done].
        split; [|by rewrite length_insert]. intros i o' Hi Hs'.
        destruct (decide (i = length pre)) as [->|Hne].
        - rewrite lookup_app_l in Hi by (rewrite length_app; cbn; lia).
          rewrite lookup_app_r, Nat.sub_diag in Hi by lia. injection Hi as <-.
          exists e'. split; [|by eapply edited_slot_send].
          apply list_lookup_insert_eq. by eapply lookup_lt_Some.
        - rewrite list_lookup_insert_ne by done. by apply Hok. }
      destruct Hcs as [cs ->]. destruct Hst1 as (st1 & -> & Hok1 & Hlen1). cbn.
      destruct (IH (pre ++ [o]) st1 Hok1) as (st' & cs' & Hrun & Hok' & Hlen').
      rewrite length_app in Hrun. cbn in Hrun.
      replace (length pre + 1)%nat with (S (length pre)) in Hrun by lia.
      rewrite Hrun. cbn. exists st', (cs ++ cs'). split; [done|]. split; [done|]. lia.
    + rewrite tree_options_skip by done. by apply IH.
Qed.

(** After the options with a slot, the loop changes nothing. *)
Lemma tree_options_no_slots (ui : TreeUI) (ctx : AVFilterContext) (obj : gmap string Stored)
    (opts : list AVOption) :
  Forall (λ o, has_slot (opt_type o) = false) (tree_shown obj opts) →
  ∀ (k : nat) (st : list OptSlot),
  tree_options print_f ui ctx obj opts k st = Some (st, []).
Proof.
  induction opts as [|o opts IH]; intros Hno k st; [done|].
  rewrite tree_shown_cons in Hno. destruct (tree_shows obj o) eqn:Hs.
  - destruct (tree_options_shown ui ctx obj o opts k st Hs) as (p & _ & ->).
    apply Forall_cons in Hno as [Hslot Hno].
    unfold tree_send, tree_widget. rewrite Hslot. cbn. by rewrite IH.
  - rewrite tree_options_skip by done. by apply IH.
Qed.

(** The first display: one slot is pushed for each option with a slot. *)
Lemma tree_options_first (ui : TreeUI) (ctx : AVFilterContext) (obj : gmap string Stored)
    (opts : list AVOption) :
  (∀ k, tr_send ui k = false) →
  tree_sendable print_f obj opts → slots_first (tree_shown obj opts) →
  ∀ (pre : list AVOption) (st : list OptSlot),
  length st = length pre → slots_ok print_f pre st →
  ∃ st', tree_options print_f ui ctx obj opts (length pre) st = Some (st', [])
    ∧ slots_ok print_f (pre ++ tree_shown obj opts) st'
    ∧ length st'
      = (length pre + length (filter (λ o, has_slot (opt_type o) = true)
                                (tree_shown obj opts)))%nat.
Proof.
  intros Hsend. induction opts as [|o opts IH]; intros Hty Hfirst pre st Hlen Hok.
  - exists st. rewrite app_nil_r. cbn. split; [done|]. split; [done|lia].
  - assert (Hty' : tree_sendable print_f obj opts).
    { intros o' p Ho'. apply Hty. rewrite tree_shown_cons.
      destruct (tree_shows obj o); [by right|done]. }
    specialize (Hty o). rewrite tree_shown_cons in Hty, Hfirst |- *.
    destruct (tree_shows obj o) eqn:Hs; [|rewrite tree_options_skip by done; by apply IH].
    destruct (tree_options_shown ui ctx obj o opts (length pre) st Hs) as (p & Hp & ->).
    rewrite filter_cons.
    set (slots := filter _ (tree_shown obj opts)) in *.
    unfold tree_send. rewrite Hsend, andb_false_r. cbn [mbind option_bind].
    destruct (has_slot (opt_type o)) eqn:Hslot.
    + apply slots_first_cons_slot in Hfirst; [|done].
      destruct (Hty p (list_elem_of_here _ _) eq_refl Hp) as (e & He & Hsnd).
      assert (Hw : ∃ e2, tree_widget ui o obj p (length pre) st = Some (st ++ [e2])
                ∧ is_Some (send_arg print_f (opt_type o) e2)).
      { unfold tree_widget. rewrite Hslot, bool_decide_eq_true_2 by lia.
        rewrite He. cbn [mbind option_bind].
        rewrite lookup_app_r, Hlen, Nat.sub_diag by lia.
        cbn [lookup list_lookup mbind option_bind].
        destruct (send_arg_value _ e Hsnd) as [v ->]. cbn [mbind option_bind].
        destruct (edited_slot _ _) as [e'|] eqn:Hed; cbn [from_option].
        - exists e'. split; [|by eapply edited_slot_send].
          rewrite <- Hlen, insert_app_r_alt, Nat.sub_diag by lia. done.
        - by exists e. }
      destruct Hw as (e2 & -> & Hsnd2). cbn [mbind option_bind].
      destruct (IH Hty' Hfirst (pre ++ [o]) (st ++ [e2])) as (st' & Hrun & Hok' & Hlen').
      { rewrite !length_app. cbn. lia. }
      { intros i o' Hi Hs'. destruct (decide (i < length pre)%nat) as [Hlt|Hge].
        - rewrite lookup_app_l in Hi by lia. rewrite lookup_app_l by lia. by apply Hok.
        - rewrite lookup_app_r in Hi by lia. rewrite lookup_app_r by lia. rewrite Hlen.
          destruct (i - length pre)%nat as [|n]; [|done]. injection Hi as <-.
          by exists e2. }
      rewrite length_app in Hrun, Hlen'. cbn [length] in Hrun, Hlen'.
      replace (length pre + 1)%nat with (S (length pre)) in Hrun by lia.
      rewrite Hrun. cbn [mbind option_bind fst snd app]. exists st'. split; [done|].
      replace (pre ++ o :: tree_shown obj opts) with ((pre ++ [o]) ++ tree_shown obj opts)
        by (by rewrite <- app_assoc).
      split; [done|]. rewrite decide_True by done. cbn [length]. lia.
    + apply slots_first_cons_none in Hfirst; [|done]. unfold tree_widget.
      rewrite Hslot. cbn [mbind option_bind].
      rewrite (tree_options_no_slots ui ctx obj opts Hfirst).
      cbn [mbind option_bind fst snd app]. exists st.
      split; [done|]. split.
      * intros i o' Hi Hs'. destruct (decide (i < length pre)%nat) as [Hlt|Hge].
        -- rewrite lookup_app_l in Hi by lia. by apply Hok.
        -- rewrite lookup_app_r in Hi by lia.
           destruct (i - length pre)%nat as [|n]; [injection Hi as <-; congruence|].
           cbn in Hi. rewrite Forall_lookup in Hfirst.
           rewrite (Hfirst n o' Hi) in Hs'. done.
      * rewrite decide_False by congruence.
        assert (slots = []) as ->; [|cbn; lia].
        unfold slots. clear -Hfirst. induction Hfirst as [|x l Hx _ IHl]; [done|].
        rewrite filter_cons, decide_False by congruence. done.
Qed.

End CommandsTreeFacts.

(** X25.  The first display of the Commands tree, on an empty vector and
    with no Send button pressed, stays within [opt_storage] exactly when,
    among the options it shows, none without a case in the switches (a
    colour, a rational, a duration, ...) comes before one with a case:
    [opt_index] counts every option shown, but a slot is pushed only for
    the eight types with a case, and only one at a time. *)
Theorem commands_tree_needs_slots_first `{FM : FloatModel} (print_f : double → string)
    (ui : TreeUI) (ctx : AVFilterContext) (obj : gmap string Stored)
    (opts : list AVOption) (node_storage : list OptSlot) :
  (∀ k, tr_send ui k = false) → tree_typed obj opts →
  is_Some (commands_tree print_f ui ctx obj opts true node_storage)
  ↔ slots_first (tree_shown obj opts).
Proof.
  intros Hsend Hty. unfold commands_tree. cbn.
  rewrite <- (tree_options_fresh print_f ui ctx obj opts Hsend Hty 0 []) by done.
  destruct (tree_options print_f ui ctx obj opts 0 []); cbn.
  - split; by eexists.
  - split; by intros [? [=]].
Qed.

Lemma commands_tree_needs_slots_first_witness :
  ¬ is_Some (@commands_tree half_units pretty quiet_tree tree_ctx key_priv
               [key_color; key_similarity] true []).
Proof.
  intros H.
  apply (@commands_tree_needs_slots_first half_units pretty quiet_tree tree_ctx key_priv
           [key_color; key_similarity] []) in H.
  - by specialize (H 0%nat 1%nat key_color key_similarity (Nat.lt_0_succ 0)
                     eq_refl eq_refl eq_refl).
  - done.
  - intros o p Ho Hslot Hp. vm_compute in Ho.
    apply list_elem_of_In in Ho. destruct Ho as [<-|[<-|[]]]; [done|].
    vm_compute in Hp. injection Hp as <-. by eexists.
Defined.

(** X26.  Once the node's vector has a slot at the index of every option
    shown that needs one, the tree does not read the filter's values any
    more: two objects with the same options give the same vector and the
    same commands, whatever they hold.  The widgets show, and Send sends,
    what was stored when the slot was pushed or last edited. *)
Theorem commands_tree_stale `{FM : FloatModel} (print_f : double → string)
    (ui : TreeUI) (ctx : AVFilterContext) (obj1 obj2 : gmap string Stored)
    (opts : list AVOption) (node_storage : list OptSlot) :
  (∀ o, o ∈ opts → is_Some (obj1 !! opt_name o) ↔ is_Some (obj2 !! opt_name o)) →
  (∀ i o, tree_shown obj1 opts !! i = Some o → has_slot (opt_type o) = true →
     (i < length node_storage)%nat) →
  commands_tree print_f ui ctx obj1 opts false node_storage
  = commands_tree print_f ui ctx obj2 opts false node_storage.
Proof.
  intros Hdom Hlen. unfold commands_tree.
  by rewrite (tree_options_stale print_f ui ctx obj1 obj2 opts Hdom 0 node_storage Hlen).
Qed.

Lemma commands_tree_stale_witness :
  @commands_tree half_units pretty send_first tree_ctx border_priv
    [border_left; key_color] false [@O_i32 half_units 4]
  = @commands_tree half_units pretty send_first tree_ctx border_priv_reset
      [border_left; key_color] false [@O_i32 half_units 4].
Proof.
  apply (@commands_tree_stale half_units pretty send_first tree_ctx border_priv
           border_priv_reset [border_left; key_color] [@O_i32 half_units 4]).
  - intros o Ho. apply list_elem_of_In in Ho.
    destruct Ho as [<-|[<-|[]]]; vm_compute; split; intros _; by eexists.
  - intros i o Hi Hslot. vm_compute in Hi.
    destruct i as [|[|i]]; [cbn; lia| |done]. injection Hi as <-. done.
Defined.

(** X27.  The Send button reads [opt_storage[opt_index]] before the slot is
    pushed: pressing Send for an option whose slot does not exist yet, as
    in the frame in which the vector was cleared, indexes the vector out of
    its range. *)
Theorem send_before_slot `{FM : FloatModel} (print_f : double → string)
    (ui : TreeUI) (ctx : AVFilterContext) (obj : gmap string Stored)
    (opts : list AVOption) (clean_storage : bool) (node_storage : list OptSlot)
    (i : nat) (o : AVOption) :
  tree_shown obj opts !! i = Some o → has_slot (opt_type o) = true →
  tr_send ui i = true →
  clean_storage = true ∨ (length node_storage ≤ i)%nat →
  commands_tree print_f ui ctx obj opts clean_storage node_storage = None.
Proof.
  intros Hi Hslot Hsend Hlen. unfold commands_tree.
  rewrite (tree_options_send_fresh print_f ui ctx obj opts i 0 _ o Hi Hslot Hsend); [done|].
  destruct Hlen as [->|Hlen]; cbn; [lia|]. destruct clean_storage; cbn; lia.
Qed.

Lemma send_before_slot_witness :
  @commands_tree half_units pretty send_first tree_ctx border_priv
    [border_left; key_color] true [@O_i32 half_units 4] = None.
Proof.
  apply (@send_before_slot half_units pretty send_first tree_ctx border_priv
           [border_left; key_color] true [@O_i32 half_units 4] 0 border_left);
    [reflexivity|reflexivity|reflexivity|by left].
Defined.

(** X28.  A vector that has, for every option shown that needs one, a slot
    of the option's type that can be sent (a string not NULL and shorter
    than 1024) is kept in that state by the tree whatever the user does:
    the iteration stays within the vector, pushes nothing, and what an edit
    writes can be sent again. *)
Theorem commands_tree_steady `{FM : FloatModel} (print_f : double → string)
    (ui : TreeUI) (ctx : AVFilterContext) (obj : gmap string Stored)
    (opts : list AVOption) (node_storage : list OptSlot) :
  slots_ok print_f (tree_shown obj opts) node_storage →
  ∃ st' cs,
    commands_tree print_f ui ctx obj opts false node_storage = Some (false, st', cs)
    ∧ slots_ok print_f (tree_shown obj opts) st'
    ∧ length st' = length node_storage.
Proof.
  intros Hok. unfold commands_tree.
  destruct (tree_options_steady print_f ui ctx obj opts [] node_storage Hok)
    as (st' & cs & Hrun & Hok' & Hlen).
  cbn in Hrun. rewrite Hrun. by exists st', cs.
Qed.

Lemma commands_tree_steady_witness :
  ∃ st' cs,
    @commands_tree half_units pretty send_first tree_ctx border_priv
      [border_left; key_color] false [@O_i32 half_units 4] = Some (false, st', cs)
    ∧ slots_ok pretty (tree_shown border_priv [border_left; key_color]) st'
    ∧ length st' = length [@O_i32 half_units 4].
Proof.
  apply (@commands_tree_steady half_units pretty send_first tree_ctx border_priv
           [border_left; key_color] [@O_i32 half_units 4]).
  intros i o Hi Hslot. vm_compute in Hi.
  destruct i as [|[|i]]; [|by injection Hi as <-|done].
  injection Hi as <-. eexists. split; [reflexivity|]. by eexists.
Defined.

(** X29.  What the first display leaves.  When no Send button is pressed,
    the options with a case come first among those shown and the filter's
    values can be sent (strings not NULL and shorter than 1024), the tree
    sends nothing and leaves one slot for each option with a case, each of
    the option's type and fit to be sent. *)
Theorem commands_tree_first_display `{FM : FloatModel} (print_f : double → string)
    (ui : TreeUI) (ctx : AVFilterContext) (obj : gmap string Stored)
    (opts : list AVOption) (node_storage : list OptSlot) :
  (∀ k, tr_send ui k = false) →
  tree_sendable print_f obj opts → slots_first (tree_shown obj opts) →
  ∃ st',
    commands_tree print_f ui ctx obj opts true node_storage = Some (false, st', [])
    ∧ slots_ok print_f (tree_shown obj opts) st'
    ∧ length st'
      = length (filter (λ o, has_slot (opt_type o) = true) (tree_shown obj opts)).
Proof.
  intros Hsend Hty Hfirst. unfold commands_tree.
  destruct (tree_options_first print_f ui ctx obj opts Hsend Hty Hfirst [] [])
    as (st' & Hrun & Hok & Hlen); [done| |].
  { intros i o Hi. by rewrite lookup_nil in Hi. }
  cbn in Hrun. rewrite Hrun. by exists st'.
Qed.

Lemma commands_tree_first_display_witness :
  ∃ st',
    @commands_tree half_units pretty quiet_tree tree_ctx border_priv
      [border_left; key_color] true [] = Some (false, st', [])
    ∧ slots_ok pretty (tree_shown border_priv [border_left; key_color]) st'
    ∧ length st'
      = length (filter (λ o, has_slot (@opt_type half_units o) = true)
                  (tree_shown border_priv [border_left; key_color])).
Proof.
  apply (@commands_tree_first_display half_units pretty quiet_tree tree_ctx border_priv
           [border_left; key_color] []).
  - done.
  - intros o p Ho Hslot Hp. vm_compute in Ho.
    apply list_elem_of_In in Ho. destruct Ho as [<-|[<-|[]]]; [|done].
    vm_compute in Hp. injection Hp as <-. eexists. split; [reflexivity|]. by eexists.
  - intros i j o1 o2 Hij H1 H2 Hs. vm_compute in H1, H2.
    destruct i as [|[|i]]; [by injection H1 as <-| |done].
    destruct j as [|[|j]]; [lia|lia|done].
Defined.
